(** * The canvas editor of the manga studio: shapes, history, view transform,
      pointer gestures and the layout compositor.

    Shallow embedding of [components/PanelEditor.tsx] (geometry helpers,
    pointer handlers, zoom, on-screen order, [getLayoutAsImage]), of the page
    history kept by [App.tsx] ([handleShapesChange], [handleUndo],
    [handleRedo]) and of the shape types of [types.ts].

    Numbers.  A JavaScript [number] is modelled as a rational ([Q]): sums,
    products, quotients, [Math.min], [Math.max] and [Math.abs] are exact, and
    [NaN] and the infinities have no counterpart.  Equality of computed
    coordinates is therefore stated with [==] ([Qeq]). *)

From Stdlib Require Import QArith Qminmax Qabs Lqa Lia Bool Sorted.
From stdpp Require Import base list strings pretty sorting.

Set Default Proof Using "Type".

(** ** Points and shapes ([types.ts]) *)

Record Point : Type := mkPoint { px : Q; py : Q }.

Definition Point_eq (a b : Point) : Prop := (px a == px b)%Q /\ (py a == py b)%Q.

Inductive BubbleType : Type := rounded | oval | rect.

Inductive Preset : Type := full | upper | lower | face.

(** [SkeletonData] is an object from joint names to points; an object keeps
    its keys in insertion order, so it is an association list here. *)
Definition SkeletonData : Type := list (string * Point).

Inductive Pose : Type :=
| SkeletonPose (preset : Preset) (data : SkeletonData) (comment : string)
| ImagePose (href : string)
| DrawingPose (points : list (list Point)).

(** The variant part of a [CanvasShape]: the fields that only one [type] has. *)
Inductive ShapeKind : Type :=
| panel (points : list Point)
| text (content : string) (fontSize : Q)
| bubble (bubbleType : BubbleType) (content : string) (tail : option Point)
| drawing (strokes : list (list Point)) (strokeColor : string) (strokeWidth : Q)
| image (href characterId : string) (panelIndex : Z) (pose : option Pose)
| arrow (p0 p1 : Point) (strokeColor : string) (strokeWidth : Q).

(** The fields of the base interface [Shape]; [width] and [height] are
    optional there (a drawing or an arrow has none). *)
Record CanvasShape : Type := mkShape {
  s_id : string;
  s_x : Q;
  s_y : Q;
  s_width : option Q;
  s_height : option Q;
  s_kind : ShapeKind
}.

(** The discriminant [shape.type]. *)
Inductive ShapeType : Type := Tpanel | Ttext | Tbubble | Tdrawing | Timage | Tarrow.

Definition s_type (s : CanvasShape) : ShapeType :=
  match s_kind s with
  | panel _ => Tpanel
  | text _ _ => Ttext
  | bubble _ _ _ => Tbubble
  | drawing _ _ _ => Tdrawing
  | image _ _ _ _ => Timage
  | arrow _ _ _ _ => Tarrow
  end.

Definition ShapeType_eqb (a b : ShapeType) : bool :=
  match a, b with
  | Tpanel, Tpanel | Ttext, Ttext | Tbubble, Tbubble
  | Tdrawing, Tdrawing | Timage, Timage | Tarrow, Tarrow => true
  | _, _ => false
  end.

Definition is_type (t : ShapeType) (s : CanvasShape) : bool := ShapeType_eqb (s_type s) t.

(** [{...s, x, y}], [{...s, x, y, width, height}], [{...s, points}] and the like. *)
Definition with_xy (s : CanvasShape) (nx ny : Q) : CanvasShape :=
  mkShape (s_id s) nx ny (s_width s) (s_height s) (s_kind s).

Definition with_box (s : CanvasShape) (nx ny nw nh : Q) : CanvasShape :=
  mkShape (s_id s) nx ny (Some nw) (Some nh) (s_kind s).

Definition with_kind (s : CanvasShape) (k : ShapeKind) : CanvasShape :=
  mkShape (s_id s) (s_x s) (s_y s) (s_width s) (s_height s) k.

(** [shape.width || 0]: an absent field reads as [0]. *)
Definition or0 (o : option Q) : Q := default 0%Q o.

Record ViewTransform : Type := mkVT { scale : Q; vt_x : Q; vt_y : Q }.

(** ** Pages and their history ([App.tsx]) *)

(** The fields of [Page] that the shape handlers read or write; the others
    (generated image, proposal settings, ...) are copied by [...p]. The
    history index is an array index: it starts at 0 and the handlers only add
    or subtract 1 behind a bounds test, so it is a natural number here. *)
Record Page : Type := mkPage {
  p_id : string;
  shapes : list CanvasShape;
  shapesHistory : list (list CanvasShape);
  shapesHistoryIndex : nat;
  sceneDescription : string;
  aspectRatio : string;
  viewTransform : ViewTransform
}.

Definition initialPage (pid : string) : Page :=
  mkPage pid [] [[]] 0 "" "A4" (mkVT 1 0 0).

(** [arr[i] = v] on a copy of [arr]: inside the array it replaces the entry,
    past its end JavaScript extends the array, leaving holes before [i]. A
    hole reads as [undefined]; the model writes the value [hole] there (the
    empty snapshot in a history). The handlers only write inside the array
    when the page or the panel is one the editor has built. *)
Definition array_set {A : Type} (hole : A) (arr : list A) (i : nat) (v : A) : list A :=
  if decide (i < length arr) then <[i:=v]> arr
  else arr ++ replicate (i - length arr) hole ++ [v].

(** [arr[i]] for an array of snapshots; outside the array JavaScript gives
    [undefined], which the model reads as the empty snapshot. *)
Definition snapshot_at (arr : list (list CanvasShape)) (i : nat) : list CanvasShape :=
  default [] (arr !! i).

Definition panelCount (l : list CanvasShape) : nat :=
  length (List.filter (is_type Tpanel) l).

Section PageHandlers.

(** The script is re-read with a regular expression and trimmed; both are
    taken as given: [existingPanels desc i] is the text captured for
    ["Panel i:"] in [desc] (empty when there is none), [trim] is
    [String.prototype.trim]. *)
Variable existingPanels : string -> nat -> string.
Variable trim : string -> string.

Definition newline2 : string :=
  String (Ascii.ascii_of_nat 10) (String (Ascii.ascii_of_nat 10) EmptyString).

Definition scriptFor (desc : string) (newPanelCount : nat) : string :=
  if (0 <? newPanelCount)%nat then
    trim (foldl (fun newDesc i =>
                   newDesc +:+ "Panel " +:+ pretty i +:+ ": "
                           +:+ existingPanels desc i +:+ newline2)
                "" (seq 1 newPanelCount))
  else "".

(** The function mapped over the pages by [handleShapesChange]. *)
Definition shapesChangePage (currentPageId : string)
    (newShapes : list CanvasShape) (recordHistory : bool) (p : Page) : Page :=
  if negb (String.eqb (p_id p) currentPageId) then p else
  let newPanelCount := panelCount newShapes in
  let oldPanelCount := panelCount (shapes p) in
  let updatedSceneDescription :=
    if negb (newPanelCount =? oldPanelCount)%nat
    then scriptFor (sceneDescription p) newPanelCount
    else sceneDescription p in
  if recordHistory then
    let newHistory := take (shapesHistoryIndex p + 1) (shapesHistory p) ++ [newShapes] in
    mkPage (p_id p) newShapes newHistory (length newHistory - 1)
           updatedSceneDescription (aspectRatio p) (viewTransform p)
  else
    let newHistory := array_set [] (shapesHistory p) (shapesHistoryIndex p) newShapes in
    mkPage (p_id p) newShapes newHistory (shapesHistoryIndex p)
           updatedSceneDescription (aspectRatio p) (viewTransform p).

Definition handleShapesChange (currentPageId : string)
    (newShapes : list CanvasShape) (recordHistory : bool)
    (prevPages : list Page) : list Page :=
  map (shapesChangePage currentPageId newShapes recordHistory) prevPages.

(** The two calling conventions of the specification. *)
Definition commit (currentPageId : string) (p : Page) (newShapes : list CanvasShape) : Page :=
  shapesChangePage currentPageId newShapes true p.

Definition updateInPlace (currentPageId : string) (p : Page) (newShapes : list CanvasShape) : Page :=
  shapesChangePage currentPageId newShapes false p.

End PageHandlers.

Definition undoPage (currentPageId : string) (p : Page) : Page :=
  if negb (String.eqb (p_id p) currentPageId) || (shapesHistoryIndex p <=? 0)%nat then p else
  let newIndex := shapesHistoryIndex p - 1 in
  mkPage (p_id p) (snapshot_at (shapesHistory p) newIndex) (shapesHistory p) newIndex
         (sceneDescription p) (aspectRatio p) (viewTransform p).

Definition handleUndo (currentPageId : string) (prevPages : list Page) : list Page :=
  map (undoPage currentPageId) prevPages.

Definition redoPage (currentPageId : string) (p : Page) : Page :=
  if negb (String.eqb (p_id p) currentPageId)
     || (length (shapesHistory p) - 1 <=? shapesHistoryIndex p)%nat then p else
  let newIndex := shapesHistoryIndex p + 1 in
  mkPage (p_id p) (snapshot_at (shapesHistory p) newIndex) (shapesHistory p) newIndex
         (sceneDescription p) (aspectRatio p) (viewTransform p).

Definition handleRedo (currentPageId : string) (prevPages : list Page) : list Page :=
  map (redoPage currentPageId) prevPages.

Definition canUndo (p : Page) : bool := (0 <? shapesHistoryIndex p)%nat.
Definition canRedo (p : Page) : bool :=
  (shapesHistoryIndex p <? length (shapesHistory p) - 1)%nat.

(** ** Geometry helpers ([PanelEditor.tsx]) *)

Record Rect : Type := mkRect { r_x : Q; r_y : Q; r_width : Q; r_height : Q }.

(** [Math.min(...xs)] and [Math.max(...xs)]. On an empty argument list
    JavaScript answers [Infinity] and [-Infinity], which have no rational
    counterpart: the model answers [0] there, and every statement below that
    reaches these functions is about a non-empty list. *)
Definition Math_min (xs : list Q) : Q :=
  match xs with
  | [] => 0%Q
  | x :: r => foldl Qmin x r
  end.

Definition Math_max (xs : list Q) : Q :=
  match xs with
  | [] => 0%Q
  | x :: r => foldl Qmax x r
  end.

(** The box of a non-empty point list, as the code computes it in four places. *)
Definition boxOfPoints (pts : list Point) : Rect :=
  let xs := map px pts in
  let ys := map py pts in
  let minX := Math_min xs in
  let minY := Math_min ys in
  mkRect minX minY (Math_max xs - minX)%Q (Math_max ys - minY)%Q.

Definition getShapeBBox (shape : CanvasShape) : Rect :=
  match s_kind shape with
  | panel pts =>
      if (length pts =? 0)%nat then mkRect (s_x shape) (s_y shape) 0 0
      else boxOfPoints pts
  | arrow a b _ _ => boxOfPoints [a; b]
  | drawing strokes _ _ =>
      match strokes with
      | [] => mkRect (s_x shape) (s_y shape) 0 0
      | [] :: _ => mkRect (s_x shape) (s_y shape) 0 0
      | _ => boxOfPoints (concat strokes)
      end
  | _ => mkRect (s_x shape) (s_y shape) (or0 (s_width shape)) (or0 (s_height shape))
  end.

Definition getBBoxCenter (points : list Point) : Point :=
  if (length points =? 0)%nat then mkPoint 0 0 else
  let xs := map px points in
  let ys := map py points in
  let minX := Math_min xs in
  let minY := Math_min ys in
  mkPoint (minX + (Math_max xs - minX) / 2)%Q (minY + (Math_max ys - minY) / 2)%Q.

(** [points[i]]; the loop below only reads inside the array. *)
Definition pointAt (points : list Point) (i : nat) : Point :=
  default (mkPoint 0 0) (points !! i).

(** One turn of the [for] loop of [getPolygonCentroid] on the accumulators
    [(area, cx, cy)]. *)
Definition centroidStep (points : list Point) (acc : Q * Q * Q) (i : nat) : Q * Q * Q :=
  let '(area, cx, cy) := acc in
  let p1 := pointAt points i in
  let p2 := pointAt points ((i + 1) mod length points) in
  let crossProduct := (px p1 * py p2 - px p2 * py p1)%Q in
  ((area + crossProduct)%Q,
   (cx + (px p1 + px p2) * crossProduct)%Q,
   (cy + (py p1 + py p2) * crossProduct)%Q).

Definition centroidSums (points : list Point) : Q * Q * Q :=
  foldl (centroidStep points) (0%Q, 0%Q, 0%Q) (seq 0 (length points)).

Definition epsilon : Q := 1 # 1000000.

Definition getPolygonCentroid (points : list Point) : Point :=
  if (length points <? 3)%nat then getBBoxCenter points else
  let '(area0, cx, cy) := centroidSums points in
  let area := (area0 / 2)%Q in
  if Qlt_le_dec (Qabs area) epsilon then getBBoxCenter points
  else mkPoint (cx / (6 * area))%Q (cy / (6 * area))%Q.

(** The even-odd ray test of [isPointInPolygon]: [j] runs one step behind [i],
    starting from the last vertex. *)
Definition crosses (point pi pj : Point) : bool :=
  negb (Bool.eqb (if Qlt_le_dec (py point) (py pi) then true else false)
                 (if Qlt_le_dec (py point) (py pj) then true else false))
  && (if Qlt_le_dec (px point)
            ((px pj - px pi) * (py point - py pi) / (py pj - py pi) + px pi)%Q
      then true else false).

Definition isPointInPolygon (point : Point) (polygon : list Point) : bool :=
  fst (foldl (fun '(isInside, j) i =>
                (if crosses point (pointAt polygon i) (pointAt polygon j)
                 then negb isInside else isInside, i))
             (false, length polygon - 1) (seq 0 (length polygon))).

(** ** The view transform *)

(** The last step of [getMousePos]: from the coordinates of the pointer in
    the SVG element to document coordinates. *)
Definition screenToDocument (vt : ViewTransform) (pt : Point) : Point :=
  mkPoint ((px pt - vt_x vt) / scale vt)%Q ((py pt - vt_y vt) / scale vt)%Q.

Definition documentToScreen (vt : ViewTransform) (pt : Point) : Point :=
  mkPoint (px pt * scale vt + vt_x vt)%Q (py pt * scale vt + vt_y vt)%Q.

Definition clampScale (newScale : Q) : Q := Qmax (1 # 10) (Qmin newScale 10).

(** [handleWheel]: [rectLeft], [rectTop] locate the SVG element, the event
    brings [clientX], [clientY] and [deltaY]. *)
Definition handleWheel (vt : ViewTransform)
    (rectLeft rectTop clientX clientY deltaY : Q) : ViewTransform :=
  let mouseX := (clientX - rectLeft)%Q in
  let mouseY := (clientY - rectTop)%Q in
  let scaleFactor := (11 # 10)%Q in
  let newScale := if Qlt_le_dec deltaY 0 then (scale vt * scaleFactor)%Q
                  else (scale vt / scaleFactor)%Q in
  let clampedScale := clampScale newScale in
  let newX := (mouseX - (mouseX - vt_x vt) * (clampedScale / scale vt))%Q in
  let newY := (mouseY - (mouseY - vt_y vt) * (clampedScale / scale vt))%Q in
  mkVT clampedScale newX newY.

Inductive Direction : Type := zoom_in | zoom_out.

(** [zoom]: the buttons zoom about the centre of the viewport. *)
Definition zoom (vt : ViewTransform) (viewWidth viewHeight : Q) (direction : Direction)
    : ViewTransform :=
  let centerX := (viewWidth / 2)%Q in
  let centerY := (viewHeight / 2)%Q in
  let scaleFactor := (125 # 100)%Q in
  let newScale := match direction with
                  | zoom_in => (scale vt * scaleFactor)%Q
                  | zoom_out => (scale vt / scaleFactor)%Q
                  end in
  let clampedScale := clampScale newScale in
  let newX := (centerX - (centerX - vt_x vt) * (clampedScale / scale vt))%Q in
  let newY := (centerY - (centerY - vt_y vt) * (clampedScale / scale vt))%Q in
  mkVT clampedScale newX newY.

Definition zoomIn (vt : ViewTransform) (viewWidth viewHeight : Q) : ViewTransform :=
  zoom vt viewWidth viewHeight zoom_in.
Definition zoomOut (vt : ViewTransform) (viewWidth viewHeight : Q) : ViewTransform :=
  zoom vt viewWidth viewHeight zoom_out.

(** [ASPECT_RATIO_CONFIG] and [canvasConfig]: an unknown name falls back to A4. *)
Definition ASPECT_RATIO_CONFIG (name : string) : option (Q * Q) :=
  if String.eqb name "A4" then Some (595, 842)%Q
  else if String.eqb name "竖版" then Some (600, 800)%Q
  else if String.eqb name "正方形" then Some (800, 800)%Q
  else if String.eqb name "横版" then Some (1280, 720)%Q
  else None.

Definition canvasConfig (aspect : string) : Q * Q :=
  default (595, 842)%Q (ASPECT_RATIO_CONFIG aspect).

(** [fitAndCenterCanvas]: nothing happens in an empty viewport. *)
Definition fitAndCenterCanvas (aspect : string) (vt : ViewTransform)
    (viewWidth viewHeight : Q) : ViewTransform :=
  if Qeq_bool viewWidth 0 || Qeq_bool viewHeight 0 then vt else
  let '(pageWidth, pageHeight) := canvasConfig aspect in
  let scaleX := (viewWidth / pageWidth)%Q in
  let scaleY := (viewHeight / pageHeight)%Q in
  let s := (Qmin scaleX scaleY * (9 # 10))%Q in
  mkVT s ((viewWidth - pageWidth * s) / 2)%Q ((viewHeight - pageHeight * s) / 2)%Q.

(** ** The pointer handlers ([PanelEditor.tsx]) *)

Inductive Tool : Type :=
| tool_select | tool_panel | tool_text | tool_bubble | tool_draw | tool_pan | tool_arrow.

(** The union [Action]; [A_drawing] is the action called ['drawing']. *)
Inductive Action : Type :=
| A_none
| A_creating (shape : CanvasShape)
| A_panning (startPos : Point) (startVT : ViewTransform)
| A_drawing (shapeId : string) (currentStroke : list Point)
| A_dragging (shapeId : string) (startOffset : Point)
| A_resizing (shapeId : string) (handle : string) (originalShape : CanvasShape)
| A_draggingTail (shapeId : string)
| A_editingPanelVertex (shapeId : string) (vertexIndex : nat)
| A_draggingArrowHandle (shapeId : string) (handleIndex : nat).

(** The component state the handlers touch. *)
Record Editor : Type := mkEditor {
  activeTool : Tool;
  activeBubbleType : BubbleType;
  action : Action;
  selectedShapeId : option string;
  drawingGuideRect : option Rect;
  cursorPreview : option Point;
  brushColor : string;
  brushSize : Q
}.

(** What a handler asks of its parent: the two callbacks of the props. *)
Inductive Call : Type :=
| onShapesChange (newShapes : list CanvasShape) (recordHistory : bool)
| onViewTransformChange (vt : ViewTransform).

Definition set_action (ed : Editor) (a : Action) : Editor :=
  mkEditor (activeTool ed) (activeBubbleType ed) a (selectedShapeId ed)
           (drawingGuideRect ed) (cursorPreview ed) (brushColor ed) (brushSize ed).

Definition set_guide (ed : Editor) (g : option Rect) : Editor :=
  mkEditor (activeTool ed) (activeBubbleType ed) (action ed) (selectedShapeId ed)
           g (cursorPreview ed) (brushColor ed) (brushSize ed).

Definition set_cursor (ed : Editor) (c : option Point) : Editor :=
  mkEditor (activeTool ed) (activeBubbleType ed) (action ed) (selectedShapeId ed)
           (drawingGuideRect ed) c (brushColor ed) (brushSize ed).

Definition set_tool (ed : Editor) (t : Tool) : Editor :=
  mkEditor t (activeBubbleType ed) (action ed) (selectedShapeId ed)
           (drawingGuideRect ed) (cursorPreview ed) (brushColor ed) (brushSize ed).

Definition set_selected (ed : Editor) (s : option string) : Editor :=
  mkEditor (activeTool ed) (activeBubbleType ed) (action ed) s
           (drawingGuideRect ed) (cursorPreview ed) (brushColor ed) (brushSize ed).

(** [shapes.map(s => s.id !== id ? s : f(s))]. *)
Definition mapShape (sid : string) (f : CanvasShape -> CanvasShape)
    (l : list CanvasShape) : list CanvasShape :=
  map (fun s => if String.eqb (s_id s) sid then f s else s) l.

Definition movePoint (dx dy : Q) (p : Point) : Point :=
  mkPoint (px p + dx)%Q (py p + dy)%Q.

(** The [for (const key in pose.data)] loops: the same keys, each point mapped. *)
Definition mapJoints (f : Point -> Point) (d : SkeletonData) : SkeletonData :=
  map (fun kv => (fst kv, f (snd kv))) d.

(** [data[key]]. *)
Fixpoint joint (d : SkeletonData) (key : string) : option Point :=
  match d with
  | [] => None
  | (k, p) :: r => if String.eqb k key then Some p else joint r key
  end.

(** [handle.includes(part)]. *)
Fixpoint includes (part s : string) : bool :=
  String.prefix part s ||
  match s with
  | EmptyString => false
  | String _ r => includes part r
  end.

(** The shape a [creating] move gives to the shape under construction. *)
Definition growCreated (startShape : CanvasShape) (pos : Point) (s : CanvasShape) : CanvasShape :=
  let startX := s_x startShape in
  let startY := s_y startShape in
  let newX := Qmin (px pos) startX in
  let newY := Qmin (py pos) startY in
  let newWidth := Qabs (px pos - startX) in
  let newHeight := Qabs (py pos - startY) in
  match s_kind s with
  | panel _ =>
      mkShape (s_id s) newX newY (Some newWidth) (Some newHeight)
        (panel [ mkPoint newX newY; mkPoint (newX + newWidth) newY;
                 mkPoint (newX + newWidth) (newY + newHeight);
                 mkPoint newX (newY + newHeight) ])
  | _ => with_box s newX newY newWidth newHeight
  end.

(** The new end of an arrow under construction. The cast [(s as ArrowShape)]
    presumes that the shape under the action's id is the arrow. *)
Definition growArrow (pos : Point) (s : CanvasShape) : CanvasShape :=
  match s_kind s with
  | arrow a _ c w => with_kind s (arrow a pos c w)
  | _ => s
  end.

(** The [dragging] case for the shape under the pointer. *)
Definition dragShape (pos startOffset : Point) (s : CanvasShape) : CanvasShape :=
  let newX := (px pos - px startOffset)%Q in
  let newY := (py pos - py startOffset)%Q in
  let dx := (newX - s_x s)%Q in
  let dy := (newY - s_y s)%Q in
  match s_kind s with
  | panel pts =>
      let newPoints := map (movePoint dx dy) pts in
      let b := boxOfPoints newPoints in
      mkShape (s_id s) (r_x b) (r_y b) (Some (r_width b)) (Some (r_height b))
              (panel newPoints)
  | arrow a b c w =>
      mkShape (s_id s) newX newY (s_width s) (s_height s)
              (arrow (movePoint dx dy a) (movePoint dx dy b) c w)
  | drawing strokes c w =>
      mkShape (s_id s) newX newY (s_width s) (s_height s)
              (drawing (map (map (movePoint dx dy)) strokes) c w)
  | bubble bt txt (Some t) =>
      mkShape (s_id s) newX newY (s_width s) (s_height s)
              (bubble bt txt (Some (movePoint dx dy t)))
  | image href cid pidx (Some (SkeletonPose pr d cm)) =>
      mkShape (s_id s) newX newY (s_width s) (s_height s)
              (image href cid pidx (Some (SkeletonPose pr (mapJoints (movePoint dx dy) d) cm)))
  | _ => with_xy s newX newY
  end.

(** The box a [resizing] move computes from the shape recorded at the start
    of the gesture. *)
Definition resizeBox (handle : string) (originalShape : CanvasShape) (pos : Point) : Rect :=
  let ox := s_x originalShape in
  let oy := s_y originalShape in
  let ow := or0 (s_width originalShape) in
  let oh := or0 (s_height originalShape) in
  let width1 := if includes "right" handle then Qmax 20 (px pos - ox) else ow in
  let height1 := if includes "bottom" handle then Qmax 20 (py pos - oy) else oh in
  let '(x2, width2) :=
    if includes "left" handle then
      let newWidth := Qmax 20 ((ox + ow) - px pos) in
      (((ox + ow) - newWidth)%Q, newWidth)
    else (ox, width1) in
  let '(y2, height2) :=
    if includes "top" handle then
      let newHeight := Qmax 20 ((oy + oh) - py pos) in
      (((oy + oh) - newHeight)%Q, newHeight)
    else (oy, height1) in
  mkRect x2 y2 width2 height2.

(** The joint of the recorded skeleton carried into the resized box. *)
Definition rescaleJoint (originalShape : CanvasShape) (b : Rect) (originalPoint : Point) : Point :=
  let scaleX := (r_width b / or0 (s_width originalShape))%Q in
  let scaleY := (r_height b / or0 (s_height originalShape))%Q in
  let relativeX := (px originalPoint - s_x originalShape)%Q in
  let relativeY := (py originalPoint - s_y originalShape)%Q in
  mkPoint (r_x b + relativeX * scaleX)%Q (r_y b + relativeY * scaleY)%Q.

Definition Qpositive (q : Q) : bool := if Qlt_le_dec 0 q then true else false.

Definition resizeShape (handle : string) (originalShape : CanvasShape) (pos : Point)
    (s : CanvasShape) : CanvasShape :=
  let b := resizeBox handle originalShape pos in
  let updatedShape := with_box s (r_x b) (r_y b) (r_width b) (r_height b) in
  match s_kind updatedShape, s_kind originalShape with
  | image href cid pidx (Some (SkeletonPose pr _ cm)),
    image _ _ _ (Some (SkeletonPose _ originalSkeletonData _)) =>
      if Qpositive (or0 (s_width originalShape)) && Qpositive (or0 (s_height originalShape))
      then with_kind updatedShape
             (image href cid pidx
                (Some (SkeletonPose pr (mapJoints (rescaleJoint originalShape b)
                                                  originalSkeletonData) cm)))
      else updatedShape
  | _, _ => updatedShape
  end.

(** The last stroke replaced: [pointsCopy[pointsCopy.length - 1] = stroke]
    (on an empty array the index is [-1], which adds no element). *)
Definition setLastStroke (strokes : list (list Point)) (stroke : list Point)
    : list (list Point) :=
  match strokes with
  | [] => []
  | _ => <[length strokes - 1 := stroke]> strokes
  end.

Definition isDrawOrArrow (t : Tool) : bool :=
  match t with tool_draw | tool_arrow => true | _ => false end.

(** [handleMouseMove]: [pos] is [getMousePos(e)], [client] is
    [(e.clientX, e.clientY)]. The result is the new component state and the
    callbacks made. *)
Definition handleMouseMove (shapes : list CanvasShape) (ed0 : Editor)
    (pos client : Point) : Editor * list Call :=
  let ed := set_cursor ed0 (if isDrawOrArrow (activeTool ed0) then Some pos else None) in
  match action ed with
  | A_none => (ed, [])
  | A_panning startPos startVT =>
      let dx := (px client - px startPos)%Q in
      let dy := (py client - py startPos)%Q in
      (ed, [onViewTransformChange
              (mkVT (scale startVT) (vt_x startVT + dx)%Q (vt_y startVT + dy)%Q)])
  | A_creating shape =>
      let ed1 :=
        if is_type Tpanel shape then
          set_guide ed (Some (mkRect (Qmin (px pos) (s_x shape)) (Qmin (py pos) (s_y shape))
                                     (Qabs (px pos - s_x shape)) (Qabs (py pos - s_y shape))))
        else ed in
      if is_type Tarrow shape then
        (ed1, [onShapesChange (mapShape (s_id shape) (growArrow pos) shapes) false])
      else
        (ed1, [onShapesChange (mapShape (s_id shape) (growCreated shape pos) shapes) false])
  | A_drawing shapeId currentStroke =>
      let newCurrentStroke := currentStroke ++ [pos] in
      let newShapes :=
        mapShape shapeId
          (fun s => match s_kind s with
                    | drawing strokes c w =>
                        with_kind s (drawing (setLastStroke strokes newCurrentStroke) c w)
                    | _ => s
                    end) shapes in
      (set_action ed (A_drawing shapeId newCurrentStroke), [onShapesChange newShapes false])
  | A_dragging shapeId startOffset =>
      (ed, [onShapesChange (mapShape shapeId (dragShape pos startOffset) shapes) false])
  | A_draggingTail shapeId =>
      (ed, [onShapesChange
              (mapShape shapeId
                 (fun s => match s_kind s with
                           | bubble bt txt _ => with_kind s (bubble bt txt (Some pos))
                           | _ => s
                           end) shapes) false])
  | A_editingPanelVertex shapeId vertexIndex =>
      (ed, [onShapesChange
              (mapShape shapeId
                 (fun s => match s_kind s with
                           | panel pts =>
                               with_kind s (panel (array_set (mkPoint 0 0) pts vertexIndex pos))
                           | _ => s
                           end) shapes) false])
  | A_draggingArrowHandle shapeId handleIndex =>
      (ed, [onShapesChange
              (mapShape shapeId
                 (fun s => match s_kind s with
                           | arrow a b c w =>
                               if (handleIndex =? 0)%nat then with_kind s (arrow pos b c w)
                               else with_kind s (arrow a pos c w)
                           | _ => s
                           end) shapes) false])
  | A_resizing shapeId handle originalShape =>
      (ed, [onShapesChange (mapShape shapeId (resizeShape handle originalShape pos) shapes) false])
  end.

(** The id that [handleMouseUp] looks for: [action.shapeId] or [action.shape.id]. *)
Definition actionTargetId (a : Action) : option string :=
  match a with
  | A_none | A_panning _ _ => None
  | A_creating shape => Some (s_id shape)
  | A_drawing i _ | A_dragging i _ | A_resizing i _ _ | A_draggingTail i
  | A_editingPanelVertex i _ | A_draggingArrowHandle i _ => Some i
  end.

Definition Qlt_bool (a b : Q) : bool := if Qlt_le_dec a b then true else false.

(** The test of [handleMouseUp] on the shape found: a bubble or a panel whose
    stored width or height is under 10. *)
(** [shape.width < 10]: an absent field compares false. *)
Definition field_lt (o : option Q) (q : Q) : bool :=
  match o with
  | Some w => Qlt_bool w q
  | None => false
  end.

Definition tooSmall (shape : CanvasShape) : bool :=
  (is_type Tbubble shape || is_type Tpanel shape)
  && (field_lt (s_width shape) 10 || field_lt (s_height shape) 10).

(** The list that [handleMouseUp] commits when the action has target [sid]. *)
Definition committedShapes (shapes : list CanvasShape) (sid : string) : list CanvasShape :=
  match List.find (fun s => String.eqb (s_id s) sid) shapes with
  | Some shape =>
      if tooSmall shape
      then List.filter (fun s => negb (String.eqb (s_id s) (s_id shape))) shapes
      else shapes
  | None => shapes
  end.

Definition handleMouseUp (shapes : list CanvasShape) (ed0 : Editor) : Editor * list Call :=
  let ed1 := set_guide ed0 None in
  let ed2 :=
    match action ed1 with
    | A_creating shape =>
        if is_type Tpanel shape || is_type Tbubble shape || is_type Tarrow shape
        then set_selected (set_tool ed1 tool_select) (Some (s_id shape))
        else ed1
    | _ => ed1
    end in
  let calls :=
    match actionTargetId (action ed2) with
    | Some sid => [onShapesChange (committedShapes shapes sid) true]
    | None => []
    end in
  (set_action ed2 A_none, calls).

(** [handleAddPanelVertex]: a vertex at the middle of edge [edgeIndex] of the
    panel [shape], committed at once, and the new vertex goes on being dragged. *)
Definition insertMidpoint (pts : list Point) (edgeIndex : nat) : list Point :=
  let p1 := pointAt pts edgeIndex in
  let p2 := pointAt pts ((edgeIndex + 1) mod length pts) in
  let newPoint := mkPoint ((px p1 + px p2) / 2)%Q ((py p1 + py p2) / 2)%Q in
  take (edgeIndex + 1) pts ++ newPoint :: drop (edgeIndex + 1) pts.

Definition handleAddPanelVertex (shapes : list CanvasShape) (ed : Editor)
    (shape : CanvasShape) (edgeIndex : nat) : Editor * list Call :=
  match activeTool ed, s_kind shape with
  | tool_select, panel pts =>
      let newPoints := insertMidpoint pts edgeIndex in
      (set_action ed (A_editingPanelVertex (s_id shape) (edgeIndex + 1)),
       [onShapesChange
          (mapShape (s_id shape)
             (fun s => match s_kind s with
                       | panel _ => with_kind s (panel newPoints)
                       | _ => s
                       end) shapes) true])
  | _, _ => (ed, [])
  end.

(** [handleMouseDown] on the SVG element. [onBackground] says that the target
    is the SVG element itself (the grey area), [spacePressed] is
    [isSpacePressed.current], [now] is [Date.now().toString()]. The inline
    text editor that the text tool opens is not part of the model. *)
Definition handleMouseDown (shapes : list CanvasShape) (vt : ViewTransform) (ed : Editor)
    (leftButton onBackground spacePressed : bool) (pos client : Point) (now : string)
    : Editor * list Call :=
  if negb leftButton then (ed, []) else
  if onBackground then (set_action ed (A_panning client vt), []) else
  if spacePressed || match activeTool ed with tool_pan => true | _ => false end
  then (set_action ed (A_panning client vt), []) else
  let ed1 := set_selected ed None in
  match activeTool ed1 with
  | tool_panel =>
      let newShape := mkShape now (px pos) (py pos) (Some 0%Q) (Some 0%Q) (panel []) in
      (set_action (set_guide ed1 (Some (mkRect (px pos) (py pos) 0 0))) (A_creating newShape),
       [onShapesChange (shapes ++ [newShape]) false])
  | tool_text =>
      let newShape := mkShape now (px pos) (py pos - 20)%Q (Some 200%Q) (Some 40%Q)
                              (text "Enter Text" 30) in
      (set_selected (set_tool ed1 tool_select) (Some now),
       [onShapesChange (shapes ++ [newShape]) true])
  | tool_bubble =>
      let newShape := mkShape now (px pos) (py pos) (Some 0%Q) (Some 0%Q)
                              (bubble (activeBubbleType ed1) "Double-click to edit" None) in
      (set_action ed1 (A_creating newShape), [onShapesChange (shapes ++ [newShape]) false])
  | tool_draw =>
      let newStroke := [pos] in
      let newShape := mkShape now (px pos) (py pos) None None
                              (drawing [newStroke] (brushColor ed1) (brushSize ed1)) in
      (set_action ed1 (A_drawing now newStroke), [onShapesChange (shapes ++ [newShape]) false])
  | tool_arrow =>
      let newShape := mkShape now (px pos) (py pos) None None
                              (arrow pos pos "#FF0000" (brushSize ed1)) in
      (set_action ed1 (A_creating newShape), [onShapesChange (shapes ++ [newShape]) false])
  | _ => (ed1, [])
  end.

(** The parts of a shape that take a pointer-down of their own. *)
Inductive Interaction : Type :=
| I_shape
| I_resize (handle : string)
| I_tail
| I_panelVertex (index : nat)
| I_arrowHandle (index : nat).

(** The corner handles drawn on a selected bubble or image; a selected text
    has the last one only. *)
Definition resizeHandles : list string :=
  ["top-left"; "top-right"; "bottom-left"; "bottom-right"].

Definition handleShapeInteraction (vt : ViewTransform) (ed : Editor)
    (leftButton spacePressed : bool) (pos client : Point)
    (shape : CanvasShape) (type : Interaction) : Editor :=
  match activeTool ed with
  | tool_select | tool_pan =>
      if negb leftButton then ed else
      if match activeTool ed with tool_pan => true | _ => false end || spacePressed
      then set_action ed (A_panning client vt) else
      let ed1 := set_selected ed (Some (s_id shape)) in
      let bbox := getShapeBBox shape in
      match type, s_type shape with
      | I_shape, _ =>
          set_action ed1 (A_dragging (s_id shape)
                            (mkPoint (px pos - r_x bbox)%Q (py pos - r_y bbox)%Q))
      | I_resize handle, (Tbubble | Timage | Ttext) =>
          set_action ed1 (A_resizing (s_id shape) handle shape)
      | I_tail, Tbubble => set_action ed1 (A_draggingTail (s_id shape))
      | I_panelVertex i, Tpanel => set_action ed1 (A_editingPanelVertex (s_id shape) i)
      | I_arrowHandle i, Tarrow => set_action ed1 (A_draggingArrowHandle (s_id shape) i)
      | _, _ => ed1
      end
  | _ => ed
  end.

(** ** The order on screen *)

Definition shapeOrder (t : ShapeType) : Z :=
  match t with
  | Tpanel => 10
  | Tdrawing => 20
  | Tarrow => 25
  | Timage => 30
  | Tbubble => 40
  | Ttext => 50
  end.

(** [Array.prototype.sort] is stable: an element goes before the first one
    that the comparator does not put before it. *)
Fixpoint sortInsert {A : Type} (cmp : A -> A -> Z) (a : A) (l : list A) : list A :=
  match l with
  | [] => [a]
  | b :: r => if (cmp a b <=? 0)%Z then a :: b :: r else b :: sortInsert cmp a r
  end.

Definition stableSort {A : Type} (cmp : A -> A -> Z) (l : list A) : list A :=
  foldr (sortInsert cmp) [] l.

Definition sortedShapes (shapes : list CanvasShape) : list CanvasShape :=
  stableSort (fun a b => (shapeOrder (s_type a) - shapeOrder (s_type b))%Z) shapes.

(** ** The compositor: [getLayoutAsImage] *)

(** The [d] attribute of a path, command by command. *)
Inductive PathCmd : Type :=
| MoveTo (p : Point)
| LineTo (p : Point)
| QuadTo (control p : Point)
| ArcRel (rx ry : Q) (dx dy : Q)
| ClosePath.

(** The elements appended to the content group, with the attributes that
    depend on the scene; constant presentation attributes are left out. *)
Inductive SvgElement : Type :=
| El_polygon (points : list Point)
| El_text (x y fontSize : Q) (textAnchor content : string)
| El_line (a b : Point)
| El_circle (c : Point) (r : Q) (fill : string)
| El_image (href : string) (x y w h : Q)
| El_path (d : list PathCmd) (stroke : string)
| El_foreignObject (x y w h : Q) (content : string).

Record Character : Type := mkCharacter { c_id : string; c_name : string }.

(** The props of the editor that the compositor has in scope. *)
Record Props : Type := mkProps {
  props_shapes : list CanvasShape;
  props_aspectRatio : string;
  props_viewTransform : ViewTransform
}.

(** The result: the temporary SVG (size, view box, content) and the canvas it
    is painted on. *)
Record LayoutImage : Type := mkLayoutImage {
  svgWidth : Q;
  svgHeight : Q;
  viewBox : Q * Q * Q * Q;
  contentGroup : list SvgElement;
  canvasWidth : Q;
  canvasHeight : Q
}.

Definition skeletonConnections : list (string * string) :=
  [ ("head", "neck"); ("neck", "leftShoulder"); ("neck", "rightShoulder");
    ("leftShoulder", "leftElbow"); ("leftElbow", "leftHand");
    ("rightShoulder", "rightElbow"); ("rightElbow", "rightHand");
    ("neck", "hips");
    ("hips", "leftHip"); ("hips", "rightHip");
    ("leftHip", "leftKnee"); ("leftKnee", "leftFoot");
    ("rightHip", "rightKnee"); ("rightKnee", "rightFoot");
    ("leftEye", "rightEye");
    ("nose", "mouth") ].

(** [stroke.map((p, i) => (i === 0 ? 'M' : 'L') + ...)], stroke after stroke. *)
Definition strokesPath (strokes : list (list Point)) : list PathCmd :=
  concat (map (imap (fun i p => if (i =? 0)%nat then MoveTo p else LineTo p)) strokes).

Section Compositor.

(** The floating-point functions of [Math] that [getBubblePath] calls. *)
Variable Math_atan2 : Q -> Q -> Q.
Variables Math_cos Math_sin Math_tan Math_sqrt : Q -> Q.
Variable Math_PI : Q.

Definition bubbleBody (bt : BubbleType) (x y width height : Q) : list PathCmd :=
  match bt with
  | oval =>
      let rx := (width / 2)%Q in
      let ry := (height / 2)%Q in
      let cx := (x + rx)%Q in
      let cy := (y + ry)%Q in
      [ MoveTo (mkPoint (cx - rx) cy); ArcRel rx ry width 0; ArcRel rx ry (- width) 0 ]
  | _ =>
      let cornerRadius :=
        match bt with
        | rounded => Qmin (Qmin 20 (width / 2)) (height / 2)
        | _ => 0%Q
        end in
      [ MoveTo (mkPoint (x + cornerRadius) y);
        LineTo (mkPoint (x + width - cornerRadius) y);
        QuadTo (mkPoint (x + width) y) (mkPoint (x + width) (y + cornerRadius));
        LineTo (mkPoint (x + width) (y + height - cornerRadius));
        QuadTo (mkPoint (x + width) (y + height)) (mkPoint (x + width - cornerRadius) (y + height));
        LineTo (mkPoint (x + cornerRadius) (y + height));
        QuadTo (mkPoint x (y + height)) (mkPoint x (y + height - cornerRadius));
        LineTo (mkPoint x (y + cornerRadius));
        QuadTo (mkPoint x y) (mkPoint (x + cornerRadius) y);
        ClosePath ]
  end.

(** [Math.min(tX, tY)] where either may be [Infinity] ([None]); both are
    infinite for no angle. *)
Definition minT (tX tY : option Q) : Q :=
  match tX, tY with
  | Some a, Some b => Qmin a b
  | Some a, None => a
  | None, Some b => b
  | None, None => 0%Q
  end.

Definition getBubblePath (bt : BubbleType) (x y width height : Q) (tail : option Point)
    : list PathCmd :=
  let bodyPath := bubbleBody bt x y width height in
  match tail with
  | None => bodyPath
  | Some tl =>
      let centerX := (x + width / 2)%Q in
      let centerY := (y + height / 2)%Q in
      let dx := (px tl - centerX)%Q in
      let dy := (py tl - centerY)%Q in
      if Qeq_bool dx 0 && Qeq_bool dy 0 then bodyPath else
      let angle := Math_atan2 dy dx in
      let cosAngle := Math_cos angle in
      let sinAngle := Math_sin angle in
      let '(intersectX, intersectY) :=
        match bt with
        | oval =>
            let rx := (width / 2)%Q in
            let ry := (height / 2)%Q in
            let tanAngle := Math_tan angle in
            let side := if Qlt_bool (Qabs angle) (Math_PI / 2) then 1%Q else (-1)%Q in
            let root := Math_sqrt (ry * ry + rx * rx * tanAngle * tanAngle) in
            ((centerX + rx * ry / root * side)%Q,
             (centerY + rx * ry * tanAngle / root * side)%Q)
        | _ =>
            let tX := if Qlt_bool epsilon (Qabs cosAngle)
                      then Some ((width / 2) / Qabs cosAngle)%Q else None in
            let tY := if Qlt_bool epsilon (Qabs sinAngle)
                      then Some ((height / 2) / Qabs sinAngle)%Q else None in
            let t := minT tX tY in
            ((centerX + t * cosAngle)%Q, (centerY + t * sinAngle)%Q)
        end in
      let tailWidth := (Qmin width height * (15 # 100))%Q in
      let p1 := mkPoint (intersectX - Math_sin angle * tailWidth * (1 # 2))%Q
                        (intersectY + Math_cos angle * tailWidth * (1 # 2))%Q in
      let p2 := mkPoint (intersectX + Math_sin angle * tailWidth * (1 # 2))%Q
                        (intersectY - Math_cos angle * tailWidth * (1 # 2))%Q in
      bodyPath ++ [ MoveTo p1; LineTo tl; LineTo p2; ClosePath ]
  end.

(** What the first [forEach] appends for the panel of rank [index]. *)
Definition drawPanel (index : nat) (shape : CanvasShape) : list SvgElement :=
  match s_kind shape with
  | panel pts =>
      let centroid := getPolygonCentroid pts in
      [ El_polygon pts;
        El_text (px centroid) (py centroid) 60 "middle" (pretty (index + 1)%nat) ]
  | _ => []
  end.

Definition drawPose (x y width height : Q) (pose : option Pose) : list SvgElement :=
  match pose with
  | None => []
  | Some (SkeletonPose _ data _) =>
      concat (map (fun c => match joint data (fst c), joint data (snd c) with
                            | Some a, Some b => [El_line a b]
                            | _, _ => []
                            end) skeletonConnections)
      ++ map (fun kv => El_circle (snd kv) 6
                          (if String.eqb (fst kv) "head" then "#FF4500" else "#FF00FF")) data
  | Some (ImagePose href) => [El_image href x y width height]
  | Some (DrawingPose points) =>
      let transformedPoints :=
        map (map (fun p => mkPoint (x + px p * width)%Q (y + py p * height)%Q)) points in
      [El_path (strokesPath transformedPoints) "red"]
  end.

Definition isEmptyString (s : string) : bool :=
  match s with EmptyString => true | _ => false end.

(** What the second [forEach] appends for an image shape. *)
Definition drawImage (charactersToDraw : list Character) (shape : CanvasShape)
    : list SvgElement :=
  match s_kind shape with
  | image _ characterId _ pose =>
      let bbox := getShapeBBox shape in
      drawPose (s_x shape) (s_y shape) (or0 (s_width shape)) (or0 (s_height shape)) pose
      ++ match List.find (fun c => String.eqb (c_id c) characterId) charactersToDraw with
         | Some character =>
             [El_text (r_x bbox + r_width bbox / 2)%Q (r_y bbox + r_height bbox / 2)%Q
                      20 "middle" (c_name character)]
         | None => []
         end
      ++ match pose with
         | Some (SkeletonPose _ _ comment) =>
             if isEmptyString comment then [] else
             [El_text (r_x bbox + r_width bbox / 2)%Q (r_y bbox + r_height bbox + 20)%Q
                      18 "middle" ("(" +:+ comment +:+ ")")]
         | _ => []
         end
  | _ => []
  end.

Definition drawBubble (shape : CanvasShape) : list SvgElement :=
  match s_kind shape with
  | bubble bt txt tail =>
      let w := or0 (s_width shape) in
      let h := or0 (s_height shape) in
      [ El_path (getBubblePath bt (s_x shape) (s_y shape) w h tail) "black";
        El_foreignObject (s_x shape + 10)%Q (s_y shape + 10)%Q (w - 20)%Q (h - 20)%Q txt ]
  | _ => []
  end.

Definition drawText (shape : CanvasShape) : list SvgElement :=
  match s_kind shape with
  | text txt fontSize => [El_text (s_x shape) (s_y shape) fontSize "start" txt]
  | _ => []
  end.

(** [getLayoutAsImage], on the path where the SVG element, the 2D context
    and the image load are all there. *)
Definition getLayoutAsImage (props : Props) (includeCharacters : bool)
    (charactersToDraw : list Character) : LayoutImage :=
  let shapes := props_shapes props in
  let '(w, h) := canvasConfig (props_aspectRatio props) in
  let panels := concat (imap drawPanel (List.filter (is_type Tpanel) shapes)) in
  let characters :=
    if includeCharacters
    then concat (map (drawImage charactersToDraw) (List.filter (is_type Timage) shapes))
    else [] in
  let bubbles := concat (map drawBubble (List.filter (is_type Tbubble) shapes)) in
  let texts := concat (map drawText (List.filter (is_type Ttext) shapes)) in
  mkLayoutImage w h (0%Q, 0%Q, w, h) (panels ++ characters ++ bubbles ++ texts) w h.

End Compositor.

(** ** Notions used in the statements *)

(** The live list is the snapshot under the index. Commits, undo and redo
    establish it; [handleDeleteCharacter] and [handleApplyLayout], which write
    [shapes] alone, do not keep it. *)
Definition synced (p : Page) : Prop :=
  shapesHistory p !! shapesHistoryIndex p = Some (shapes p).

(** [q] differs from [p] at most in the live list and the index. *)
Definition same_frame (q p : Page) : Prop :=
  p_id q = p_id p /\ shapesHistory q = shapesHistory p /\
  sceneDescription q = sceneDescription p /\ aspectRatio q = aspectRatio p /\
  viewTransform q = viewTransform p.

(** A text shape as the text tool makes it. *)
Definition sampleText (sid : string) : CanvasShape :=
  mkShape sid 10 20 (Some 200%Q) (Some 40%Q) (text "Enter Text" 30).

(** ** The editor wired to the current page ([App.tsx]) *)

(** The pointer events on the SVG element. *)
Inductive PointerEvent : Type :=
| MouseDown (leftButton onBackground spacePressed : bool) (pos client : Point) (now : string)
| MouseMove (pos client : Point)
| MouseUp.

Section App.

Variable existingPanels : string -> nat -> string.
Variable trim : string -> string.
Variable currentPageId : string.

(** [handleViewTransformChange], on one page. *)
Definition viewTransformChangePage (vt : ViewTransform) (p : Page) : Page :=
  if negb (String.eqb (p_id p) currentPageId) then p else
  mkPage (p_id p) (shapes p) (shapesHistory p) (shapesHistoryIndex p)
         (sceneDescription p) (aspectRatio p) vt.

Definition applyCall (p : Page) (c : Call) : Page :=
  match c with
  | onShapesChange newShapes recordHistory =>
      shapesChangePage existingPanels trim currentPageId newShapes recordHistory p
  | onViewTransformChange vt => viewTransformChangePage vt p
  end.

(** One event: the handler runs on the props of the current page
    ([shapes = currentPage.shapes]) and its callbacks update that page. *)
Definition step (st : Page * Editor) (e : PointerEvent) : Page * Editor :=
  let '(p, ed) := st in
  let '(ed', calls) :=
    match e with
    | MouseDown leftButton onBackground spacePressed pos client now =>
        handleMouseDown (shapes p) (viewTransform p) ed
                        leftButton onBackground spacePressed pos client now
    | MouseMove pos client => handleMouseMove (shapes p) ed pos client
    | MouseUp => handleMouseUp (shapes p) ed
    end in
  (foldl applyCall p calls, ed').

End App.

(** The actions whose moves edit the shape list. *)
Definition editsShapes (a : Action) : bool :=
  match a with
  | A_none | A_panning _ _ => false
  | _ => true
  end.

(** A page with a redo tail: two commits, then two undos. *)
Definition pageWithRedoTail : Page :=
  let ex := fun (_ : string) (_ : nat) => "" in
  let tr := fun s : string => s in
  undoPage "1" (undoPage "1"
    (commit ex tr "1" (commit ex tr "1" (initialPage "1") [sampleText "a"])
            [sampleText "a"; sampleText "b"])).

(** [a] comes before [b] in the sequence [l]: in a drawing order, [b] is
    painted after [a], hence over it. *)
Definition precedes {A : Type} (l : list A) (a b : A) : Prop :=
  exists l1 l2 l3, l = l1 ++ a :: l2 ++ b :: l3.

(** The shapes of [l] kind by kind, in the order of [shapeOrder]. *)
Definition byKind (l : list CanvasShape) : list CanvasShape :=
  List.filter (is_type Tpanel) l ++ List.filter (is_type Tdrawing) l ++
  List.filter (is_type Tarrow) l ++ List.filter (is_type Timage) l ++
  List.filter (is_type Tbubble) l ++ List.filter (is_type Ttext) l.

(** A square panel of side 100 at the origin. *)
Definition samplePanel (sid : string) : CanvasShape :=
  mkShape sid 0 0 (Some 100%Q) (Some 100%Q)
          (panel [mkPoint 0 0; mkPoint 100 0; mkPoint 100 100; mkPoint 0 100]).

Definition sampleArrow (sid : string) : CanvasShape :=
  mkShape sid 5 5 None None (arrow (mkPoint 5 5) (mkPoint 50 60) "#FF0000" 5).

Definition sampleDrawing (sid : string) : CanvasShape :=
  mkShape sid 1 1 None None
          (drawing [[mkPoint 1 1; mkPoint 2 3; mkPoint 4 4]] "#000000" 5).

(** The trigonometric functions are irrelevant to the examples. *)
Definition noTrig1 (_ : Q) : Q := 0%Q.
Definition noTrig2 (_ _ : Q) : Q := 0%Q.

Definition layoutOf (shapes : list CanvasShape) (vt : ViewTransform)
    (includeCharacters : bool) (chars : list Character) : LayoutImage :=
  getLayoutAsImage noTrig2 noTrig1 noTrig1 noTrig1 noTrig1 3
                   (mkProps shapes "A4" vt) includeCharacters chars.

(** The shapes that the compositor looks at. *)
Definition composited (s : CanvasShape) : bool :=
  negb (is_type Tdrawing s || is_type Tarrow s).

Definition set_viewTransform (props : Props) (vt : ViewTransform) : Props :=
  mkProps (props_shapes props) (props_aspectRatio props) vt.

Definition set_shapes (props : Props) (l : list CanvasShape) : Props :=
  mkProps l (props_aspectRatio props) (props_viewTransform props).

(** The tail target is the centre of the bubble. *)
Definition tailAtCentre (x y width height : Q) (tl : Point) : bool :=
  Qeq_bool (px tl - (x + width / 2)) 0 && Qeq_bool (py tl - (y + height / 2)) 0.

(** An image shape of 300 by 500 at the origin, with two joints of a skeleton. *)
Definition sampleImage (sid : string) : CanvasShape :=
  mkShape sid 0 0 (Some 300%Q) (Some 500%Q)
          (image "data:" "hero" 0
                 (Some (SkeletonPose full [("head", mkPoint 150 75); ("neck", mkPoint 150 150)] ""))).

Definition sampleBubble (sid : string) (w h : Q) : CanvasShape :=
  mkShape sid 40 40 (Some w) (Some h) (bubble rounded "Double-click to edit" None).

Definition sampleEditor (a : Action) : Editor :=
  mkEditor tool_select rounded a None None None "#000000" 5.

(** ** The centroid formula and tight boxes, as the specification words them *)

Definition cross (p q : Point) : Q := (px p * py q - px q * py p)%Q.

(** The pairs of neighbours of a list. *)
Fixpoint adjacent {A : Type} (l : list A) : list (A * A) :=
  match l with
  | a :: (b :: _) as r => (a, b) :: adjacent r
  | _ => []
  end.

(** The edges of the closed polygon: each vertex with the next one, the last
    with the first. *)
Definition edgesOf (pts : list Point) : list (Point * Point) :=
  adjacent (pts ++ take 1 pts).

Definition sumQ (l : list Q) : Q := foldr Qplus 0%Q l.

Definition signedArea (pts : list Point) : Q :=
  (sumQ (map (fun e => cross (fst e) (snd e)) (edgesOf pts)) / 2)%Q.

(** The centroid weighted by the signed area:
    [Cx = sum (x_i + x_j) * cross_ij / (6 A)], and likewise [Cy]. *)
Definition centroidFormula (pts : list Point) : Point :=
  mkPoint
    (sumQ (map (fun e => (px (fst e) + px (snd e)) * cross (fst e) (snd e)) (edgesOf pts))
     / (6 * signedArea pts))%Q
    (sumQ (map (fun e => (py (fst e) + py (snd e)) * cross (fst e) (snd e)) (edgesOf pts))
     / (6 * signedArea pts))%Q.

(** One turn of the loop, on an edge. *)
Definition edgeStep (acc : Q * Q * Q) (e : Point * Point) : Q * Q * Q :=
  let '(area, cx, cy) := acc in
  let '(p1, p2) := e in
  let crossProduct := (px p1 * py p2 - px p2 * py p1)%Q in
  ((area + crossProduct)%Q,
   (cx + (px p1 + px p2) * crossProduct)%Q,
   (cy + (py p1 + py p2) * crossProduct)%Q).

Definition isLeast (m : Q) (xs : list Q) : Prop :=
  (exists x, In x xs /\ (x == m)%Q) /\ forall x, In x xs -> (m <= x)%Q.

Definition isGreatest (m : Q) (xs : list Q) : Prop :=
  (exists x, In x xs /\ (x == m)%Q) /\ forall x, In x xs -> (x <= m)%Q.

(** [b] is the tight bounding box of the points [pts]. *)
Definition tightBox (b : Rect) (pts : list Point) : Prop :=
  isLeast (r_x b) (map px pts) /\ isLeast (r_y b) (map py pts) /\
  isGreatest (r_x b + r_width b) (map px pts) /\
  isGreatest (r_y b + r_height b) (map py pts).

(** The fields [{x, y, width, height}] stored in a shape, when all are there. *)
Definition storedBox (s : CanvasShape) : option Rect :=
  match s_width s, s_height s with
  | Some w, Some h => Some (mkRect (s_x s) (s_y s) w h)
  | _, _ => None
  end.

(** The points of the line through [o] with direction [d], at the parameters [ts]. *)
Definition onLine (o d : Point) (ts : list Q) : list Point :=
  map (fun t => mkPoint (px o + t * px d) (py o + t * py d)) ts.

Definition square10 : list Point :=
  [mkPoint 0 0; mkPoint 10 0; mkPoint 10 10; mkPoint 0 10].

(** The index points into the history: true of [initialPage] and kept by
    every handler of the page. *)
Definition indexInHistory (p : Page) : Prop :=
  shapesHistoryIndex p < length (shapesHistory p).

(** The editor with a creation tool in hand and no gesture going on. *)
Definition editorWith (t : Tool) : Editor :=
  mkEditor t rounded A_none None None None "#000000" 5.

(** A press at [from], a move to [to] and a release, on the page ["1"]. *)
Definition pressDragRelease (p : Page) (ed : Editor) (from to : Point) (now : string)
    : Page * Editor :=
  foldl (step (fun _ _ => "") (fun s => s) "1") (p, ed)
        [MouseDown true false false from from now; MouseMove to to; MouseUp].

(** ** More of the editor ([PanelEditor.tsx]) *)

(** [createInitialSkeleton]: the humanoid rig at fixed proportions of the box. *)
Definition createInitialSkeleton (x y width height : Q) : SkeletonData :=
  let centerX := (x + width / 2)%Q in
  let topY := (y + height * (15 # 100))%Q in
  let hipY := (y + height * (5 # 10))%Q in
  let armY := (y + height * (3 # 10))%Q in
  let legY := (y + height * (9 # 10))%Q in
  let shoulderWidth := (width * (2 # 10))%Q in
  let hipWidth := (width * (15 # 100))%Q in
  let eyeY := (topY - height * (3 # 100))%Q in
  let eyeDistX := (width * (7 # 100))%Q in
  let noseY := topY in
  let mouthY := (topY + height * (5 # 100))%Q in
  [ ("head", mkPoint centerX topY);
    ("neck", mkPoint centerX armY);
    ("leftShoulder", mkPoint (centerX - shoulderWidth) armY);
    ("rightShoulder", mkPoint (centerX + shoulderWidth) armY);
    ("leftElbow", mkPoint (centerX - shoulderWidth * (15 # 10)) hipY);
    ("rightElbow", mkPoint (centerX + shoulderWidth * (15 # 10)) hipY);
    ("leftHand", mkPoint (centerX - shoulderWidth * (12 # 10)) (legY - height * (1 # 10)));
    ("rightHand", mkPoint (centerX + shoulderWidth * (12 # 10)) (legY - height * (1 # 10)));
    ("hips", mkPoint centerX hipY);
    ("leftHip", mkPoint (centerX - hipWidth) hipY);
    ("rightHip", mkPoint (centerX + hipWidth) hipY);
    ("leftKnee", mkPoint (centerX - hipWidth) (hipY + height * (2 # 10)));
    ("rightKnee", mkPoint (centerX + hipWidth) (hipY + height * (2 # 10)));
    ("leftFoot", mkPoint (centerX - hipWidth) legY);
    ("rightFoot", mkPoint (centerX + hipWidth) legY);
    ("leftEye", mkPoint (centerX - eyeDistX) eyeY);
    ("rightEye", mkPoint (centerX + eyeDistX) eyeY);
    ("nose", mkPoint centerX noseY);
    ("mouth", mkPoint centerX mouthY) ]%Q.

(** [deleteShape] and [clearCanvas]: the list they commit. *)
Definition deleteShape (shapes : list CanvasShape) (sid : string) : Call :=
  onShapesChange (List.filter (fun s => negb (String.eqb (s_id s) sid)) shapes) true.

Definition clearCanvas : Call := onShapesChange [] true.

(** [addBubbleTail] and [removeBubbleTail]. *)
Definition addBubbleTail (shapes : list CanvasShape) (shapeId : string) : Call :=
  onShapesChange
    (map (fun s =>
            match s_kind s with
            | bubble bt txt _ =>
                if String.eqb (s_id s) shapeId then
                  let bbox := getShapeBBox s in
                  with_kind s (bubble bt txt
                                 (Some (mkPoint (r_x bbox + r_width bbox / 2)%Q
                                                (r_y bbox + r_height bbox + 30)%Q)))
                else s
            | _ => s
            end) shapes) true.

Definition removeBubbleTail (shapes : list CanvasShape) (shapeId : string) : Call :=
  onShapesChange
    (map (fun s =>
            match s_kind s with
            | bubble bt txt _ =>
                if String.eqb (s_id s) shapeId then with_kind s (bubble bt txt None) else s
            | _ => s
            end) shapes) true.

(** [changeFontSize]. *)
Definition changeFontSize (shapes : list CanvasShape) (shapeId : string) (amount : Q) : Call :=
  onShapesChange
    (map (fun s =>
            match s_kind s with
            | text txt fontSize =>
                if String.eqb (s_id s) shapeId
                then with_kind s (text txt (Qmax 8 (fontSize + amount)))
                else s
            | _ => s
            end) shapes) true.

(** [savePose]: a skeleton comes in the frame of the pose editor, a box of
    200 by 400 at the origin, and is carried into the box of the image. *)
Definition fromModal (originalShape : CanvasShape) (modalPoint : Point) : Point :=
  mkPoint (s_x originalShape + (px modalPoint - 0) / 200 * or0 (s_width originalShape))%Q
          (s_y originalShape + (py modalPoint - 0) / 400 * or0 (s_height originalShape))%Q.

Definition savePose (shapes : list CanvasShape) (characterId : string) (pose : Pose) : Call :=
  onShapesChange
    (map (fun s =>
            match s_kind s with
            | image href cid pidx _ =>
                if String.eqb (s_id s) characterId then
                  match pose with
                  | SkeletonPose pr data cm =>
                      with_kind s (image href cid pidx
                                     (Some (SkeletonPose pr (mapJoints (fromModal s) data) cm)))
                  | _ => with_kind s (image href cid pidx (Some pose))
                  end
                else s
            | _ => s
            end) shapes) true.

(** The loop of [handleDrop] over the panels, from the last one down: the
    index of the first panel found to contain the point, if any. *)
Definition droppedOnPanelIndex (dropPointWorld : Point) (panels : list CanvasShape)
    : option nat :=
  List.find (fun i => match panels !! i with
                      | Some p => match s_kind p with
                                  | panel pts => isPointInPolygon dropPointWorld pts
                                  | _ => false
                                  end
                      | None => false
                      end)
            (rev (seq 0 (length panels))).

(** [handleDrop]: [characterId] is the id carried by the drag, [sheetImage]
    reads the field of that name of a character, [now] is
    [Date.now().toString()]. *)
Definition handleDrop (shapes : list CanvasShape) (characters : list Character)
    (sheetImage : Character -> string) (characterId : string)
    (dropPointWorld : Point) (now : string) : list Call :=
  match List.find (fun c => String.eqb (c_id c) characterId) characters with
  | None => []
  | Some character =>
      let panels := List.filter (is_type Tpanel) shapes in
      match droppedOnPanelIndex dropPointWorld panels with
      | Some i =>
          let charWidth := 150%Q in
          let charHeight := 250%Q in
          let charX := (px dropPointWorld - charWidth / 2)%Q in
          let charY := (py dropPointWorld - charHeight / 2)%Q in
          let newImageShape :=
            mkShape now charX charY (Some charWidth) (Some charHeight)
                    (image (sheetImage character) (c_id character) (Z.of_nat i)
                           (Some (SkeletonPose full
                                    (createInitialSkeleton charX charY charWidth charHeight)
                                    ""))) in
          [onShapesChange (shapes ++ [newImageShape]) true]
      | None => []
      end
  end.

(** [handleImageFileSelect], once the file is read and the image loaded:
    [imgWidth], [imgHeight] are the natural size of the image. *)
Definition handleImageFileSelect (shapes : list CanvasShape) (vt : ViewTransform)
    (viewWidth viewHeight imgWidth imgHeight : Q) (base64 now : string) : Call :=
  let viewCenterX := ((viewWidth / 2 - vt_x vt) / scale vt)%Q in
  let viewCenterY := ((viewHeight / 2 - vt_y vt) / scale vt)%Q in
  let defaultWidth := 200%Q in
  let imgScale := (defaultWidth / imgWidth)%Q in
  let defaultHeight := (imgHeight * imgScale)%Q in
  onShapesChange
    (shapes ++ [mkShape now (viewCenterX - defaultWidth / 2)%Q (viewCenterY - defaultHeight / 2)%Q
                        (Some defaultWidth) (Some defaultHeight)
                        (image base64 "user-upload" (-1) None)])
    true.

(** ** The pose editor ([PoseEditorModal.tsx]) *)

Module PoseEditorModal.

Definition MODAL_WIDTH : Q := 200.
Definition MODAL_HEIGHT : Q := 400.

(** The copy of the generator kept by the pose editor (and by [App.tsx]):
    its right knee is at [hipY + 0.2]. *)
Definition createInitialSkeleton (x y width height : Q) : SkeletonData :=
  let centerX := (x + width / 2)%Q in
  let topY := (y + height * (15 # 100))%Q in
  let hipY := (y + height * (5 # 10))%Q in
  let armY := (y + height * (3 # 10))%Q in
  let legY := (y + height * (9 # 10))%Q in
  let shoulderWidth := (width * (2 # 10))%Q in
  let hipWidth := (width * (15 # 100))%Q in
  let eyeY := (topY - height * (3 # 100))%Q in
  let eyeDistX := (width * (7 # 100))%Q in
  let noseY := topY in
  let mouthY := (topY + height * (5 # 100))%Q in
  [ ("head", mkPoint centerX topY);
    ("neck", mkPoint centerX armY);
    ("leftShoulder", mkPoint (centerX - shoulderWidth) armY);
    ("rightShoulder", mkPoint (centerX + shoulderWidth) armY);
    ("leftElbow", mkPoint (centerX - shoulderWidth * (15 # 10)) hipY);
    ("rightElbow", mkPoint (centerX + shoulderWidth * (15 # 10)) hipY);
    ("leftHand", mkPoint (centerX - shoulderWidth * (12 # 10)) (legY - height * (1 # 10)));
    ("rightHand", mkPoint (centerX + shoulderWidth * (12 # 10)) (legY - height * (1 # 10)));
    ("hips", mkPoint centerX hipY);
    ("leftHip", mkPoint (centerX - hipWidth) hipY);
    ("rightHip", mkPoint (centerX + hipWidth) hipY);
    ("leftKnee", mkPoint (centerX - hipWidth) (hipY + height * (2 # 10)));
    ("rightKnee", mkPoint (centerX + hipWidth) (hipY + (2 # 10)));
    ("leftFoot", mkPoint (centerX - hipWidth) legY);
    ("rightFoot", mkPoint (centerX + hipWidth) legY);
    ("leftEye", mkPoint (centerX - eyeDistX) eyeY);
    ("rightEye", mkPoint (centerX + eyeDistX) eyeY);
    ("nose", mkPoint centerX noseY);
    ("mouth", mkPoint centerX mouthY) ]%Q.

Definition allJointKeys : list string := map fst (createInitialSkeleton 0 0 0 0).

(** The point of the image carried into the frame of the editor. *)
Definition toModal (character : CanvasShape) (charPoint : Point) : Point :=
  mkPoint (0 + (px charPoint - s_x character) / or0 (s_width character) * MODAL_WIDTH)%Q
          (0 + (py charPoint - s_y character) / or0 (s_height character) * MODAL_HEIGHT)%Q.

(** The effect that loads the skeleton of [character]: the joints of the
    default skeleton that the pose has, in the order of the default skeleton. *)
Definition loadSkeletonData (character : CanvasShape) (data : SkeletonData) : SkeletonData :=
  omap (fun key => match joint data key with
                   | Some charPoint => Some (key, toModal character charPoint)
                   | None => None
                   end) allJointKeys.

(** [{...prev.data, [key]: p}]: the value replaced where the key is, the
    pair added at the end otherwise. *)
Fixpoint setJoint (d : SkeletonData) (key : string) (p : Point) : SkeletonData :=
  match d with
  | [] => [(key, p)]
  | (k, q) :: r => if String.eqb k key then (k, p) :: r else (k, q) :: setJoint r key p
  end.

(** [handleSkeletonMouseMove] on the joint data: the pointer, taken from the
    corner of the SVG element, is clamped to the frame. [!draggingJoint]
    holds of [null] and of the empty name. *)
Definition handleSkeletonMouseMove (draggingJoint : option string)
    (clientX clientY rectLeft rectTop : Q) (data : SkeletonData) : SkeletonData :=
  match draggingJoint with
  | None => data
  | Some key =>
      if String.eqb key EmptyString then data else
      let x := Qmax 0 (Qmin (clientX - rectLeft) MODAL_WIDTH) in
      let y := Qmax 0 (Qmin (clientY - rectTop) MODAL_HEIGHT) in
      setJoint data key (mkPoint x y)
  end.

Definition resetSkeleton : SkeletonData := createInitialSkeleton 0 0 MODAL_WIDTH MODAL_HEIGHT.

(** The strokes shown when the editor opens on a freehand pose, and the
    strokes saved by [handleSave]. *)
Definition initialDrawingPoints (points : list (list Point)) : list (list Point) :=
  map (map (fun p => mkPoint (px p * MODAL_WIDTH)%Q (py p * MODAL_HEIGHT)%Q)) points.

Definition normalizedPoints (drawingPoints : list (list Point)) : list (list Point) :=
  map (map (fun p => mkPoint (px p / MODAL_WIDTH)%Q (py p / MODAL_HEIGHT)%Q)) drawingPoints.

End PoseEditorModal.

(** ** More of the application ([App.tsx]) *)

(** The function mapped over the pages by [handleDeleteCharacter]. *)
Definition deleteCharacterPage (idToDelete : string) (page : Page) : Page :=
  mkPage (p_id page)
         (List.filter (fun s => match s_kind s with
                                | image _ characterId _ _ => negb (String.eqb characterId idToDelete)
                                | _ => true
                                end) (shapes page))
         (shapesHistory page) (shapesHistoryIndex page)
         (sceneDescription page) (aspectRatio page) (viewTransform page).

Definition handleDeleteCharacter (idToDelete : string) (prevPages : list Page) : list Page :=
  map (deleteCharacterPage idToDelete) prevPages.

(** [currentPage]: the page of the current id, or the first page. *)
Definition currentPage (pages : list Page) (currentPageId : string) : option Page :=
  match List.find (fun p => String.eqb (p_id p) currentPageId) pages with
  | Some p => Some p
  | None => head pages
  end.

(** [handleAddPage] and [handleDeletePage] on the pair of the page list and
    the current id; [newPageId] is [Date.now().toString()]. With no page at
    all [currentPage] is [undefined]; the model then takes the aspect ratio
    of [initialPage]. [handleDeletePage] answers [None] where the code
    throws: the current page goes and no page of another id is there to take
    its place. *)
Definition handleAddPage (pages : list Page) (currentPageId : string)
    (switchToNewPage : bool) (newPageId : string) : list Page * string :=
  let aspect := match currentPage pages currentPageId with
                | Some p => aspectRatio p
                | None => "A4"
                end in
  let newPage := mkPage newPageId [] [[]] 0 "" aspect (mkVT 1 0 0) in
  (pages ++ [newPage], if switchToNewPage then newPageId else currentPageId).

Definition handleDeletePage (pages : list Page) (currentPageId : string)
    (idToDelete : string) : option (list Page * string) :=
  if (length pages <=? 1)%nat then Some (pages, currentPageId) else
  let kept := List.filter (fun p => negb (String.eqb (p_id p) idToDelete)) pages in
  if String.eqb currentPageId idToDelete then
    match List.find (fun p => negb (String.eqb (p_id p) idToDelete)) pages with
    | Some p => Some (kept, p_id p)
    | None => None
    end
  else Some (kept, currentPageId).

(** The operations on the history of the current page. *)
Inductive PageOp : Type :=
| OpCommit (newShapes : list CanvasShape)
| OpUpdate (newShapes : list CanvasShape)
| OpUndo
| OpRedo.

Definition runPageOp (existingPanels : string -> nat -> string) (trim : string -> string)
    (cur : string) (p : Page) (op : PageOp) : Page :=
  match op with
  | OpCommit l => shapesChangePage existingPanels trim cur l true p
  | OpUpdate l => shapesChangePage existingPanels trim cur l false p
  | OpUndo => undoPage cur p
  | OpRedo => redoPage cur p
  end.

(** The operations on the view transform: wheel, zoom buttons, fit, and a
    pan by the pointer delta [(dx, dy)]. *)
Inductive ViewOp : Type :=
| VWheel (rectLeft rectTop clientX clientY deltaY : Q)
| VZoom (viewWidth viewHeight : Q) (direction : Direction)
| VFit (aspect : string) (viewWidth viewHeight : Q)
| VPan (dx dy : Q).

Definition runViewOp (vt : ViewTransform) (op : ViewOp) : ViewTransform :=
  match op with
  | VWheel rl rt cx cy dy => handleWheel vt rl rt cx cy dy
  | VZoom w h d => zoom vt w h d
  | VFit a w h => fitAndCenterCanvas a vt w h
  | VPan dx dy => mkVT (scale vt) (vt_x vt + dx)%Q (vt_y vt + dy)%Q
  end.

(** The size of a viewport is not negative. *)
Definition viewOpOk (op : ViewOp) : Prop :=
  match op with
  | VFit _ w h => (0 <= w)%Q /\ (0 <= h)%Q
  | _ => True
  end.

(** A shape is an image of the character [cid]. *)
Definition isImageOf (cid : string) (s : CanvasShape) : Prop :=
  exists href pidx pose, s_kind s = image href cid pidx pose.

(** The freehand drawing that the draw tool starts at [p0] and grows into
    the stroke [stroke]. *)
Definition strokeShape (now : string) (p0 : Point) (stroke : list Point)
    (color : string) (width : Q) : CanvasShape :=
  mkShape now (px p0) (py p0) None None (drawing [stroke] color width).

Definition moveEvents (moves : list (Point * Point)) : list PointerEvent :=
  map (fun m => MouseMove (fst m) (snd m)) moves.

(** [shape.points.flat()] of the shapes that carry points. *)
Definition flatPoints (s : CanvasShape) : option (list Point) :=
  match s_kind s with
  | panel pts => Some pts
  | arrow a b _ _ => Some [a; b]
  | drawing strokes _ _ => Some (concat strokes)
  | _ => None
  end.

(** The point [p] is inside the box [b], sides included. *)
Definition insideBox (b : Rect) (p : Point) : Prop :=
  (r_x b <= px p)%Q /\ (px p <= r_x b + r_width b)%Q /\
  (r_y b <= py p)%Q /\ (py p <= r_y b + r_height b)%Q.

(** The corners of an upright rectangle, in the order in which the panel
    tool lists them. *)
Definition rectangle (x0 y0 x1 y1 : Q) : list Point :=
  [mkPoint x0 y0; mkPoint x1 y0; mkPoint x1 y1; mkPoint x0 y1].

(** The list handed to [onShapesChange]. *)
Definition calledShapes (c : Call) : list CanvasShape :=
  match c with
  | onShapesChange newShapes _ => newShapes
  | onViewTransformChange _ => []
  end.

(** [changeFontSize] called once for each amount, each call on the shapes
    that the call before it left. *)
Definition changeFontSizes (shapes : list CanvasShape) (shapeId : string)
    (amounts : list Q) : list CanvasShape :=
  foldl (fun l amount => calledShapes (changeFontSize l shapeId amount)) shapes amounts.

(** The pages have ids of their own and the current id names one of them. *)
Definition pagesOk (pages : list Page) (currentPageId : string) : Prop :=
  NoDup (map p_id pages) /\ exists p, In p pages /\ p_id p = currentPageId.

(** The passes of the compositor, in the order in which it runs them;
    drawing and arrow shapes have no pass. *)
Definition compositorRank (t : ShapeType) : option nat :=
  match t with
  | Tpanel => Some 0
  | Timage => Some 1
  | Tbubble => Some 2
  | Ttext => Some 3
  | Tdrawing | Tarrow => None
  end.

(** In the sequence [g] the elements [da] stand together and the elements
    [db] stand together after them: in an SVG group, [db] is painted over
    [da]. *)
Definition drawnInOrder (g da db : list SvgElement) : Prop :=
  exists g1 g2 g3, g = g1 ++ da ++ g2 ++ db ++ g3.

(** What the compositor appends for the shape [s] that stands after the
    shapes [before] in the list: a panel gets its rank among the panels. *)
Definition drawnFor (Math_atan2 : Q -> Q -> Q)
    (Math_cos Math_sin Math_tan Math_sqrt : Q -> Q) (Math_PI : Q)
    (includeCharacters : bool) (charactersToDraw : list Character)
    (before : list CanvasShape) (s : CanvasShape) : list SvgElement :=
  match s_type s with
  | Tpanel => drawPanel (length (List.filter (is_type Tpanel) before)) s
  | Timage => if includeCharacters then drawImage charactersToDraw s else []
  | Tbubble => drawBubble Math_atan2 Math_cos Math_sin Math_tan Math_sqrt Math_PI s
  | Ttext => drawText s
  | Tdrawing | Tarrow => []
  end.

(** * Properties *)

(** ** History: undo and redo *)

Lemma same_frame_refl p : same_frame p p.
Proof. repeat split. Qed.

Lemma same_frame_trans r q p : same_frame r q -> same_frame q p -> same_frame r p.
Proof. unfold same_frame. intuition congruence. Qed.

Lemma same_frame_synced_eq q p :
  same_frame q p -> synced q -> synced p ->
  shapesHistoryIndex q = shapesHistoryIndex p -> q = p.
Proof.
  destruct q, p. unfold same_frame, synced. simpl.
  intros (-> & -> & -> & -> & ->) Hq Hp ->. congruence.
Qed.

Lemma eqb_self (s : string) : String.eqb s s = true.
Proof. apply String.eqb_refl. Qed.

Lemma undoPage_zero cur p : shapesHistoryIndex p = 0 -> undoPage cur p = p.
Proof.
  intros H. unfold undoPage. rewrite H. simpl. now rewrite orb_true_r.
Qed.

Lemma redoPage_last cur p :
  shapesHistoryIndex p = length (shapesHistory p) - 1 -> redoPage cur p = p.
Proof.
  intros H. unfold redoPage. rewrite <- H, Nat.leb_refl. now rewrite orb_true_r.
Qed.

Lemma undoPage_step cur p :
  p_id p = cur -> synced p ->
  let q := undoPage cur p in
  same_frame q p /\ synced q /\ shapesHistoryIndex q = shapesHistoryIndex p - 1.
Proof.
  intros <- Hs. unfold undoPage. rewrite eqb_self. simpl.
  destruct (shapesHistoryIndex p) as [|i] eqn:Hi; simpl.
  - rewrite Hi. split; [apply same_frame_refl|]. split; [exact Hs | reflexivity].
  - rewrite !Nat.sub_0_r.
    split; [repeat split|]. unfold synced in *. simpl.
    rewrite Hi in Hs. apply lookup_lt_Some in Hs.
    destruct (lookup_lt_is_Some_2 (shapesHistory p) i) as [x Hx]; [lia|].
    unfold snapshot_at. rewrite Hx. simpl. auto.
Qed.

Lemma redoPage_step cur p :
  p_id p = cur -> synced p ->
  let q := redoPage cur p in
  same_frame q p /\ synced q /\
  shapesHistoryIndex q = Nat.min (shapesHistoryIndex p + 1) (length (shapesHistory p) - 1).
Proof.
  intros <- Hs. unfold redoPage. rewrite eqb_self. simpl.
  pose proof (lookup_lt_Some _ _ _ Hs) as Hlt.
  destruct (length (shapesHistory p) - 1 <=? shapesHistoryIndex p) eqn:Hle.
  - apply Nat.leb_le in Hle. split; [apply same_frame_refl|]. split; [exact Hs | lia].
  - apply Nat.leb_gt in Hle. split; [repeat split|]. unfold synced. simpl.
    destruct (lookup_lt_is_Some_2 (shapesHistory p) (shapesHistoryIndex p + 1)) as [x Hx]; [lia|].
    unfold snapshot_at. rewrite Hx. simpl. split; [reflexivity | lia].
Qed.

Lemma undo_iter cur p k :
  p_id p = cur -> synced p ->
  let q := Nat.iter k (undoPage cur) p in
  same_frame q p /\ synced q /\ shapesHistoryIndex q = shapesHistoryIndex p - k.
Proof.
  intros Hid Hs. induction k as [|k IH]; simpl.
  - split; [apply same_frame_refl|]. split; [exact Hs | lia].
  - destruct IH as (Hf & Hq & Hi).
    assert (Hidq : p_id (Nat.iter k (undoPage cur) p) = cur) by (destruct Hf; congruence).
    destruct (undoPage_step cur _ Hidq Hq) as (Hf' & Hq' & Hi').
    split; [eapply same_frame_trans; eauto|]. split; [exact Hq' | lia].
Qed.

Lemma redo_iter cur p j :
  p_id p = cur -> synced p ->
  let q := Nat.iter j (redoPage cur) p in
  same_frame q p /\ synced q /\
  shapesHistoryIndex q = Nat.min (shapesHistoryIndex p + j) (length (shapesHistory p) - 1).
Proof.
  intros Hid Hs. pose proof (lookup_lt_Some _ _ _ Hs) as Hlt.
  induction j as [|j IH]; simpl.
  - split; [apply same_frame_refl|]. split; [exact Hs | lia].
  - destruct IH as (Hf & Hq & Hi).
    assert (Hidq : p_id (Nat.iter j (redoPage cur) p) = cur) by (destruct Hf; congruence).
    destruct (redoPage_step cur _ Hidq Hq) as (Hf' & Hq' & Hi').
    split; [eapply same_frame_trans; eauto|]. split; [exact Hq'|].
    rewrite Hi'. destruct Hf as (_ & -> & _). lia.
Qed.

Lemma last_cons_default {A : Type} (a d : A) (l : list A) :
  List.last (a :: l) d = List.last l a.
Proof.
  revert a d. induction l as [|b l IH]; intros a d; [reflexivity|].
  change (List.last (a :: b :: l) d) with (List.last (b :: l) d).
  rewrite !IH. reflexivity.
Qed.

Section HistoryFacts.

Variable existingPanels : string -> nat -> string.
Variable trim : string -> string.
Variable cur : string.

Local Abbreviation commitC := (commit existingPanels trim cur).
Local Abbreviation updateC := (updateInPlace existingPanels trim cur).

Lemma commit_fields p c :
  p_id p = cur ->
  let q := commitC p c in
  p_id q = cur /\ shapes q = c /\
  shapesHistory q = take (shapesHistoryIndex p + 1) (shapesHistory p) ++ [c] /\
  shapesHistoryIndex q = length (take (shapesHistoryIndex p + 1) (shapesHistory p)) /\
  aspectRatio q = aspectRatio p /\ viewTransform q = viewTransform p.
Proof.
  intros Hid. unfold commit, shapesChangePage. rewrite Hid, eqb_self. simpl.
  repeat split; try assumption. rewrite length_app. simpl. lia.
Qed.

(** After commits the history is the kept prefix followed by the committed
    lists, and the index is on the last of them. *)
Lemma commits_fields p c cs :
  p_id p = cur ->
  let q := foldl commitC p (c :: cs) in
  p_id q = cur /\ shapes q = List.last cs c /\
  shapesHistory q = take (shapesHistoryIndex p + 1) (shapesHistory p) ++ c :: cs /\
  S (shapesHistoryIndex q) = length (shapesHistory q).
Proof.
  revert p c. induction cs as [|c' cs IH]; intros p c Hid.
  - simpl. destruct (commit_fields p c Hid) as (H1 & H2 & H3 & H4 & _).
    repeat split; try assumption. rewrite H3, H4, length_app. simpl. lia.
  - destruct (commit_fields p c Hid) as (H1 & H2 & H3 & H4 & _).
    specialize (IH (commitC p c) c' H1).
    change (foldl commitC p (c :: c' :: cs)) with (foldl commitC (commitC p c) (c' :: cs)).
    destruct IH as (I1 & I2 & I3 & I4).
    split; [exact I1|]. split.
    { rewrite I2. symmetry. apply last_cons_default. }
    split; [|exact I4].
    rewrite I3, H3, H4.
    rewrite take_ge by (rewrite length_app; simpl; lia).
    now rewrite <- app_assoc.
Qed.

Lemma commits_synced p c cs :
  p_id p = cur -> synced (foldl commitC p (c :: cs)).
Proof.
  intros Hid. destruct (commits_fields p c cs Hid) as (_ & Hs & Hh & Hi).
  remember (foldl commitC p (c :: cs)) as q eqn:Hq. clear Hq.
  unfold synced. rewrite Hs.
  assert (Hlast : (c :: cs) !! length cs = Some (List.last cs c)).
  { clear. revert c. induction cs as [|c' cs IH]; intros c; [reflexivity|].
    rewrite last_cons_default. apply IH. }
  rewrite Hh in Hi |- *. rewrite length_app in Hi. simpl in Hi.
  rewrite lookup_app_r by lia.
  replace (_ - _) with (length cs) by lia. exact Hlast.
Qed.

End HistoryFacts.

(** C1. Undo/redo inverse law. After the commits [c :: cs] on the current
    page, [n] undos followed by [n] redos give back the page as it was after
    the last commit; after any number of undos, and of redos after them, the
    history is untouched and the live shape list is the snapshot stored at the
    index reached; the first [n - 1] undos walk back through the committed
    lists; undo does nothing at index 0 and redo does nothing at the last
    index. *)
Theorem undo_redo_inverse (existingPanels : string -> nat -> string)
    (trim : string -> string) (cur : string) (p : Page)
    (c : list CanvasShape) (cs : list (list CanvasShape)) :
  p_id p = cur ->
  let commits := c :: cs in
  let n := length commits in
  let p' := foldl (commit existingPanels trim cur) p commits in
  Nat.iter n (redoPage cur) (Nat.iter n (undoPage cur) p') = p' /\
  shapes p' = List.last cs c /\
  (forall k, let q := Nat.iter k (undoPage cur) p' in
     shapesHistory q = shapesHistory p' /\
     shapesHistoryIndex q = shapesHistoryIndex p' - k /\
     shapesHistory p' !! shapesHistoryIndex q = Some (shapes q)) /\
  (forall k, k < n ->
     commits !! (n - 1 - k) = Some (shapes (Nat.iter k (undoPage cur) p'))) /\
  (forall k j, let q := Nat.iter j (redoPage cur) (Nat.iter k (undoPage cur) p') in
     shapesHistory q = shapesHistory p' /\
     shapesHistoryIndex q
       = Nat.min (shapesHistoryIndex p' - k + j) (shapesHistoryIndex p') /\
     shapesHistory p' !! shapesHistoryIndex q = Some (shapes q)) /\
  (forall q, shapesHistoryIndex q = 0 -> undoPage cur q = q) /\
  (forall q, shapesHistoryIndex q = length (shapesHistory q) - 1 -> redoPage cur q = q).
Proof.
  intros Hid commits n p'.
  destruct (commits_fields existingPanels trim cur p c cs Hid) as (Hid' & Hlast & Hh & Htip).
  fold commits p' in Hid', Hlast, Hh, Htip.
  pose proof (commits_synced existingPanels trim cur p c cs Hid) as Hs.
  fold p' in Hs.
  assert (Hundo : forall k, let q := Nat.iter k (undoPage cur) p' in
            same_frame q p' /\ synced q /\
            shapesHistoryIndex q = shapesHistoryIndex p' - k).
  { intros k. apply undo_iter; assumption. }
  assert (Hredo : forall k j,
            let q := Nat.iter j (redoPage cur) (Nat.iter k (undoPage cur) p') in
            same_frame q p' /\ synced q /\
            shapesHistoryIndex q
              = Nat.min (shapesHistoryIndex p' - k + j) (shapesHistoryIndex p')).
  { intros k j. destruct (Hundo k) as (Hf & Hq & Hi).
    assert (Hidq : p_id (Nat.iter k (undoPage cur) p') = cur) by (destruct Hf; congruence).
    destruct (redo_iter cur _ j Hidq Hq) as (Hf' & Hq' & Hi').
    split; [eapply same_frame_trans; eauto|]. split; [exact Hq'|].
    simpl. rewrite Hi', Hi. destruct Hf as (_ & -> & _). lia. }
  split.
  { destruct (Hredo n n) as (Hf & Hq & Hi).
    apply same_frame_synced_eq; try assumption. rewrite Hi. lia. }
  split; [exact Hlast|].
  split.
  { intros k. destruct (Hundo k) as (Hf & Hq & Hi).
    destruct Hf as (_ & Hhq & _). split; [exact Hhq|]. split; [exact Hi|].
    unfold synced in Hq. now rewrite Hhq in Hq. }
  split.
  { intros k Hk. destruct (Hundo k) as (Hf & Hq & Hi).
    destruct Hf as (_ & Hhq & _). unfold synced in Hq. rewrite Hhq, Hi, Hh in Hq.
    rewrite Hh, length_app in Htip. fold n in Htip.
    rewrite lookup_app_r in Hq by lia. rewrite <- Hq. f_equal. lia. }
  split.
  { intros k j. destruct (Hredo k j) as (Hf & Hq & Hi).
    destruct Hf as (_ & Hhq & _). split; [exact Hhq|]. split; [exact Hi|].
    unfold synced in Hq. now rewrite Hhq in Hq. }
  split; [apply undoPage_zero | apply redoPage_last].
Qed.

Lemma undo_redo_inverse_witness :
  let ex := fun (_ : string) (_ : nat) => "" in
  let tr := fun s : string => s in
  let p' := foldl (commit ex tr "1") (initialPage "1")
                  [[sampleText "a"]; [sampleText "a"; sampleText "b"]] in
  p_id (initialPage "1") = "1" /\
  Nat.iter 2 (redoPage "1") (Nat.iter 2 (undoPage "1") p') = p' /\
  shapes (Nat.iter 1 (undoPage "1") p') = [sampleText "a"].
Proof.
  intros ex tr p'.
  pose proof (undo_redo_inverse ex tr "1" (initialPage "1") [sampleText "a"]
                [[sampleText "a"; sampleText "b"]] eq_refl) as (H1 & _ & _ & H4 & _).
  split; [reflexivity|]. split; [exact H1|].
  specialize (H4 1 ltac:(simpl; lia)).
  change (Some [sampleText "a"] = Some (shapes (Nat.iter 1 (undoPage "1") p'))) in H4.
  now inversion H4.
Defined.

(** ** History: gestures *)

Section GestureFacts.

Variable existingPanels : string -> nat -> string.
Variable trim : string -> string.
Variable cur : string.

Local Abbreviation commitG := (commit existingPanels trim cur).
Local Abbreviation updateG := (updateInPlace existingPanels trim cur).

Lemma update_fields p u :
  p_id p = cur -> shapesHistoryIndex p < length (shapesHistory p) ->
  let q := updateG p u in
  p_id q = cur /\ shapes q = u /\
  shapesHistory q = <[shapesHistoryIndex p := u]> (shapesHistory p) /\
  shapesHistoryIndex q = shapesHistoryIndex p.
Proof.
  intros Hid Hlt. unfold updateInPlace, shapesChangePage, array_set.
  rewrite Hid, eqb_self. simpl. case_decide; [|lia]. repeat split.
Qed.

(** Any number of in-place updates: same index, same length, and only the
    entry under the index may differ. *)
Lemma updates_fields p us :
  p_id p = cur -> shapesHistoryIndex p < length (shapesHistory p) ->
  let q := foldl updateG p us in
  p_id q = cur /\
  shapesHistoryIndex q = shapesHistoryIndex p /\
  length (shapesHistory q) = length (shapesHistory p) /\
  (forall j, j <> shapesHistoryIndex p -> shapesHistory q !! j = shapesHistory p !! j) /\
  shapes q = List.last us (shapes p).
Proof.
  revert p. induction us as [|u us IH]; intros p Hid Hlt.
  - simpl. repeat split; auto.
  - destruct (update_fields p u Hid Hlt) as (H1 & H2 & H3 & H4).
    assert (Hlt' : shapesHistoryIndex (updateG p u) < length (shapesHistory (updateG p u))).
    { rewrite H3, H4, length_insert. exact Hlt. }
    destruct (IH (updateG p u) H1 Hlt') as (I1 & I2 & I3 & I4 & I5).
    change (foldl updateG p (u :: us)) with (foldl updateG (updateG p u) us).
    split; [exact I1|]. split; [congruence|].
    split; [rewrite I3, H3; apply length_insert|].
    split.
    + intros j Hj. rewrite I4 by congruence. rewrite H3.
      apply list_lookup_insert_ne. congruence.
    + rewrite I5, H2. symmetry. apply last_cons_default.
Qed.

End GestureFacts.

(** C2, as stated, fails when the gesture starts behind a redo tail: on a page
    with three snapshots and the index at 0, two in-place updates and the
    commit leave two snapshots, not four. *)
Lemma drag_coalescing_counterexample :
  let ex := fun (_ : string) (_ : nat) => "" in
  let tr := fun s : string => s in
  let p := pageWithRedoTail in
  let q := foldl (updateInPlace ex tr "1") p [[sampleText "c"]; [sampleText "d"]] in
  let r := commit ex tr "1" q [sampleText "d"] in
  p_id p = "1" /\ shapesHistoryIndex p = 0 /\
  length (shapesHistory p) = 3 /\ length (shapesHistory r) = 2 /\
  length (shapesHistory r) <> length (shapesHistory p) + 1.
Proof. vm_compute. repeat split; congruence. Qed.

(** C2, amended. A gesture of [k] in-place updates followed by one commit,
    on the current page with its index inside the history: no update changes
    the index, the length of the history or any entry but the one under the
    index; the commit then leaves the entries up to the index followed by the
    committed list, so that the history has [index + 2] entries and the index
    has advanced by one, whatever [k] is. The history is one entry longer
    than before exactly when there was no redo tail. *)
Theorem drag_coalescing (existingPanels : string -> nat -> string)
    (trim : string -> string) (cur : string) (p : Page)
    (updates : list (list CanvasShape)) (final : list CanvasShape) :
  p_id p = cur ->
  shapesHistoryIndex p < length (shapesHistory p) ->
  let q := foldl (updateInPlace existingPanels trim cur) p updates in
  let r := commit existingPanels trim cur q final in
  (shapesHistoryIndex q = shapesHistoryIndex p /\
   length (shapesHistory q) = length (shapesHistory p) /\
   forall j, j <> shapesHistoryIndex p -> shapesHistory q !! j = shapesHistory p !! j) /\
  (shapes r = final /\
   shapesHistoryIndex r = shapesHistoryIndex p + 1 /\
   length (shapesHistory r) = shapesHistoryIndex p + 2 /\
   shapesHistory r = take (shapesHistoryIndex p + 1) (shapesHistory q) ++ [final]) /\
  (length (shapesHistory r) = length (shapesHistory p) + 1 <->
   shapesHistoryIndex p + 1 = length (shapesHistory p)).
Proof.
  intros Hid Hlt q r.
  destruct (updates_fields existingPanels trim cur p updates Hid Hlt)
    as (Hq1 & Hq2 & Hq3 & Hq4 & _). fold q in Hq1, Hq2, Hq3, Hq4.
  destruct (commit_fields existingPanels trim cur q final Hq1)
    as (_ & Hr2 & Hr3 & Hr4 & _). fold r in Hr2, Hr3, Hr4.
  assert (Hlen : length (take (shapesHistoryIndex q + 1) (shapesHistory q))
                 = shapesHistoryIndex p + 1).
  { rewrite length_take, Hq2, Hq3. lia. }
  assert (Hr5 : length (shapesHistory r) = shapesHistoryIndex p + 2).
  { rewrite Hr3, length_app, Hlen. simpl. lia. }
  split; [auto|]. split.
  - split; [exact Hr2|]. split; [lia|]. split; [exact Hr5|]. now rewrite Hr3, Hq2.
  - rewrite Hr5. lia.
Qed.

Lemma drag_coalescing_witness :
  let ex := fun (_ : string) (_ : nat) => "" in
  let tr := fun s : string => s in
  let p := initialPage "1" in
  let q := foldl (updateInPlace ex tr "1") p [[sampleText "c"]; [sampleText "d"]] in
  let r := commit ex tr "1" q [sampleText "d"] in
  p_id p = "1" /\ shapesHistoryIndex p < length (shapesHistory p) /\
  length (shapesHistory r) = 2 /\ shapesHistoryIndex q = 0.
Proof.
  intros ex tr p q r.
  assert (Hid : p_id p = "1") by reflexivity.
  assert (Hlt : shapesHistoryIndex p < length (shapesHistory p)) by (simpl; lia).
  pose proof (drag_coalescing ex tr "1" p [[sampleText "c"]; [sampleText "d"]]
                [sampleText "d"] Hid Hlt) as ((H1 & _) & (_ & _ & H2 & _) & _).
  split; [exact Hid|]. split; [exact Hlt|]. split; [exact H2 | exact H1].
Defined.

(** ** Drawing order *)

Lemma precedes_app_l {A : Type} (l0 l : list A) a b :
  precedes l a b -> precedes (l0 ++ l) a b.
Proof.
  intros (l1 & l2 & l3 & ->). exists (l0 ++ l1), l2, l3. now rewrite <- app_assoc.
Qed.

Lemma precedes_app_r {A : Type} (l l0 : list A) a b :
  precedes l a b -> precedes (l ++ l0) a b.
Proof.
  intros (l1 & l2 & l3 & ->). exists l1, l2, (l3 ++ l0).
  rewrite <- !app_assoc. simpl. now rewrite <- app_assoc.
Qed.

Lemma precedes_filter {A : Type} (f : A -> bool) (l : list A) a b :
  precedes l a b -> f a = true -> f b = true -> precedes (List.filter f l) a b.
Proof.
  intros (l1 & l2 & l3 & ->) Ha Hb.
  exists (List.filter f l1), (List.filter f l2), (List.filter f l3).
  rewrite List.filter_app. simpl. rewrite Ha, List.filter_app. simpl. now rewrite Hb.
Qed.

Section StableSort.

Context {A : Type} (key : A -> Z).

Local Abbreviation cmp := (fun a b : A => (key a - key b)%Z).

Lemma sortInsert_In a x l : In x (sortInsert cmp a l) <-> x = a \/ In x l.
Proof.
  induction l as [|b l IH]; simpl.
  - intuition.
  - destruct (key a - key b <=? 0)%Z; simpl; rewrite ?IH; intuition.
Qed.

Lemma stableSort_In x l : In x (stableSort cmp l) <-> In x l.
Proof.
  induction l as [|a l IH]; simpl; [reflexivity|].
  rewrite sortInsert_In, IH. intuition.
Qed.

Lemma sortInsert_sorted a l :
  StronglySorted (fun x y => (key x <= key y)%Z) l ->
  StronglySorted (fun x y => (key x <= key y)%Z) (sortInsert cmp a l).
Proof.
  induction 1 as [|b l Hs IH Hb]; simpl.
  - constructor; constructor.
  - destruct (key a - key b <=? 0)%Z eqn:E.
    + apply Z.leb_le in E. constructor; [constructor; assumption|].
      constructor; [lia|]. rewrite List.Forall_forall in Hb |- *.
      intros y Hy. specialize (Hb y Hy). lia.
    + apply Z.leb_gt in E. constructor; [exact IH|].
      rewrite List.Forall_forall in Hb |- *. intros y Hy.
      apply sortInsert_In in Hy as [->|Hy]; [lia | auto].
Qed.

Lemma stableSort_sorted l :
  StronglySorted (fun x y => (key x <= key y)%Z) (stableSort cmp l).
Proof.
  induction l as [|a l IH]; simpl; [constructor | now apply sortInsert_sorted].
Qed.

(** Where an element lands: after the smaller keys, before the others. *)
Lemma sortInsert_split a l1 l2 :
  List.Forall (fun b => (key b < key a)%Z) l1 ->
  List.Forall (fun b => (key a <= key b)%Z) l2 ->
  sortInsert cmp a (l1 ++ l2) = l1 ++ a :: l2.
Proof.
  intros H1 H2. induction H1 as [|b l1 Hb _ IH]; simpl.
  - destruct H2 as [|c l2 Hc _]; simpl; [reflexivity|].
    destruct (Z.leb_spec (key a - key c) 0); [reflexivity | lia].
  - destruct (Z.leb_spec (key a - key b) 0); [lia|].
    now rewrite IH.
Qed.

(** In a list sorted by key, the smaller key comes first. *)
Lemma sorted_precedes l a b :
  StronglySorted (fun x y => (key x <= key y)%Z) l ->
  In a l -> In b l -> (key a < key b)%Z -> precedes l a b.
Proof.
  intros Hs Ha Hb Hlt.
  apply in_split in Ha as (l1 & l2 & ->).
  apply in_app_or in Hb as [Hb|Hb].
  - exfalso. apply in_split in Hb as (m1 & m2 & ->).
    rewrite <- app_assoc in Hs. simpl in Hs.
    apply StronglySorted_app_1_r in Hs. inversion Hs as [|? ? _ Hall]; subst.
    rewrite List.Forall_forall in Hall.
    specialize (Hall a ltac:(apply in_or_app; right; now left)). lia.
  - destruct Hb as [->|Hb]; [lia|].
    apply in_split in Hb as (m1 & m2 & ->). now exists l1, m1, m2.
Qed.

End StableSort.

Lemma sortInsert_skip {A : Type} (key : A -> Z) a l1 l2 :
  List.Forall (fun b => (key b < key a)%Z) l1 ->
  sortInsert (fun x y => (key x - key y)%Z) a (l1 ++ l2)
  = l1 ++ sortInsert (fun x y => (key x - key y)%Z) a l2.
Proof.
  induction 1 as [|b l1 Hb _ IH]; simpl; [reflexivity|].
  destruct (Z.leb_spec (key a - key b) 0); [lia | now rewrite IH].
Qed.

Lemma sortInsert_here {A : Type} (key : A -> Z) a l :
  List.Forall (fun b => (key a <= key b)%Z) l ->
  sortInsert (fun x y => (key x - key y)%Z) a l = a :: l.
Proof.
  intros H. apply (sortInsert_split key a [] l); [constructor | exact H].
Qed.

Lemma is_type_true t s : is_type t s = true <-> s_type s = t.
Proof. unfold is_type. destruct (s_type s), t; simpl; split; congruence. Qed.

Lemma filter_type_key (P : Z -> Prop) t l :
  P (shapeOrder t) ->
  List.Forall (fun b => P (shapeOrder (s_type b))) (List.filter (is_type t) l).
Proof.
  intros HP. apply List.Forall_forall. intros b Hb.
  apply List.filter_In in Hb as [_ Hb]. apply is_type_true in Hb. now rewrite Hb.
Qed.

(** The stable sort of [sortedShapes] groups the shapes by kind and keeps the
    list order inside each kind. *)
Lemma sortedShapes_byKind l : sortedShapes l = byKind l.
Proof.
  induction l as [|a l IH]; [reflexivity|].
  change (sortedShapes (a :: l))
    with (sortInsert (fun x y => (shapeOrder (s_type x) - shapeOrder (s_type y))%Z)
                     a (sortedShapes l)).
  rewrite IH. unfold byKind.
  assert (Hf : forall t, List.filter (is_type t) (a :: l)
                         = if ShapeType_eqb (s_type a) t
                           then a :: List.filter (is_type t) l
                           else List.filter (is_type t) l) by reflexivity.
  rewrite !Hf. clear Hf IH.
  destruct (s_type a) eqn:E; cbn [ShapeType_eqb];
    repeat (rewrite (sortInsert_skip (fun s => shapeOrder (s_type s)))
              by (rewrite E; apply (filter_type_key (fun k => (k < _)%Z)); simpl; lia));
    rewrite (sortInsert_here (fun s => shapeOrder (s_type s)))
      by (rewrite E; rewrite ?List.Forall_app; repeat split;
          apply (filter_type_key (fun k => (_ <= k)%Z)); simpl; lia);
    reflexivity.
Qed.

Lemma byKind_filters l l' :
  (forall t, List.filter (is_type t) l = List.filter (is_type t) l') ->
  byKind l = byKind l'.
Proof. intros H. unfold byKind. now rewrite !H. Qed.

Lemma filter_filter_type t t' l :
  List.filter (is_type t) (List.filter (is_type t') l)
  = if ShapeType_eqb t' t then List.filter (is_type t) l else [].
Proof.
  induction l as [|a l IH]; simpl.
  - now destruct (ShapeType_eqb t' t).
  - unfold is_type in *.
    destruct (s_type a) eqn:E, t, t'; simpl in *; rewrite ?E; simpl;
      rewrite ?IH; reflexivity.
Qed.

Section CompositorFacts.

Variable Math_atan2 : Q -> Q -> Q.
Variables Math_cos Math_sin Math_tan Math_sqrt : Q -> Q.
Variable Math_PI : Q.

Local Abbreviation layout :=
  (getLayoutAsImage Math_atan2 Math_cos Math_sin Math_tan Math_sqrt Math_PI).

(** The compositor reads the shape list through four filters only. *)
Lemma layout_filters shapes shapes' aspect vt vt' inc chars :
  (forall t, t <> Tdrawing -> t <> Tarrow ->
             List.filter (is_type t) shapes' = List.filter (is_type t) shapes) ->
  layout (mkProps shapes' aspect vt') inc chars = layout (mkProps shapes aspect vt) inc chars.
Proof.
  intros H. unfold getLayoutAsImage. simpl.
  rewrite !H by discriminate. reflexivity.
Qed.

(** The picture of a scene is the picture of its panels, then that of its
    images, then that of its bubbles, then that of its texts. *)
Lemma layout_layers shapes aspect vt inc chars :
  let only t := contentGroup (layout (mkProps (List.filter (is_type t) shapes) aspect vt)
                                     inc chars) in
  contentGroup (layout (mkProps shapes aspect vt) inc chars)
  = only Tpanel ++ only Timage ++ only Tbubble ++ only Ttext.
Proof.
  unfold getLayoutAsImage. simpl.
  destruct (canvasConfig aspect) as [w h]. simpl.
  rewrite !filter_filter_type. simpl.
  destruct inc; simpl; rewrite ?app_nil_r; reflexivity.
Qed.

Lemma concat_map_imap {A B : Type} (f : A -> list B) (l : list A) :
  concat (map f l) = concat (imap (fun _ => f) l).
Proof.
  induction l as [|a l IH]; [reflexivity|].
  simpl. rewrite IH. reflexivity.
Qed.

(** One shape, and two shapes, in the pass of their kind. *)
Lemma pass_one {B : Type} (F : nat -> CanvasShape -> list B) t l1 a r1 :
  is_type t a = true ->
  exists x1 x2,
    concat (imap F (List.filter (is_type t) (l1 ++ a :: r1)))
    = x1 ++ F (length (List.filter (is_type t) l1)) a ++ x2.
Proof.
  intros Ha. rewrite List.filter_app. cbn [List.filter]. rewrite Ha.
  rewrite imap_app, concat_app. cbn [imap concat]. rewrite Nat.add_0_r.
  eexists _, _. reflexivity.
Qed.

Lemma pass_two {B : Type} (F : nat -> CanvasShape -> list B) t l1 a l2 b l3 :
  is_type t a = true -> is_type t b = true ->
  exists x1 x2 x3,
    concat (imap F (List.filter (is_type t) (l1 ++ a :: l2 ++ b :: l3)))
    = x1 ++ F (length (List.filter (is_type t) l1)) a ++ x2
         ++ F (length (List.filter (is_type t) (l1 ++ a :: l2))) b ++ x3.
Proof.
  intros Ha Hb.
  replace (l1 ++ a :: l2 ++ b :: l3) with ((l1 ++ a :: l2) ++ b :: l3)
    by (rewrite <- app_assoc; reflexivity).
  rewrite (List.filter_app _ (l1 ++ a :: l2)). cbn [List.filter]. rewrite Hb.
  rewrite imap_app, concat_app. cbn [imap concat]. rewrite Nat.add_0_r.
  destruct (pass_one F t l1 a l2 Ha) as (x1 & x2 & ->).
  eexists x1, x2, _. rewrite <- !app_assoc. reflexivity.
Qed.

Local Abbreviation drawn :=
  (drawnFor Math_atan2 Math_cos Math_sin Math_tan Math_sqrt Math_PI).

Local Abbreviation bubbleOf :=
  (drawBubble Math_atan2 Math_cos Math_sin Math_tan Math_sqrt Math_PI).

(** The content group, pass by pass. *)
Lemma layout_content shapes aspect vt inc chars :
  contentGroup (layout (mkProps shapes aspect vt) inc chars)
  = concat (imap drawPanel (List.filter (is_type Tpanel) shapes))
    ++ (if inc
        then concat (imap (fun _ => drawImage chars) (List.filter (is_type Timage) shapes))
        else [])
    ++ concat (imap (fun _ => bubbleOf) (List.filter (is_type Tbubble) shapes))
    ++ concat (imap (fun _ => drawText) (List.filter (is_type Ttext) shapes)).
Proof.
  unfold getLayoutAsImage. cbn [props_shapes props_aspectRatio].
  destruct (canvasConfig aspect) as [w h]. cbn [contentGroup].
  rewrite !concat_map_imap. reflexivity.
Qed.

(** A shape of a kind that has a pass, in that pass. *)
Lemma layout_pass_one shapes inc chars l1 a r1 :
  shapes = l1 ++ a :: r1 ->
  (s_type a = Tpanel ->
   exists x1 x2, concat (imap drawPanel (List.filter (is_type Tpanel) shapes))
                 = x1 ++ drawn inc chars l1 a ++ x2) /\
  (s_type a = Timage ->
   exists x1 x2, (if inc
                  then concat (imap (fun _ => drawImage chars)
                                    (List.filter (is_type Timage) shapes))
                  else [])
                 = x1 ++ drawn inc chars l1 a ++ x2) /\
  (s_type a = Tbubble ->
   exists x1 x2, concat (imap (fun _ => bubbleOf) (List.filter (is_type Tbubble) shapes))
                 = x1 ++ drawn inc chars l1 a ++ x2) /\
  (s_type a = Ttext ->
   exists x1 x2, concat (imap (fun _ => drawText) (List.filter (is_type Ttext) shapes))
                 = x1 ++ drawn inc chars l1 a ++ x2).
Proof.
  intros ->. repeat split; intros Ht; unfold drawnFor; rewrite Ht.
  - apply pass_one. now apply is_type_true.
  - destruct inc; [|now exists [], []].
    apply (pass_one (fun _ => drawImage chars)). now apply is_type_true.
  - apply (pass_one (fun _ => bubbleOf)). now apply is_type_true.
  - apply (pass_one (fun _ => drawText)). now apply is_type_true.
Qed.

(** Two shapes of one kind: the later one of the list is drawn after the
    earlier one. *)
Lemma layout_same_kind aspect vt inc chars l1 a l2 b l3 :
  s_type a = s_type b ->
  drawnInOrder (contentGroup (layout (mkProps (l1 ++ a :: l2 ++ b :: l3) aspect vt) inc chars))
               (drawn inc chars l1 a) (drawn inc chars (l1 ++ a :: l2) b).
Proof.
  intros Hab. rewrite layout_content.
  assert (Hb : forall t, s_type a = t -> is_type t a = true /\ is_type t b = true).
  { intros t Ht. split; apply is_type_true; congruence. }
  unfold drawnFor. rewrite <- Hab.
  destruct (s_type a) eqn:Ha.
  - (* panel *)
    destruct (Hb _ eq_refl) as [Ta Tb].
    destruct (pass_two drawPanel Tpanel l1 a l2 b l3 Ta Tb) as (x1 & x2 & x3 & ->).
    match goal with |- drawnInOrder (_ ++ ?r) _ _ => exists x1, x2, (x3 ++ r) end.
    rewrite <- !app_assoc. reflexivity.
  - (* text *)
    destruct (Hb _ eq_refl) as [Ta Tb].
    destruct (pass_two (fun _ => drawText) Ttext l1 a l2 b l3 Ta Tb)
      as (x1 & x2 & x3 & ->).
    match goal with |- drawnInOrder (?p ++ ?i ++ ?u ++ _) _ _ =>
      exists (p ++ i ++ u ++ x1), x2, x3 end.
    rewrite <- !app_assoc. reflexivity.
  - (* bubble *)
    destruct (Hb _ eq_refl) as [Ta Tb].
    destruct (pass_two (fun _ => bubbleOf) Tbubble l1 a l2 b l3 Ta Tb)
      as (x1 & x2 & x3 & ->).
    match goal with |- drawnInOrder (?p ++ ?i ++ _ ++ ?t) _ _ =>
      exists (p ++ i ++ x1), x2, (x3 ++ t) end.
    rewrite <- !app_assoc. reflexivity.
  - (* drawing *)
    eexists _, [], []. rewrite !app_nil_r. reflexivity.
  - (* image *)
    destruct inc.
    + destruct (Hb _ eq_refl) as [Ta Tb].
      destruct (pass_two (fun _ => drawImage chars) Timage l1 a l2 b l3 Ta Tb)
        as (x1 & x2 & x3 & ->).
      match goal with |- drawnInOrder (?p ++ _ ++ ?r) _ _ =>
        exists (p ++ x1), x2, (x3 ++ r) end.
      rewrite <- !app_assoc. reflexivity.
    + eexists _, [], []. rewrite !app_nil_r. reflexivity.
  - (* arrow *)
    eexists _, [], []. rewrite !app_nil_r. reflexivity.
Qed.

(** Two shapes of kinds with a pass each: the one of the earlier pass is
    drawn first, wherever the two stand in the list. *)
Lemma layout_ranked shapes aspect vt inc chars l1 a r1 l2 b r2 ra rb :
  shapes = l1 ++ a :: r1 -> shapes = l2 ++ b :: r2 ->
  compositorRank (s_type a) = Some ra -> compositorRank (s_type b) = Some rb -> ra < rb ->
  drawnInOrder (contentGroup (layout (mkProps shapes aspect vt) inc chars))
               (drawn inc chars l1 a) (drawn inc chars l2 b).
Proof.
  intros H1 H2 Ha Hb Hlt. rewrite layout_content.
  destruct (layout_pass_one shapes inc chars l1 a r1 H1) as (Ap & Ai & Ab & At).
  destruct (layout_pass_one shapes inc chars l2 b r2 H2) as (Bp & Bi & Bb & Bt).
  set (da := drawn inc chars l1 a) in *. set (db := drawn inc chars l2 b) in *.
  set (P := concat (imap drawPanel (List.filter (is_type Tpanel) shapes))) in *.
  set (I := if inc
            then concat (imap (fun _ => drawImage chars) (List.filter (is_type Timage) shapes))
            else []) in *.
  set (B := concat (imap (fun _ => bubbleOf) (List.filter (is_type Tbubble) shapes))) in *.
  set (T := concat (imap (fun _ => drawText) (List.filter (is_type Ttext) shapes))) in *.
  destruct (s_type a) eqn:Ea; simpl in Ha; try discriminate Ha; injection Ha as <-;
    destruct (s_type b) eqn:Eb; simpl in Hb; try discriminate Hb; injection Hb as <-;
    try lia.
  - (* panel, text *)
    destruct (Ap eq_refl) as (x1 & x2 & ->). destruct (Bt eq_refl) as (y1 & y2 & ->).
    exists x1, (x2 ++ I ++ B ++ y1), y2. rewrite <- !app_assoc. reflexivity.
  - (* panel, bubble *)
    destruct (Ap eq_refl) as (x1 & x2 & ->). destruct (Bb eq_refl) as (y1 & y2 & ->).
    exists x1, (x2 ++ I ++ y1), (y2 ++ T). rewrite <- !app_assoc. reflexivity.
  - (* panel, image *)
    destruct (Ap eq_refl) as (x1 & x2 & ->). destruct (Bi eq_refl) as (y1 & y2 & ->).
    exists x1, (x2 ++ y1), (y2 ++ B ++ T). rewrite <- !app_assoc. reflexivity.
  - (* bubble, text *)
    destruct (Ab eq_refl) as (x1 & x2 & ->). destruct (Bt eq_refl) as (y1 & y2 & ->).
    exists (P ++ I ++ x1), (x2 ++ y1), y2. rewrite <- !app_assoc. reflexivity.
  - (* image, text *)
    destruct (Ai eq_refl) as (x1 & x2 & ->). destruct (Bt eq_refl) as (y1 & y2 & ->).
    exists (P ++ x1), (x2 ++ B ++ y1), y2. rewrite <- !app_assoc. reflexivity.
  - (* image, bubble *)
    destruct (Ai eq_refl) as (x1 & x2 & ->). destruct (Bb eq_refl) as (y1 & y2 & ->).
    exists (P ++ x1), (x2 ++ y1), (y2 ++ T). rewrite <- !app_assoc. reflexivity.
Qed.

End CompositorFacts.




(** ** What the compositor draws *)

Lemma in_concat_imap {A B : Type} (f : nat -> A -> list B) (l : list A) i x e :
  l !! i = Some x -> In e (f i x) -> In e (concat (imap f l)).
Proof.
  revert f i. induction l as [|a l IH]; intros f i Hl He; [discriminate|].
  destruct i as [|i]; simpl in *.
  - injection Hl as ->. apply in_or_app. now left.
  - apply in_or_app. right. apply (IH (f ∘ S) i); assumption.
Qed.

Lemma in_concat_map {A B : Type} (f : A -> list B) (l : list A) x e :
  In x l -> In e (f x) -> In e (concat (map f l)).
Proof.
  intros Hx He. apply in_concat. exists (f x). split; [now apply in_map | exact He].
Qed.

Lemma filter_filter_keep (keep : CanvasShape -> bool) t l :
  (forall s, is_type t s = true -> keep s = true) ->
  List.filter (is_type t) (List.filter keep l) = List.filter (is_type t) l.
Proof.
  intros H. induction l as [|a l IH]; simpl; [reflexivity|].
  destruct (keep a) eqn:Ek; simpl.
  - now rewrite IH.
  - destruct (is_type t a) eqn:Et; [|exact IH].
    apply H in Et. congruence.
Qed.

Lemma drawPanel_no_image i s h x y w d : ~ In (El_image h x y w d) (drawPanel i s).
Proof.
  unfold drawPanel. destruct (s_kind s); simpl; intuition discriminate.
Qed.

Lemma drawText_no_image s h x y w d : ~ In (El_image h x y w d) (drawText s).
Proof.
  unfold drawText. destruct (s_kind s); simpl; intuition discriminate.
Qed.

(** The only [image] element made for an image shape is the reference
    picture of its pose. *)
Lemma drawImage_image chars s h x y w d :
  In (El_image h x y w d) (drawImage chars s) ->
  exists href cid pidx,
    s_kind s = image href cid pidx (Some (ImagePose h)) /\
    x = s_x s /\ y = s_y s /\ w = or0 (s_width s) /\ d = or0 (s_height s).
Proof.
  unfold drawImage. destruct (s_kind s) as [| | | |href cid pidx pose|] eqn:Hk;
    try contradiction.
  intros H. apply in_app_or in H as [H|H].
  - destruct pose as [[pr data cm|h'|pts]|]; cbn [drawPose] in H.
    + apply in_app_or in H as [H|H].
      * apply in_concat in H as (l & Hl & He). apply in_map_iff in Hl as (c & <- & _).
        destruct (joint data (fst c)), (joint data (snd c)); simpl in He;
          intuition discriminate.
      * apply in_map_iff in H as (kv & He & _). discriminate He.
    + destruct H as [H|[]]. injection H as -> -> -> -> ->.
      exists href, cid, pidx. auto.
    + destruct H as [H|[]]. discriminate H.
    + destruct H.
  - apply in_app_or in H as [H|H].
    + destruct (List.find _ chars); simpl in H; intuition discriminate.
    + destruct pose as [[pr data cm|h'|pts]|]; try contradiction.
      destruct (isEmptyString cm); simpl in H; intuition discriminate.
Qed.

(** C4, as stated, fails: a scene made of an arrow and a freehand drawing
    leaves no element at all in the picture, which is then the picture of the
    empty scene; and so does, with the characters asked for, a scene made of
    one character image, whose bitmap is drawn nowhere. With a pose and a
    known character the image leaves its skeleton and its name label, and
    still no [image] element. *)
Lemma arrows_drawings_and_cutouts_not_composited :
  let shapes := [sampleArrow "a"; sampleDrawing "d"] in
  let cutout := mkShape "i" 0 0 (Some 300%Q) (Some 500%Q) (image "data:" "hero" 0 None) in
  let posed := layoutOf [sampleImage "i"] (mkVT 1 0 0) true [mkCharacter "hero" "Hero"] in
  (contentGroup (layoutOf shapes (mkVT 1 0 0) true []) = [] /\
   layoutOf shapes (mkVT 1 0 0) true [] = layoutOf [] (mkVT 1 0 0) true []) /\
  (contentGroup (layoutOf [cutout] (mkVT 1 0 0) true []) = [] /\
   layoutOf [cutout] (mkVT 1 0 0) true [] = layoutOf [] (mkVT 1 0 0) true []) /\
  (length (contentGroup posed) = 4 /\
   forall h x y w d, ~ In (El_image h x y w d) (contentGroup posed)).
Proof.
  intros shapes cutout posed. split; [split; reflexivity|]. split; [split; reflexivity|].
  split; [reflexivity|].
  intros h x y w d H. cbn in H. repeat destruct H as [H|H]; try discriminate H. exact H.
Qed.

(** C4, amended. The compositor makes one picture of exactly the configured
    page size, whatever the view transform is. In it: every panel has its
    polygon and its ordinal (its rank among the panels, from 1) at the
    centroid; every bubble has its outline, which ends on the tail target
    when the bubble has a tail away from its centre, and its text box; every
    text shape has its text; and, when characters are asked for, every image
    shape has what [drawImage] makes of it (pose overlay, name label, pose
    comment), otherwise image shapes add nothing. Element by element, an
    image shape has: for a skeleton pose, a line for every connection of the
    rig whose two joints are there, a circle of radius 6 on every joint, red
    for the head, and the comment in brackets 20 under its box when there
    is a comment; for a pose picture, that picture over its box; for pose
    strokes, one red path of the strokes scaled into its box; and the name
    of its character in the middle of its box when the character is among
    those to draw. The bitmap of the image shape itself is not drawn: every
    [image] element of the picture is the pose picture of an image shape.
    Drawing and arrow shapes are not looked at: removing them from the list
    leaves the picture unchanged. *)
Theorem compositor_output (Math_atan2 : Q -> Q -> Q)
    (Math_cos Math_sin Math_tan Math_sqrt : Q -> Q) (Math_PI : Q)
    (props : Props) (includeCharacters : bool) (chars : list Character) :
  let layout := getLayoutAsImage Math_atan2 Math_cos Math_sin Math_tan Math_sqrt Math_PI in
  let path := getBubblePath Math_atan2 Math_cos Math_sin Math_tan Math_sqrt Math_PI in
  let out := layout props includeCharacters chars in
  let shapes := props_shapes props in
  ((svgWidth out, svgHeight out) = canvasConfig (props_aspectRatio props) /\
   (canvasWidth out, canvasHeight out) = canvasConfig (props_aspectRatio props) /\
   viewBox out = (0%Q, 0%Q, svgWidth out, svgHeight out)) /\
  (forall vt, layout (set_viewTransform props vt) includeCharacters chars = out) /\
  (forall i s pts,
     List.filter (is_type Tpanel) shapes !! i = Some s -> s_kind s = panel pts ->
     In (El_polygon pts) (contentGroup out) /\
     In (El_text (px (getPolygonCentroid pts)) (py (getPolygonCentroid pts)) 60 "middle"
                 (pretty (i + 1)%nat)) (contentGroup out)) /\
  (forall s bt txt tail,
     In s shapes -> s_kind s = bubble bt txt tail ->
     let d := path bt (s_x s) (s_y s) (or0 (s_width s)) (or0 (s_height s)) tail in
     In (El_path d "black") (contentGroup out) /\
     In (El_foreignObject (s_x s + 10) (s_y s + 10)
                          (or0 (s_width s) - 20) (or0 (s_height s) - 20) txt)
        (contentGroup out) /\
     (forall tl, tail = Some tl ->
        tailAtCentre (s_x s) (s_y s) (or0 (s_width s)) (or0 (s_height s)) tl = false ->
        List.last d ClosePath = ClosePath /\ In (LineTo tl) d)) /\
  (forall s txt fontSize,
     In s shapes -> s_kind s = text txt fontSize ->
     In (El_text (s_x s) (s_y s) fontSize "start" txt) (contentGroup out)) /\
  (forall s e,
     includeCharacters = true -> In s shapes -> is_type Timage s = true ->
     In e (drawImage chars s) -> In e (contentGroup out)) /\
  (forall s href cid pidx pose,
     includeCharacters = true -> In s shapes -> s_kind s = image href cid pidx pose ->
     let x := s_x s in
     let y := s_y s in
     let w := or0 (s_width s) in
     let h := or0 (s_height s) in
     (forall pr data cm, pose = Some (SkeletonPose pr data cm) ->
        (forall c a b, In c skeletonConnections ->
           joint data (fst c) = Some a -> joint data (snd c) = Some b ->
           In (El_line a b) (contentGroup out)) /\
        (forall key p, In (key, p) data ->
           In (El_circle p 6 (if String.eqb key "head" then "#FF4500" else "#FF00FF"))
              (contentGroup out)) /\
        (cm <> EmptyString ->
           In (El_text (x + w / 2) (y + h + 20) 18 "middle" ("(" +:+ cm +:+ ")"))
              (contentGroup out))) /\
     (forall ref, pose = Some (ImagePose ref) ->
        In (El_image ref x y w h) (contentGroup out)) /\
     (forall points, pose = Some (DrawingPose points) ->
        In (El_path (strokesPath
                       (map (map (fun p => mkPoint (x + px p * w) (y + py p * h))) points))
                    "red")
           (contentGroup out)) /\
     (forall character,
        List.find (fun c => String.eqb (c_id c) cid) chars = Some character ->
        In (El_text (x + w / 2) (y + h / 2) 20 "middle" (c_name character))
           (contentGroup out))) /\
  (forall ref x y w h,
     In (El_image ref x y w h) (contentGroup out) ->
     includeCharacters = true /\
     exists s href cid pidx,
       In s shapes /\ s_kind s = image href cid pidx (Some (ImagePose ref)) /\
       x = s_x s /\ y = s_y s /\ w = or0 (s_width s) /\ h = or0 (s_height s)) /\
  (includeCharacters = false ->
   out = layout (set_shapes props (List.filter (fun s => negb (is_type Timage s)) shapes))
                true chars) /\
  out = layout (set_shapes props (List.filter composited shapes)) includeCharacters chars.
Proof.
  intros layout path out shapes.
  assert (Hcg : contentGroup out
                = concat (imap drawPanel (List.filter (is_type Tpanel) shapes))
                  ++ (if includeCharacters
                      then concat (map (drawImage chars) (List.filter (is_type Timage) shapes))
                      else [])
                  ++ concat (map (drawBubble Math_atan2 Math_cos Math_sin Math_tan
                                             Math_sqrt Math_PI)
                                 (List.filter (is_type Tbubble) shapes))
                  ++ concat (map drawText (List.filter (is_type Ttext) shapes))).
  { subst out layout. unfold getLayoutAsImage.
    destruct (canvasConfig (props_aspectRatio props)); reflexivity. }
  split.
  { subst out layout. unfold getLayoutAsImage.
    destruct (canvasConfig (props_aspectRatio props)); simpl. auto. }
  split; [reflexivity|]. split.
  { intros i s pts Hi Hk. rewrite Hcg.
    split; apply in_or_app; left; apply (in_concat_imap drawPanel _ i s); try exact Hi;
      unfold drawPanel; rewrite Hk; simpl; auto. }
  split.
  { intros s bt txt tail Hs Hk d.
    assert (Hin : In s (List.filter (is_type Tbubble) shapes)).
    { apply List.filter_In. split; [exact Hs|]. apply is_type_true. unfold s_type. now rewrite Hk. }
    split; [|split].
    - rewrite Hcg. apply in_or_app; right. apply in_or_app; right. apply in_or_app; left.
      apply (in_concat_map _ _ s); [exact Hin|]. unfold drawBubble. rewrite Hk. now left.
    - rewrite Hcg. apply in_or_app; right. apply in_or_app; right. apply in_or_app; left.
      apply (in_concat_map _ _ s); [exact Hin|]. unfold drawBubble. rewrite Hk. right. now left.
    - intros tl -> Hc. subst d path. unfold getBubblePath. unfold tailAtCentre in Hc.
      rewrite Hc.
      match goal with |- context [let '(_, _) := ?e in _] => destruct e as [ix iy] end.
      split.
      + match goal with
        | |- List.last (?b ++ [?m; ?a; ?c; ?z]) _ = _ =>
            change (b ++ [m; a; c; z]) with (b ++ ([m; a; c] ++ [z]));
            rewrite app_assoc; apply List.last_last
        end.
      + apply in_or_app. right. simpl. auto. }
  split.
  { intros s txt fontSize Hs Hk. rewrite Hcg.
    do 3 (apply in_or_app; right).
    apply (in_concat_map _ _ s).
    - apply List.filter_In. split; [exact Hs|]. apply is_type_true. unfold s_type. now rewrite Hk.
    - unfold drawText. rewrite Hk. now left. }
  assert (Himg : forall s e,
            includeCharacters = true -> In s shapes -> is_type Timage s = true ->
            In e (drawImage chars s) -> In e (contentGroup out)).
  { intros s e Hinc Hs Ht He. rewrite Hcg, Hinc.
    apply in_or_app; right. apply in_or_app; left.
    apply (in_concat_map _ _ s); [|exact He]. apply List.filter_In. auto. }
  split; [exact Himg|].
  split.
  { intros s href cid pidx pose Hinc Hs Hk x y w h.
    assert (Ht : is_type Timage s = true)
      by (apply is_type_true; unfold s_type; now rewrite Hk).
    assert (Hd : forall e,
              In e (drawPose x y w h pose) \/
              In e (match List.find (fun c => String.eqb (c_id c) cid) chars with
                    | Some character =>
                        [El_text (x + w / 2) (y + h / 2) 20 "middle" (c_name character)]
                    | None => []
                    end) \/
              In e (match pose with
                    | Some (SkeletonPose _ _ comment) =>
                        if isEmptyString comment then [] else
                        [El_text (x + w / 2) (y + h + 20) 18 "middle"
                                 ("(" +:+ comment +:+ ")")]
                    | _ => []
                    end) ->
              In e (contentGroup out)).
    { intros e He. apply (Himg s e Hinc Hs Ht). unfold drawImage, getShapeBBox.
      rewrite Hk. cbn [r_x r_y r_width r_height]. fold x y w h.
      apply in_or_app. destruct He as [He|[He|He]].
      - now left.
      - right. apply in_or_app. now left.
      - right. apply in_or_app. now right. }
    split; [|split; [|split]].
    - intros pr data cm ->. split; [|split].
      + intros c a b Hc Ha Hb. apply Hd. left. cbn [drawPose]. apply in_or_app. left.
        apply (in_concat_map _ _ c); [exact Hc|]. rewrite Ha, Hb. now left.
      + intros key p Hin. apply Hd. left. cbn [drawPose]. apply in_or_app. right.
        apply in_map_iff. exists (key, p). split; [reflexivity | exact Hin].
      + intros Hcm. apply Hd. right. right. destruct cm; [congruence|]. now left.
    - intros ref ->. apply Hd. left. now left.
    - intros points ->. apply Hd. left. now left.
    - intros character Hf. apply Hd. right. left. rewrite Hf. now left. }
  split.
  { intros ref x y w h Hin. rewrite Hcg in Hin.
    apply in_app_or in Hin as [Hin|Hin].
    { exfalso. apply in_concat in Hin as (l & Hl & He).
      apply list_elem_of_In, elem_of_lookup_imap_1 in Hl as (i & s & -> & _).
      exact (drawPanel_no_image _ _ _ _ _ _ _ He). }
    apply in_app_or in Hin as [Hin|Hin].
    { destruct includeCharacters; [|destruct Hin]. split; [reflexivity|].
      apply in_concat in Hin as (l & Hl & He). apply in_map_iff in Hl as (s & <- & Hs).
      apply List.filter_In in Hs as [Hs _].
      destruct (drawImage_image _ _ _ _ _ _ _ He) as (href & cid & pidx & Hk & E).
      exists s, href, cid, pidx. auto. }
    exfalso. apply in_app_or in Hin as [Hin|Hin].
    - apply in_concat in Hin as (l & Hl & He). apply in_map_iff in Hl as (s & <- & _).
      unfold drawBubble in He. destruct (s_kind s); simpl in He; intuition discriminate.
    - apply in_concat in Hin as (l & Hl & He). apply in_map_iff in Hl as (s & <- & _).
      exact (drawText_no_image _ _ _ _ _ _ He). }
  split.
  { intros ->. subst out layout. unfold getLayoutAsImage, set_shapes. simpl.
    fold shapes. destruct (canvasConfig (props_aspectRatio props)) as [w h].
    replace (List.filter (is_type Timage) (List.filter (fun s => negb (is_type Timage s)) shapes))
      with (@nil CanvasShape).
    - rewrite !filter_filter_keep
        by (intros s Hs; apply is_type_true in Hs; unfold is_type; now rewrite Hs).
      reflexivity.
    - clear. induction shapes as [|a l IH]; simpl; [reflexivity|].
      destruct (is_type Timage a) eqn:E; simpl; [exact IH | now rewrite E]. }
  subst out layout shapes. symmetry. unfold set_shapes. destruct props as [sh asp vt]. simpl.
  apply layout_filters. intros t Hd Ha.
  apply filter_filter_keep. intros s Hs. apply is_type_true in Hs.
  unfold composited, is_type. rewrite Hs. now destruct t.
Qed.

Lemma compositor_output_witness :
  let shapes := [samplePanel "p"; sampleArrow "a"; sampleImage "i"; sampleText "t"] in
  let out := layoutOf shapes (mkVT 2 30 40) true [mkCharacter "hero" "Hero"] in
  In (samplePanel "p") shapes /\
  In (El_text 10 20 30 "start" "Enter Text") (contentGroup out) /\
  In (El_line (mkPoint 150 75) (mkPoint 150 150)) (contentGroup out) /\
  In (El_circle (mkPoint 150 75) 6 "#FF4500") (contentGroup out) /\
  In (El_text (0 + 300 / 2) (0 + 500 / 2) 20 "middle" "Hero") (contentGroup out) /\
  out = layoutOf [samplePanel "p"; sampleImage "i"; sampleText "t"] (mkVT 1 0 0) true
                 [mkCharacter "hero" "Hero"].
Proof.
  intros shapes out.
  pose proof (compositor_output noTrig2 noTrig1 noTrig1 noTrig1 noTrig1 3
                (mkProps shapes "A4" (mkVT 2 30 40)) true [mkCharacter "hero" "Hero"])
    as (_ & Hvt & _ & _ & Ht & _ & Hch & _ & _ & Hf).
  assert (Hi : In (sampleImage "i") shapes) by (simpl; auto).
  destruct (Hch (sampleImage "i") _ _ _ _ eq_refl Hi eq_refl) as (Hsk & _ & _ & Hname).
  destruct (Hsk _ _ _ eq_refl) as (Hline & Hcircle & _).
  split; [now left|]. split; [|split; [|split; [|split]]].
  - apply (Ht (sampleText "t") "Enter Text" 30%Q); [simpl; auto | reflexivity].
  - apply (Hline ("head", "neck")); [now left | reflexivity | reflexivity].
  - apply (Hcircle "head" (mkPoint 150 75)). now left.
  - apply (Hname (mkCharacter "hero" "Hero")). reflexivity.
  - unfold out, layoutOf. rewrite Hf. apply (Hvt (mkVT 2 30 40)).
Defined.

(** ** Skeleton poses follow their image *)

Lemma lookup_List_map {A B : Type} (f : A -> B) (l : list A) (i : nat) :
  map f l !! i = f <$> (l !! i).
Proof.
  revert i. induction l as [|a l IH]; intros [|i]; simpl; auto.
Qed.

Lemma mapShape_lookup sid f l i s :
  l !! i = Some s ->
  mapShape sid f l !! i = Some (if String.eqb (s_id s) sid then f s else s).
Proof. intros H. unfold mapShape. now rewrite lookup_List_map, H. Qed.

Lemma mapShape_length sid f l : length (mapShape sid f l) = length l.
Proof. apply length_map. Qed.

Lemma mapJoints_keys f d : map fst (mapJoints f d) = map fst d.
Proof. induction d as [|[k p] d IH]; simpl; congruence. Qed.

Lemma mapJoints_joint f d k : joint (mapJoints f d) k = f <$> joint d k.
Proof.
  induction d as [|[k' p] d IH]; simpl; [reflexivity|].
  destruct (String.eqb k' k); [reflexivity | exact IH].
Qed.

Lemma Qpositive_true q : (0 < q)%Q -> Qpositive q = true.
Proof.
  intros H. unfold Qpositive. destruct (Qlt_le_dec 0 q) as [_|Hle]; [reflexivity|].
  destruct (Qlt_not_le _ _ H Hle).
Qed.

(** C5. An image shape with a skeleton pose. A drag move that takes the shape
    from [(x, y)] to a new origin moves each joint by the same difference.
    A resize move, worked out from the shape recorded when the gesture
    started, sends each joint [p] of the recorded skeleton to
    [newOrigin + (p - originalOrigin) * (newSize / originalSize)], coordinate
    by coordinate, when the recorded width and height are positive. In both
    cases the joints keep their names, and the pose its preset and comment. *)
Theorem skeleton_follows_image (shapes : list CanvasShape) (ed : Editor)
    (pos client : Point) (i : nat) (s : CanvasShape)
    (href cid : string) (pidx : Z) (pr : Preset) (d : SkeletonData) (cm : string) :
  shapes !! i = Some s ->
  s_kind s = image href cid pidx (Some (SkeletonPose pr d cm)) ->
  (forall startOffset,
     action ed = A_dragging (s_id s) startOffset ->
     exists ed' newShapes s' d',
       handleMouseMove shapes ed pos client = (ed', [onShapesChange newShapes false]) /\
       newShapes !! i = Some s' /\
       s_kind s' = image href cid pidx (Some (SkeletonPose pr d' cm)) /\
       map fst d' = map fst d /\
       forall key p, joint d key = Some p ->
         exists p', joint d' key = Some p' /\
           (px p' == px p + (s_x s' - s_x s))%Q /\ (py p' == py p + (s_y s' - s_y s))%Q) /\
  (forall handle original href0 cid0 pidx0 pr0 d0 cm0,
     action ed = A_resizing (s_id s) handle original ->
     s_kind original = image href0 cid0 pidx0 (Some (SkeletonPose pr0 d0 cm0)) ->
     (0 < or0 (s_width original))%Q -> (0 < or0 (s_height original))%Q ->
     exists ed' newShapes s' d',
       handleMouseMove shapes ed pos client = (ed', [onShapesChange newShapes false]) /\
       newShapes !! i = Some s' /\
       s_kind s' = image href cid pidx (Some (SkeletonPose pr d' cm)) /\
       map fst d' = map fst d0 /\
       forall key p, joint d0 key = Some p ->
         exists p', joint d' key = Some p' /\
           (px p' == s_x s' + (px p - s_x original)
                              * (or0 (s_width s') / or0 (s_width original)))%Q /\
           (py p' == s_y s' + (py p - s_y original)
                              * (or0 (s_height s') / or0 (s_height original)))%Q).
Proof.
  intros Hi Hk. split.
  - intros off Ha. unfold handleMouseMove.
    replace (action (set_cursor ed _)) with (action ed) by reflexivity. rewrite Ha.
    eexists _, _, (dragShape pos off s), _. split; [reflexivity|].
    split; [rewrite (mapShape_lookup _ _ _ _ _ Hi), eqb_self; reflexivity|].
    unfold dragShape. rewrite Hk. simpl. split; [reflexivity|].
    split; [apply mapJoints_keys|].
    intros key p Hp. eexists. rewrite mapJoints_joint, Hp. simpl.
    split; [reflexivity|]. split; reflexivity.
  - intros handle original href0 cid0 pidx0 pr0 d0 cm0 Ha Hko Hw Hh. unfold handleMouseMove.
    replace (action (set_cursor ed _)) with (action ed) by reflexivity. rewrite Ha.
    eexists _, _, (resizeShape handle original pos s), _. split; [reflexivity|].
    split; [rewrite (mapShape_lookup _ _ _ _ _ Hi), eqb_self; reflexivity|].
    unfold resizeShape. simpl. rewrite Hk, Hko.
    rewrite (Qpositive_true _ Hw), (Qpositive_true _ Hh). simpl. split; [reflexivity|].
    split; [apply mapJoints_keys|].
    intros key p Hp. eexists. rewrite mapJoints_joint, Hp. simpl.
    split; [reflexivity|]. split; reflexivity.
Qed.

Lemma skeleton_follows_image_witness :
  let s := sampleImage "i" in
  let ed := sampleEditor (A_dragging "i" (mkPoint 10 10)) in
  [s] !! 0 = Some s /\
  action ed = A_dragging (s_id s) (mkPoint 10 10) /\
  exists ed' newShapes s' d',
    handleMouseMove [s] ed (mkPoint 60 30) (mkPoint 0 0)
    = (ed', [onShapesChange newShapes false]) /\
    newShapes !! 0 = Some s' /\
    s_kind s' = image "data:" "hero" 0 (Some (SkeletonPose full d' "")) /\
    map fst d' = ["head"; "neck"].
Proof.
  intros s ed.
  pose proof (skeleton_follows_image [s] ed (mkPoint 60 30) (mkPoint 0 0) 0 s
                "data:" "hero" 0%Z full
                [("head", mkPoint 150 75); ("neck", mkPoint 150 150)] ""
                eq_refl eq_refl) as [Hdrag _].
  destruct (Hdrag (mkPoint 10 10) eq_refl) as (ed' & ns & s' & d' & H1 & H2 & H3 & H4 & _).
  split; [reflexivity|]. split; [reflexivity|].
  exists ed', ns, s', d'. auto.
Defined.

(** ** The end of a gesture *)

Lemma Qlt_bool_true a b : Qlt_bool a b = true <-> (a < b)%Q.
Proof.
  unfold Qlt_bool. destruct (Qlt_le_dec a b) as [H|H]; split; intros H'; auto.
  - discriminate.
  - destruct (Qlt_not_le _ _ H' H).
Qed.

Lemma tooSmall_spec shape w h :
  s_width shape = Some w -> s_height shape = Some h ->
  tooSmall shape = true <->
  (s_type shape = Tbubble \/ s_type shape = Tpanel) /\ ((w < 10)%Q \/ (h < 10)%Q).
Proof.
  intros Hw Hh. unfold tooSmall. rewrite Hw, Hh. simpl.
  rewrite andb_true_iff, !orb_true_iff, !is_type_true, !Qlt_bool_true. reflexivity.
Qed.

Lemma filter_keeps_others sid (l : list CanvasShape) s :
  In s l -> s_id s <> sid ->
  In s (List.filter (fun s => negb (String.eqb (s_id s) sid)) l).
Proof.
  intros Hs Hne. apply List.filter_In. split; [exact Hs|].
  apply negb_true_iff. now apply String.eqb_neq.
Qed.

Lemma filter_drops_id sid (l : list CanvasShape) s :
  In s (List.filter (fun s => negb (String.eqb (s_id s) sid)) l) -> s_id s <> sid.
Proof.
  intros Hs. apply List.filter_In in Hs as [_ Hs].
  apply negb_true_iff in Hs. now apply String.eqb_neq.
Qed.

Lemma filter_fresh sid (l : list CanvasShape) :
  (forall s, In s l -> s_id s <> sid) ->
  List.filter (fun s => negb (String.eqb (s_id s) sid)) l = l.
Proof.
  induction l as [|a l IH]; intros H; simpl; [reflexivity|].
  assert (Ha : String.eqb (s_id a) sid = false) by (apply String.eqb_neq, H; now left).
  rewrite Ha. simpl. rewrite IH; [reflexivity|]. intros s Hs. apply H. now right.
Qed.

Lemma handleMouseUp_commit (shapes : list CanvasShape) (ed : Editor) (sid : string) :
  actionTargetId (action ed) = Some sid ->
  handleMouseUp shapes ed
  = (fst (handleMouseUp shapes ed), [onShapesChange (committedShapes shapes sid) true]) /\
  action (fst (handleMouseUp shapes ed)) = A_none.
Proof.
  intros Ht. split; [|reflexivity]. unfold handleMouseUp.
  destruct ed as [tool bt act sel guide cursor bc bs]. simpl in *.
  destruct act as [|sh| | | | | | |]; simpl in *; try discriminate;
    try (injection Ht as ->; reflexivity).
  destruct (is_type Tpanel sh || is_type Tbubble sh || is_type Tarrow sh);
    simpl; injection Ht as ->; reflexivity.
Qed.

(** C6. The pointer-up that ends a creation, drag, resize, tail, vertex,
    stroke or arrow-handle gesture makes exactly one commit. When the shape
    found under the id of the gesture is a bubble or a panel whose stored
    width or height is under 10, the committed list is the current list
    without the shapes of that id: the shape is gone and every shape of another
    id stays; a shape just created at the end of the list thus leaves the list
    as it was before the creation. In every other case the current list is
    committed as it is. *)
Theorem minimum_size_discard (shapes : list CanvasShape) (ed : Editor) (sid : string) :
  actionTargetId (action ed) = Some sid ->
  exists ed' committed,
    handleMouseUp shapes ed = (ed', [onShapesChange committed true]) /\
    action ed' = A_none /\
    (forall shape w h,
       List.find (fun s => String.eqb (s_id s) sid) shapes = Some shape ->
       s_width shape = Some w -> s_height shape = Some h ->
       ((s_type shape = Tbubble \/ s_type shape = Tpanel) /\ ((w < 10)%Q \/ (h < 10)%Q) ->
        committed = List.filter (fun s => negb (String.eqb (s_id s) sid)) shapes /\
        ~ In shape committed /\
        (forall s, In s shapes -> s_id s <> sid -> In s committed) /\
        (forall before, shapes = before ++ [shape] ->
                        (forall s, In s before -> s_id s <> sid) -> committed = before)) /\
       (~ ((s_type shape = Tbubble \/ s_type shape = Tpanel) /\ ((w < 10)%Q \/ (h < 10)%Q)) ->
        committed = shapes)) /\
    (forall shape,
       List.find (fun s => String.eqb (s_id s) sid) shapes = Some shape ->
       s_type shape <> Tbubble -> s_type shape <> Tpanel -> committed = shapes) /\
    (List.find (fun s => String.eqb (s_id s) sid) shapes = None -> committed = shapes).
Proof.
  intros Ht. exists (fst (handleMouseUp shapes ed)), (committedShapes shapes sid).
  split; [apply handleMouseUp_commit, Ht|].
  split; [reflexivity|]. split.
  - intros shape w h Hf Hw Hh.
    pose proof (List.find_some _ _ Hf) as [Hin Hid]. apply String.eqb_eq in Hid.
    unfold committedShapes. rewrite Hf. split.
    + intros Hsmall. apply (tooSmall_spec shape w h Hw Hh) in Hsmall. rewrite Hsmall, Hid.
      split; [reflexivity|]. split.
      { intros Hc. apply filter_drops_id in Hc. congruence. }
      split; [intros s; apply filter_keeps_others|].
      intros before -> Hfresh. rewrite List.filter_app. simpl.
      rewrite Hid, eqb_self. simpl. rewrite app_nil_r. now apply filter_fresh.
    + intros Hbig. destruct (tooSmall shape) eqn:E; [|reflexivity].
      apply (tooSmall_spec shape w h Hw Hh) in E. contradiction.
  - split.
    + intros shape Hf Hb Hp. unfold committedShapes, tooSmall. rewrite Hf.
      destruct (is_type Tbubble shape) eqn:Eb; [apply is_type_true in Eb; contradiction|].
      destruct (is_type Tpanel shape) eqn:Ep; [apply is_type_true in Ep; contradiction|].
      reflexivity.
    + intros Hf. unfold committedShapes. now rewrite Hf.
Qed.

Lemma minimum_size_discard_witness :
  let b := sampleBubble "b" 6 30 in
  let shapes := [sampleText "t"; b] in
  let ed := sampleEditor (A_creating b) in
  actionTargetId (action ed) = Some "b" /\
  exists ed', handleMouseUp shapes ed = (ed', [onShapesChange [sampleText "t"] true]).
Proof.
  intros b shapes ed.
  destruct (minimum_size_discard shapes ed "b" eq_refl)
    as (ed' & committed & Hup & _ & Hfound & _ & _).
  split; [reflexivity|]. exists ed'.
  destruct (Hfound b 6%Q 30%Q eq_refl eq_refl eq_refl) as [Hsmall _].
  destruct Hsmall as (_ & _ & _ & Hcreated).
  { split; [now left | left; reflexivity]. }
  rewrite Hup. f_equal. f_equal. f_equal.
  apply (Hcreated [sampleText "t"]); [reflexivity|].
  intros s [<-|[]]. discriminate.
Defined.

(** ** Zooming about a point *)

Lemma clampScale_bounds (n : Q) : (1 # 10 <= clampScale n)%Q /\ (clampScale n <= 10)%Q.
Proof.
  unfold clampScale. split.
  - apply Q.le_max_l.
  - apply Q.max_lub; [discriminate | apply Q.le_min_r].
Qed.

Lemma clampScale_inside (n : Q) :
  (1 # 10 <= n)%Q -> (n <= 10)%Q -> (clampScale n == n)%Q.
Proof.
  intros Hlo Hhi. unfold clampScale.
  rewrite (Q.min_l n 10 Hhi). now apply Q.max_r.
Qed.

(** The translation chosen by the zoom keeps the point [m] of the screen on
    the same point of the document. *)
Lemma zoom_fixes_point (m t s c : Q) :
  (0 < s)%Q -> (0 < c)%Q ->
  ((m - (m - (m - t) * (c / s))) / c == (m - t) / s)%Q.
Proof.
  intros Hs Hc. field. split; intros H; rewrite H in *;
    [apply (Qlt_irrefl 0 Hs) | apply (Qlt_irrefl 0 Hc)].
Qed.

(** C7. Zooming, on a view transform of positive scale. The wheel multiplies
    the scale by 1.1 when [deltaY < 0] and divides it by 1.1 otherwise, the
    buttons multiply or divide it by 1.25; the result is clamped to
    [[0.1, 10]] (and is the product or quotient itself when that lies in the
    interval); the new translation is
    [cursor - (cursor - oldTranslate) * (newScale / oldScale)], the cursor
    being the pointer for the wheel and the centre of the viewport for the
    buttons; and the cursor is over the same point of the document before
    and after. *)
Theorem zoom_about_cursor (vt : ViewTransform) :
  (0 < scale vt)%Q ->
  (forall rectLeft rectTop clientX clientY deltaY,
     let vt' := handleWheel vt rectLeft rectTop clientX clientY deltaY in
     let cursor := mkPoint (clientX - rectLeft) (clientY - rectTop) in
     let wanted := if Qlt_le_dec deltaY 0 then (scale vt * (11 # 10))%Q
                   else (scale vt / (11 # 10))%Q in
     (scale vt' == clampScale wanted)%Q /\
     ((1 # 10 <= scale vt')%Q /\ (scale vt' <= 10)%Q) /\
     ((1 # 10 <= wanted)%Q -> (wanted <= 10)%Q -> (scale vt' == wanted)%Q) /\
     (vt_x vt' == px cursor - (px cursor - vt_x vt) * (scale vt' / scale vt))%Q /\
     (vt_y vt' == py cursor - (py cursor - vt_y vt) * (scale vt' / scale vt))%Q /\
     Point_eq (screenToDocument vt' cursor) (screenToDocument vt cursor)) /\
  (forall viewWidth viewHeight direction,
     let vt' := zoom vt viewWidth viewHeight direction in
     let cursor := mkPoint (viewWidth / 2) (viewHeight / 2) in
     let wanted := match direction with
                   | zoom_in => (scale vt * (125 # 100))%Q
                   | zoom_out => (scale vt / (125 # 100))%Q
                   end in
     (scale vt' == clampScale wanted)%Q /\
     ((1 # 10 <= scale vt')%Q /\ (scale vt' <= 10)%Q) /\
     ((1 # 10 <= wanted)%Q -> (wanted <= 10)%Q -> (scale vt' == wanted)%Q) /\
     (vt_x vt' == px cursor - (px cursor - vt_x vt) * (scale vt' / scale vt))%Q /\
     (vt_y vt' == py cursor - (py cursor - vt_y vt) * (scale vt' / scale vt))%Q /\
     Point_eq (screenToDocument vt' cursor) (screenToDocument vt cursor)).
Proof.
  intros Hs.
  assert (Hpos : forall n, (0 < clampScale n)%Q).
  { intros n. apply Qlt_le_trans with (1 # 10)%Q; [reflexivity | apply clampScale_bounds]. }
  split.
  - intros rectLeft rectTop clientX clientY deltaY vt' cursor wanted.
    split; [reflexivity|]. split; [apply clampScale_bounds|].
    split; [apply clampScale_inside|]. split; [reflexivity|]. split; [reflexivity|].
    split; simpl; apply zoom_fixes_point; auto.
  - intros viewWidth viewHeight direction vt' cursor wanted.
    split; [reflexivity|]. split; [apply clampScale_bounds|].
    split; [apply clampScale_inside|]. split; [reflexivity|]. split; [reflexivity|].
    split; simpl; apply zoom_fixes_point; auto.
Qed.

Lemma zoom_about_cursor_witness :
  let vt := mkVT 1 20 30 in
  let vt' := handleWheel vt 0 0 200 100 (-1) in
  let cursor := mkPoint (200 - 0) (100 - 0) in
  (0 < scale vt)%Q /\
  (scale vt' == 11 # 10)%Q /\
  Point_eq (screenToDocument vt' cursor) (screenToDocument vt cursor).
Proof.
  intros vt vt' cursor.
  assert (Hs : (0 < scale vt)%Q) by reflexivity.
  destruct (zoom_about_cursor vt Hs) as [Hwheel _].
  destruct (Hwheel 0%Q 0%Q 200%Q 100%Q (-1)%Q) as (_ & _ & Hin & _ & _ & Hfix).
  split; [exact Hs|]. split; [|exact Hfix].
  apply Hin; discriminate.
Defined.

(** ** Least and greatest coordinates *)

Lemma foldl_Qmin_least (r : list Q) (x : Q) : isLeast (foldl Qmin x r) (x :: r).
Proof.
  revert x. induction r as [|y r IH]; intros x; simpl.
  - split; [exists x; split; [now left | reflexivity]|].
    intros u [<-|[]]. apply Qle_refl.
  - destruct (IH (Qmin x y)) as [(z & Hz & Hzm) Hle]. split.
    + destruct Hz as [<-|Hz].
      * destruct (Q.min_spec x y) as [[_ H]|[_ H]].
        -- exists x. split; [now left | now rewrite <- Hzm, H].
        -- exists y. split; [right; now left | now rewrite <- Hzm, H].
      * exists z. split; [right; now right | exact Hzm].
    + intros u [<-|[<-|Hu]].
      * eapply Qle_trans; [apply Hle; now left | apply Q.le_min_l].
      * eapply Qle_trans; [apply Hle; now left | apply Q.le_min_r].
      * apply Hle. now right.
Qed.

Lemma foldl_Qmax_greatest (r : list Q) (x : Q) : isGreatest (foldl Qmax x r) (x :: r).
Proof.
  revert x. induction r as [|y r IH]; intros x; simpl.
  - split; [exists x; split; [now left | reflexivity]|].
    intros u [<-|[]]. apply Qle_refl.
  - destruct (IH (Qmax x y)) as [(z & Hz & Hzm) Hle]. split.
    + destruct Hz as [<-|Hz].
      * destruct (Q.max_spec x y) as [[_ H]|[_ H]].
        -- exists y. split; [right; now left | now rewrite <- Hzm, H].
        -- exists x. split; [now left | now rewrite <- Hzm, H].
      * exists z. split; [right; now right | exact Hzm].
    + intros u [<-|[<-|Hu]].
      * eapply Qle_trans; [apply Q.le_max_l | apply Hle; now left].
      * eapply Qle_trans; [apply Q.le_max_r | apply Hle; now left].
      * apply Hle. now right.
Qed.

Lemma Math_min_least (xs : list Q) : xs <> [] -> isLeast (Math_min xs) xs.
Proof. destruct xs as [|x r]; [congruence|]. intros _. apply foldl_Qmin_least. Qed.

Lemma Math_max_greatest (xs : list Q) : xs <> [] -> isGreatest (Math_max xs) xs.
Proof. destruct xs as [|x r]; [congruence|]. intros _. apply foldl_Qmax_greatest. Qed.

Lemma isGreatest_Qeq m m' xs : (m == m')%Q -> isGreatest m xs -> isGreatest m' xs.
Proof.
  intros E [(x & Hx & Hxm) Hle]. split.
  - exists x. split; [exact Hx | now rewrite Hxm].
  - intros y Hy. rewrite <- E. now apply Hle.
Qed.

(** The box computed from a non-empty list of points is tight. *)
Lemma boxOfPoints_tight (pts : list Point) : pts <> [] -> tightBox (boxOfPoints pts) pts.
Proof.
  intros Hne.
  assert (Hx : map px pts <> []) by (destruct pts; [congruence | discriminate]).
  assert (Hy : map py pts <> []) by (destruct pts; [congruence | discriminate]).
  unfold tightBox, boxOfPoints. simpl.
  split; [now apply Math_min_least|]. split; [now apply Math_min_least|]. split.
  - apply (isGreatest_Qeq (Math_max (map px pts))); [ring | now apply Math_max_greatest].
  - apply (isGreatest_Qeq (Math_max (map py pts))); [ring | now apply Math_max_greatest].
Qed.

(** ** The centroid loop *)

Lemma foldl_List_map {A B C : Type} (f : A -> C -> A) (g : B -> C) (a : A) (l : list B) :
  foldl f a (map g l) = foldl (fun acc x => f acc (g x)) a l.
Proof. revert a. induction l as [|x l IH]; intros a; simpl; auto. Qed.

Lemma foldl_ext_in {A B : Type} (f g : A -> B -> A) (a : A) (l : list B) :
  (forall acc x, In x l -> f acc x = g acc x) -> foldl f a l = foldl g a l.
Proof.
  revert a. induction l as [|x l IH]; intros a H; simpl; [reflexivity|].
  rewrite H by now left. apply IH. intros acc y Hy. apply H. now right.
Qed.

(** The neighbours of a list, by index. *)
Lemma adjacent_index {A : Type} (d : A) (l : list A) :
  adjacent l = map (fun i => (nth i l d, nth (S i) l d)) (seq 0 (length l - 1)).
Proof.
  induction l as [|a [|b r] IH]; [reflexivity | reflexivity |].
  change (adjacent (a :: b :: r)) with ((a, b) :: adjacent (b :: r)).
  rewrite IH.
  replace (length (a :: b :: r) - 1) with (S (length (b :: r) - 1)) by (simpl; lia).
  cbn [seq map nth]. f_equal. rewrite <- seq_shift, map_map. reflexivity.
Qed.

(** The loop of [getPolygonCentroid] visits the edges of the closed polygon. *)
Lemma centroidSums_edges (pts : list Point) :
  centroidSums pts = foldl edgeStep (0%Q, 0%Q, 0%Q) (edgesOf pts).
Proof.
  unfold centroidSums, edgesOf.
  destruct pts as [|p0 r]; [reflexivity|].
  set (pts := p0 :: r). set (n := length pts).
  rewrite (adjacent_index (mkPoint 0 0)), foldl_List_map.
  replace (length (pts ++ take 1 pts) - 1) with n
    by (rewrite length_app; subst n pts; simpl; lia).
  apply foldl_ext_in. intros [[a cx] cy] i Hi.
  apply in_seq in Hi. simpl in Hi. fold n in Hi.
  unfold centroidStep, edgeStep, pointAt. fold n.
  rewrite <- !(nth_lookup pts _ (mkPoint 0 0)).
  assert (H1 : nth i (pts ++ take 1 pts) (mkPoint 0 0) = nth i pts (mkPoint 0 0)).
  { apply app_nth1. fold n. lia. }
  assert (H2 : nth (S i) (pts ++ take 1 pts) (mkPoint 0 0)
               = nth ((i + 1) mod n) pts (mkPoint 0 0)).
  { destruct (decide (S i < n)) as [Hlt|Hge].
    - rewrite Nat.mod_small by lia. rewrite app_nth1 by (fold n; lia).
      f_equal. lia.
    - assert (Hn : S i = n) by lia. rewrite app_nth2 by (fold n; lia). fold n.
      replace (i + 1) with n by lia. rewrite Nat.Div0.mod_same.
      rewrite Hn, Nat.sub_diag. reflexivity. }
  rewrite H1, H2. reflexivity.
Qed.

Lemma foldl_edgeStep_sums (edges : list (Point * Point)) (a cx cy : Q) :
  let '(a', cx', cy') := foldl edgeStep (a, cx, cy) edges in
  (a' == a + sumQ (map (fun e => cross (fst e) (snd e)) edges))%Q /\
  (cx' == cx + sumQ (map (fun e => (px (fst e) + px (snd e)) * cross (fst e) (snd e)) edges))%Q /\
  (cy' == cy + sumQ (map (fun e => (py (fst e) + py (snd e)) * cross (fst e) (snd e)) edges))%Q.
Proof.
  revert a cx cy. induction edges as [|[p q] edges IH]; intros a cx cy.
  - simpl. repeat split; ring.
  - change (foldl edgeStep (a, cx, cy) ((p, q) :: edges))
      with (foldl edgeStep (a + (px p * py q - px q * py p),
                            cx + (px p + px q) * (px p * py q - px q * py p),
                            cy + (py p + py q) * (px p * py q - px q * py p))%Q edges).
    specialize (IH (a + (px p * py q - px q * py p))%Q
                   (cx + (px p + px q) * (px p * py q - px q * py p))%Q
                   (cy + (py p + py q) * (px p * py q - px q * py p))%Q).
    destruct (foldl edgeStep _ edges) as [[a' cx'] cy'].
    destruct IH as (Ha & Hx & Hy). simpl.
    rewrite Ha, Hx, Hy. unfold cross. simpl. repeat split; ring.
Qed.

(** What the loop leaves in its three accumulators. *)
Lemma centroidSums_spec (pts : list Point) :
  let '(a, cx, cy) := centroidSums pts in
  (a / 2 == signedArea pts)%Q /\
  (cx == sumQ (map (fun e => (px (fst e) + px (snd e)) * cross (fst e) (snd e))
                   (edgesOf pts)))%Q /\
  (cy == sumQ (map (fun e => (py (fst e) + py (snd e)) * cross (fst e) (snd e))
                   (edgesOf pts)))%Q.
Proof.
  rewrite centroidSums_edges.
  pose proof (foldl_edgeStep_sums (edgesOf pts) 0 0 0) as H.
  destruct (foldl edgeStep _ (edgesOf pts)) as [[a cx] cy].
  destruct H as (Ha & Hx & Hy). unfold signedArea.
  rewrite Qplus_0_l in Ha, Hx, Hy.
  rewrite Ha, Hx, Hy. repeat split; reflexivity.
Qed.

(** The two outcomes of [getPolygonCentroid] on three points or more. *)
Lemma getPolygonCentroid_cases (pts : list Point) :
  3 <= length pts ->
  ((Qabs (signedArea pts) < epsilon)%Q -> getPolygonCentroid pts = getBBoxCenter pts) /\
  ((epsilon <= Qabs (signedArea pts))%Q ->
   Point_eq (getPolygonCentroid pts) (centroidFormula pts)).
Proof.
  intros Hlen. unfold getPolygonCentroid.
  destruct (Nat.ltb_spec (length pts) 3) as [Hlt|_]; [lia|].
  pose proof (centroidSums_spec pts) as H.
  destruct (centroidSums pts) as [[a cx] cy]. destruct H as (Ha & Hx & Hy).
  destruct (Qlt_le_dec (Qabs (a / 2)) epsilon) as [Hsmall|Hbig].
  - split; [reflexivity|]. intros Hb. rewrite Ha in Hsmall.
    destruct (Qlt_not_le _ _ Hsmall Hb).
  - split.
    + intros Hs. rewrite Ha in Hbig. destruct (Qlt_not_le _ _ Hs Hbig).
    + intros _. unfold centroidFormula, Point_eq. simpl.
      rewrite <- Ha, <- Hx, <- Hy. split; reflexivity.
Qed.

(** ** Collinear points have no area *)

Lemma adjacent_map {A B : Type} (g : A -> B) (l : list A) :
  adjacent (map g l) = map (fun e => (g (fst e), g (snd e))) (adjacent l).
Proof.
  induction l as [|a [|b r] IH]; [reflexivity | reflexivity |].
  change (adjacent (map g (a :: b :: r)))
    with ((g a, g b) :: adjacent (map g (b :: r))).
  now rewrite IH.
Qed.

Lemma sumQ_cons (x : Q) (l : list Q) : sumQ (x :: l) = (x + sumQ l)%Q.
Proof. reflexivity. Qed.

(** The differences between neighbours add up to last minus first. *)
Lemma telescope (l : list Q) (d : Q) :
  (sumQ (map (fun e => snd e - fst e) (adjacent l)) == List.last l d - hd d l)%Q.
Proof.
  induction l as [|a [|b r] IH]; [simpl; ring | simpl; ring |].
  change (adjacent (a :: b :: r)) with ((a, b) :: adjacent (b :: r)).
  change (List.last (a :: b :: r) d) with (List.last (b :: r) d).
  rewrite map_cons, sumQ_cons, IH. simpl. ring.
Qed.

Lemma sumQ_scale {A : Type} (f h : A -> Q) (k : Q) (l : list A) :
  (forall e, f e == k * h e)%Q -> (sumQ (map f l) == k * sumQ (map h l))%Q.
Proof.
  intros H. induction l as [|e l IH]; [simpl; ring|].
  rewrite !map_cons, !sumQ_cons, IH, H. ring.
Qed.

Lemma signedArea_onLine (o d : Point) (ts : list Q) :
  (signedArea (onLine o d ts) == 0)%Q.
Proof.
  unfold signedArea, edgesOf, onLine.
  set (g := fun t : Q => mkPoint (px o + t * px d) (py o + t * py d)).
  assert (Ht : map g ts ++ take 1 (map g ts) = map g (ts ++ take 1 ts)).
  { rewrite map_app. destruct ts; reflexivity. }
  rewrite Ht, adjacent_map, map_map.
  rewrite (sumQ_scale _ (fun e : Q * Q => (snd e - fst e)%Q) (px o * py d - px d * py o)%Q).
  - rewrite (telescope _ 0).
    destruct ts as [|t0 r]; [simpl; field|].
    change ((t0 :: r) ++ take 1 (t0 :: r)) with ((t0 :: r) ++ [t0]).
    rewrite List.last_last. simpl hd. field.
  - intros [t t']. unfold cross, g. simpl. ring.
Qed.

Lemma getBBoxCenter_middle (pts : list Point) :
  pts <> [] ->
  exists minX maxX minY maxY,
    isLeast minX (map px pts) /\ isGreatest maxX (map px pts) /\
    isLeast minY (map py pts) /\ isGreatest maxY (map py pts) /\
    (px (getBBoxCenter pts) == (minX + maxX) / 2)%Q /\
    (py (getBBoxCenter pts) == (minY + maxY) / 2)%Q.
Proof.
  intros Hne.
  assert (Hx : map px pts <> []) by (destruct pts; [congruence | discriminate]).
  assert (Hy : map py pts <> []) by (destruct pts; [congruence | discriminate]).
  exists (Math_min (map px pts)), (Math_max (map px pts)),
         (Math_min (map py pts)), (Math_max (map py pts)).
  split; [now apply Math_min_least|]. split; [now apply Math_max_greatest|].
  split; [now apply Math_min_least|]. split; [now apply Math_max_greatest|].
  unfold getBBoxCenter. destruct pts as [|p r]; [congruence|].
  change (length (p :: r) =? 0) with false. cbv iota.
  generalize (Math_min (map px (p :: r))) (Math_max (map px (p :: r)))
             (Math_min (map py (p :: r))) (Math_max (map py (p :: r))).
  intros a b c e. simpl. split; field.
Qed.

(** C8. [getPolygonCentroid] answers with the centre of the bounding box (the
    point half way between the least and the greatest coordinates, and
    [(0, 0)] for no point at all) when there are fewer than three points, and
    when the absolute value of the signed area is under [epsilon = 1e-6], as
    it is for points on one line, whose signed area is 0; otherwise it answers
    with the centroid weighted by the signed area. On the square
    (0,0), (10,0), (10,10), (0,10) the answer is (5, 5). *)
Theorem centroid_fallback :
  (forall pts, length pts < 3 -> getPolygonCentroid pts = getBBoxCenter pts) /\
  (forall pts, 3 <= length pts -> (Qabs (signedArea pts) < epsilon)%Q ->
               getPolygonCentroid pts = getBBoxCenter pts) /\
  (forall o d ts, (signedArea (onLine o d ts) == 0)%Q /\
                  getPolygonCentroid (onLine o d ts) = getBBoxCenter (onLine o d ts)) /\
  (forall pts, 3 <= length pts -> (epsilon <= Qabs (signedArea pts))%Q ->
               Point_eq (getPolygonCentroid pts) (centroidFormula pts)) /\
  (getBBoxCenter [] = mkPoint 0 0 /\
   forall pts, pts <> [] ->
     exists minX maxX minY maxY,
       isLeast minX (map px pts) /\ isGreatest maxX (map px pts) /\
       isLeast minY (map py pts) /\ isGreatest maxY (map py pts) /\
       (px (getBBoxCenter pts) == (minX + maxX) / 2)%Q /\
       (py (getBBoxCenter pts) == (minY + maxY) / 2)%Q) /\
  Point_eq (getPolygonCentroid square10) (mkPoint 5 5).
Proof.
  assert (Hshort : forall pts, length pts < 3 -> getPolygonCentroid pts = getBBoxCenter pts).
  { intros pts H. unfold getPolygonCentroid.
    destruct (Nat.ltb_spec (length pts) 3); [reflexivity | lia]. }
  split; [exact Hshort|]. split.
  { intros pts Hlen. apply getPolygonCentroid_cases, Hlen. }
  split.
  { intros o d ts. split; [apply signedArea_onLine|].
    destruct (Nat.lt_ge_cases (length (onLine o d ts)) 3) as [Hlt|Hge]; [now apply Hshort|].
    apply getPolygonCentroid_cases; [exact Hge|].
    rewrite signedArea_onLine. reflexivity. }
  split.
  { intros pts Hlen. apply getPolygonCentroid_cases, Hlen. }
  split.
  { split; [reflexivity | apply getBBoxCenter_middle]. }
  vm_compute. split; reflexivity.
Qed.

Lemma centroid_fallback_witness :
  let pts := [mkPoint 0 0; mkPoint 1 2; mkPoint 2 4; mkPoint 3 6] in
  length [mkPoint 4 4; mkPoint 8 2] < 3 /\
  getPolygonCentroid [mkPoint 4 4; mkPoint 8 2] = getBBoxCenter [mkPoint 4 4; mkPoint 8 2] /\
  getPolygonCentroid (onLine (mkPoint 0 0) (mkPoint 1 2) [0; 1; 2; 3]%Q)
  = getBBoxCenter (onLine (mkPoint 0 0) (mkPoint 1 2) [0; 1; 2; 3]%Q).
Proof.
  intros pts. destruct centroid_fallback as (Hshort & _ & Hline & _).
  assert (Hlen : length [mkPoint 4 4; mkPoint 8 2] < 3) by (simpl; lia).
  split; [exact Hlen|]. split; [exact (Hshort _ Hlen)|].
  exact (proj2 (Hline (mkPoint 0 0) (mkPoint 1 2) [0; 1; 2; 3]%Q)).
Defined.

(** ** Panels and their stored box *)

(** X16. Dragging a panel stores the tight box of the moved vertices, of
    which there are as many as before. *)
Lemma panel_drag_box_tight (s : CanvasShape) (pts : list Point) (pos startOffset : Point) :
  s_kind s = panel pts -> pts <> [] ->
  exists pts' b,
    s_kind (dragShape pos startOffset s) = panel pts' /\
    length pts' = length pts /\
    storedBox (dragShape pos startOffset s) = Some b /\
    tightBox b pts'.
Proof.
  intros Hk Hne. unfold dragShape. rewrite Hk.
  eexists _, _. split; [reflexivity|]. split; [apply length_map|].
  split; [reflexivity|].
  match goal with |- tightBox ?b _ => replace b with (boxOfPoints (map
    (movePoint (px pos - px startOffset - s_x s) (py pos - py startOffset - s_y s)) pts)) end.
  - apply boxOfPoints_tight. destruct pts; [congruence | discriminate].
  - now destruct (boxOfPoints _).
Qed.

(** C9 fails on the code: a move of the vertex-editing gesture replaces the
    vertex and copies the stored box. On the square panel of side 100,
    dragging the third vertex to (200, 200) leaves the stored box at
    100 by 100, which is not the tight box of the new vertices; the
    pointer-up then commits that shape as it is. *)
Theorem vertex_edit_keeps_old_box :
  let s := samplePanel "p" in
  let ed := sampleEditor (A_editingPanelVertex "p" 2) in
  let pts' := [mkPoint 0 0; mkPoint 100 0; mkPoint 200 200; mkPoint 0 100] in
  let s' := mkShape "p" 0 0 (Some 100%Q) (Some 100%Q) (panel pts') in
  tightBox (mkRect 0 0 100 100) [mkPoint 0 0; mkPoint 100 0; mkPoint 100 100; mkPoint 0 100] /\
  handleMouseMove [s] ed (mkPoint 200 200) (mkPoint 0 0) = (ed, [onShapesChange [s'] false]) /\
  storedBox s' = Some (mkRect 0 0 100 100) /\
  ~ tightBox (mkRect 0 0 100 100) pts' /\
  snd (handleMouseUp [s'] ed) = [onShapesChange [s'] true].
Proof.
  intros s ed pts' s'. split.
  { repeat split; simpl;
      try (eexists; split; [|reflexivity]; simpl; tauto);
      intros x Hx; repeat destruct Hx as [<-|Hx]; try discriminate; contradiction. }
  split; [reflexivity|]. split; [reflexivity|]. split; [|reflexivity].
  intros (_ & _ & [_ Hmax] & _). specialize (Hmax 200%Q). simpl in Hmax.
  apply Hmax; [tauto | reflexivity].
Qed.

(** ** Resizing *)

Lemma resizeShape_box (handle : string) (original : CanvasShape) (pos : Point) (s : CanvasShape) :
  let b := resizeBox handle original pos in
  let s' := resizeShape handle original pos s in
  s_id s' = s_id s /\ s_x s' = r_x b /\ s_y s' = r_y b /\
  s_width s' = Some (r_width b) /\ s_height s' = Some (r_height b).
Proof.
  unfold resizeShape. simpl.
  repeat match goal with
         | |- context [match ?x with _ => _ end] => destruct x
         end; simpl; auto.
Qed.

Lemma resizeBox_minimum (handle : string) (original : CanvasShape) (pos : Point) :
  In handle resizeHandles ->
  (20 <= r_width (resizeBox handle original pos))%Q /\
  (20 <= r_height (resizeBox handle original pos))%Q.
Proof.
  intros Hh. unfold resizeHandles in Hh. simpl in Hh.
  destruct Hh as [<-|[<-|[<-|[<-|[]]]]]; unfold resizeBox;
    change (includes "right" "top-left") with false;
    change (includes "bottom" "top-left") with false;
    change (includes "left" "top-left") with true;
    change (includes "top" "top-left") with true;
    change (includes "right" "top-right") with true;
    change (includes "bottom" "top-right") with false;
    change (includes "left" "top-right") with false;
    change (includes "top" "top-right") with true;
    change (includes "right" "bottom-left") with false;
    change (includes "bottom" "bottom-left") with true;
    change (includes "left" "bottom-left") with true;
    change (includes "top" "bottom-left") with false;
    change (includes "right" "bottom-right") with true;
    change (includes "bottom" "bottom-right") with true;
    change (includes "left" "bottom-right") with false;
    change (includes "top" "bottom-right") with false;
    simpl; split; apply Q.le_max_l.
Qed.

(** C10. A move of a resize gesture, with any of the four corner handles and
    the pointer anywhere, gives the resized shape a width and a height of at
    least 20. *)
Theorem resize_minimum (shapes : list CanvasShape) (ed : Editor) (pos client : Point)
    (i : nat) (s : CanvasShape) (handle : string) (original : CanvasShape) :
  shapes !! i = Some s ->
  action ed = A_resizing (s_id s) handle original ->
  In handle resizeHandles ->
  exists ed' newShapes s' w h,
    handleMouseMove shapes ed pos client = (ed', [onShapesChange newShapes false]) /\
    newShapes !! i = Some s' /\
    s_width s' = Some w /\ s_height s' = Some h /\
    (20 <= w)%Q /\ (20 <= h)%Q.
Proof.
  intros Hi Ha Hh. unfold handleMouseMove.
  replace (action (set_cursor ed _)) with (action ed) by reflexivity. rewrite Ha.
  destruct (resizeShape_box handle original pos s) as (_ & _ & _ & Hw & Hht).
  destruct (resizeBox_minimum handle original pos Hh) as [Hw20 Hh20].
  eexists _, _, (resizeShape handle original pos s), _, _.
  split; [reflexivity|].
  split; [rewrite (mapShape_lookup _ _ _ _ _ Hi), eqb_self; reflexivity|].
  split; [exact Hw|]. split; [exact Hht|]. split; assumption.
Qed.

Lemma resize_minimum_witness :
  let s := sampleBubble "b" 120 80 in
  let ed := sampleEditor (A_resizing "b" "top-left" s) in
  [s] !! 0 = Some s /\ In "top-left" resizeHandles /\
  exists ed' newShapes s' w h,
    handleMouseMove [s] ed (mkPoint 155 115) (mkPoint 0 0)
    = (ed', [onShapesChange newShapes false]) /\
    newShapes !! 0 = Some s' /\
    s_width s' = Some w /\ s_height s' = Some h /\ (20 <= w)%Q /\ (20 <= h)%Q.
Proof.
  intros s ed.
  assert (Hin : In "top-left" resizeHandles) by (now left).
  split; [reflexivity|]. split; [exact Hin|].
  exact (resize_minimum [s] ed (mkPoint 155 115) (mkPoint 0 0) 0 s "top-left" s
           eq_refl eq_refl Hin).
Defined.

(** Inserting the middle of an edge leaves a tight box tight. *)
Lemma midpoint_insert_keeps_box (b : Rect) (pts : list Point) (edgeIndex : nat) :
  edgeIndex < length pts -> tightBox b pts -> tightBox b (insertMidpoint pts edgeIndex).
Proof.
  intros Hlt Ht. unfold insertMidpoint.
  set (p1 := pointAt pts edgeIndex).
  set (p2 := pointAt pts ((edgeIndex + 1) mod length pts)).
  assert (Hin : forall j, j < length pts -> In (pointAt pts j) pts).
  { intros j Hj. unfold pointAt.
    destruct (lookup_lt_is_Some_2 pts j Hj) as [q Hq]. rewrite Hq. simpl.
    apply list_elem_of_In. eapply list_elem_of_lookup_2. exact Hq. }
  assert (H1 : In p1 pts) by (apply Hin; exact Hlt).
  assert (H2 : In p2 pts) by (apply Hin, Nat.mod_upper_bound; lia).
  set (mid := mkPoint ((px p1 + px p2) / 2) ((py p1 + py p2) / 2)).
  assert (Hsplit : forall (f : Point -> Q) x,
            In x (map f (take (edgeIndex + 1) pts ++ mid :: drop (edgeIndex + 1) pts))
            <-> x = f mid \/ In x (map f pts)).
  { intros f x. rewrite <- (take_drop (edgeIndex + 1) pts) at 3.
    rewrite !map_app, !in_app_iff. simpl. intuition. }
  assert (Hleast : forall (f : Point -> Q) m,
            (f mid == (f p1 + f p2) / 2)%Q ->
            isLeast m (map f pts) ->
            isLeast m (map f (take (edgeIndex + 1) pts ++ mid :: drop (edgeIndex + 1) pts))).
  { intros f m Hmid [(x & Hx & Hxm) Hle]. split.
    - exists x. split; [apply Hsplit; now right | exact Hxm].
    - intros y Hy. apply Hsplit in Hy as [->|Hy]; [|now apply Hle].
      rewrite Hmid.
      assert (Ha : (m <= f p1)%Q) by (apply Hle, in_map, H1).
      assert (Hb : (m <= f p2)%Q) by (apply Hle, in_map, H2).
      apply Qle_shift_div_l; [reflexivity|]. lra. }
  assert (Hgreatest : forall (f : Point -> Q) m,
            (f mid == (f p1 + f p2) / 2)%Q ->
            isGreatest m (map f pts) ->
            isGreatest m (map f (take (edgeIndex + 1) pts ++ mid :: drop (edgeIndex + 1) pts))).
  { intros f m Hmid [(x & Hx & Hxm) Hle]. split.
    - exists x. split; [apply Hsplit; now right | exact Hxm].
    - intros y Hy. apply Hsplit in Hy as [->|Hy]; [|now apply Hle].
      rewrite Hmid.
      assert (Ha : (f p1 <= m)%Q) by (apply Hle, in_map, H1).
      assert (Hb : (f p2 <= m)%Q) by (apply Hle, in_map, H2).
      apply Qle_shift_div_r; [reflexivity|]. lra. }
  destruct Ht as (Hx & Hy & HX & HY).
  split; [apply Hleast; [reflexivity | exact Hx]|].
  split; [apply Hleast; [reflexivity | exact Hy]|].
  split; [apply Hgreatest; [reflexivity | exact HX] | apply Hgreatest; [reflexivity | exact HY]].
Qed.

(** ** The index stays inside the history *)

Lemma initialPage_index pid : indexInHistory (initialPage pid).
Proof. unfold indexInHistory. simpl. lia. Qed.

Lemma shapesChangePage_index existingPanels trim cur newShapes recordHistory p :
  indexInHistory p ->
  indexInHistory (shapesChangePage existingPanels trim cur newShapes recordHistory p).
Proof.
  unfold indexInHistory, shapesChangePage, array_set. intros H.
  destruct (negb (String.eqb (p_id p) cur)); [exact H|].
  destruct recordHistory; simpl.
  - rewrite length_app. simpl. lia.
  - case_decide; [now rewrite length_insert | lia].
Qed.

Lemma undoPage_index cur p : indexInHistory p -> indexInHistory (undoPage cur p).
Proof.
  unfold indexInHistory, undoPage. intros H.
  destruct (negb (String.eqb (p_id p) cur) || (shapesHistoryIndex p <=? 0)); simpl; lia.
Qed.

Lemma redoPage_index cur p : indexInHistory p -> indexInHistory (redoPage cur p).
Proof.
  unfold indexInHistory, redoPage. intros H.
  destruct (Nat.leb_spec (length (shapesHistory p) - 1) (shapesHistoryIndex p));
    destruct (negb (String.eqb (p_id p) cur)); simpl; lia.
Qed.

(** ** Gestures, event by event *)

Lemma handleMouseMove_edits (shapes : list CanvasShape) (ed : Editor) (pos client : Point) :
  editsShapes (action ed) = true ->
  exists ed' newShapes,
    handleMouseMove shapes ed pos client = (ed', [onShapesChange newShapes false]) /\
    editsShapes (action ed') = true.
Proof.
  intros He. unfold handleMouseMove.
  replace (action (set_cursor ed _)) with (action ed) by reflexivity.
  destruct (action ed) eqn:Ea; try discriminate He;
    try (eexists _, _; split; [reflexivity | simpl; rewrite ?Ea; reflexivity]).
  destruct (is_type Tarrow shape), (is_type Tpanel shape);
    eexists _, _; (split; [reflexivity | simpl; rewrite ?Ea; reflexivity]).
Qed.

Lemma handleMouseUp_edits (shapes : list CanvasShape) (ed : Editor) :
  editsShapes (action ed) = true ->
  exists ed' committed,
    handleMouseUp shapes ed = (ed', [onShapesChange committed true]) /\
    action ed' = A_none.
Proof.
  intros He.
  assert (Hid : exists sid, actionTargetId (action ed) = Some sid).
  { destruct (action ed); try discriminate He; simpl; eauto. }
  destruct Hid as [sid Hsid].
  destruct (handleMouseUp_commit shapes ed sid Hsid) as [H1 H2].
  eexists _, _. split; [exact H1 | exact H2].
Qed.

(** X17. A gesture that edits shapes, as the handlers run it on the current page:
    the moves leave the index and the length of the history alone, and the
    pointer-up leaves [index + 2] snapshots with the index on the last. *)
Lemma gesture_history (existingPanels : string -> nat -> string) (trim : string -> string)
    (cur : string) (moves : list (Point * Point)) (p : Page) (ed : Editor) :
  p_id p = cur -> indexInHistory p -> editsShapes (action ed) = true ->
  let st := foldl (step existingPanels trim cur) (p, ed)
                  (map (fun m => MouseMove (fst m) (snd m)) moves) in
  let st' := step existingPanels trim cur st MouseUp in
  shapesHistoryIndex (fst st) = shapesHistoryIndex p /\
  length (shapesHistory (fst st)) = length (shapesHistory p) /\
  shapesHistoryIndex (fst st') = shapesHistoryIndex p + 1 /\
  length (shapesHistory (fst st')) = shapesHistoryIndex p + 2 /\
  action (snd st') = A_none.
Proof.
  revert p ed. induction moves as [|[pos client] moves IH]; intros p ed Hid Hin He.
  - destruct (handleMouseUp_edits (shapes p) ed He) as (ed' & c & Hup & Hnone).
    cbn [map foldl fst snd]. unfold step. rewrite Hup. cbn [foldl applyCall fst snd].
    destruct (commit_fields existingPanels trim cur p c Hid) as (_ & _ & Hh & Hi & _).
    unfold commit in Hh, Hi. rewrite Hh, Hi, length_app, length_take.
    unfold indexInHistory in Hin. simpl. repeat split; try lia. exact Hnone.
  - destruct (handleMouseMove_edits (shapes p) ed pos client He) as (ed' & ns & Hmv & He').
    cbn [map foldl fst snd].
    replace (step existingPanels trim cur (p, ed) (MouseMove pos client))
      with (shapesChangePage existingPanels trim cur ns false p, ed')
      by (unfold step; now rewrite Hmv).
    destruct (update_fields existingPanels trim cur p ns Hid Hin) as (U1 & _ & U3 & U4).
    unfold updateInPlace in U1, U3, U4.
    assert (Hin' : indexInHistory (shapesChangePage existingPanels trim cur ns false p)).
    { now apply shapesChangePage_index. }
    specialize (IH _ ed' U1 Hin' He'). cbv zeta in IH.
    rewrite U3, U4, length_insert in IH. exact IH.
Qed.

(** Scenario A: a panel dragged out from (50, 50) to (250, 200) is committed
    with its four corners and the box 200 by 150 at (50, 50). *)
Example panel_creation :
  shapes (fst (pressDragRelease (initialPage "1") (editorWith tool_panel)
                                (mkPoint 50 50) (mkPoint 250 200) "n"))
  = [mkShape "n" 50 50 (Some 200%Q) (Some 150%Q)
             (panel [mkPoint 50 50; mkPoint 250 50; mkPoint 250 200; mkPoint 50 200])].
Proof. vm_compute. reflexivity. Qed.

(** A bubble dragged out over 6 by 70 units is dropped at the release: the
    committed list is the list from before the press, and the history has
    one entry more. *)
Example degenerate_creation :
  let p := commit (fun _ _ => "") (fun s => s) "1" (initialPage "1") [sampleText "t"] in
  let st := pressDragRelease p (editorWith tool_bubble) (mkPoint 50 50) (mkPoint 56 120) "n" in
  shapes (fst st) = [sampleText "t"] /\
  length (shapesHistory (fst st)) = length (shapesHistory p) + 1 /\
  action (snd st) = A_none.
Proof. vm_compute. repeat split. Qed.

(** ** The scale stays positive *)

Lemma handleWheel_scale_pos vt rectLeft rectTop clientX clientY deltaY :
  (0 < scale (handleWheel vt rectLeft rectTop clientX clientY deltaY))%Q.
Proof.
  simpl. apply Qlt_le_trans with (1 # 10)%Q; [reflexivity | apply clampScale_bounds].
Qed.

Lemma zoom_scale_pos vt viewWidth viewHeight direction :
  (0 < scale (zoom vt viewWidth viewHeight direction))%Q.
Proof.
  simpl. apply Qlt_le_trans with (1 # 10)%Q; [reflexivity | apply clampScale_bounds].
Qed.

Lemma panning_scale (shapes : list CanvasShape) (ed : Editor) (pos client startPos : Point)
    (startVT : ViewTransform) :
  action ed = A_panning startPos startVT ->
  exists ed' vt', handleMouseMove shapes ed pos client = (ed', [onViewTransformChange vt']) /\
                  scale vt' = scale startVT.
Proof.
  intros Ha. unfold handleMouseMove.
  replace (action (set_cursor ed _)) with (action ed) by reflexivity. rewrite Ha.
  eexists _, _. split; reflexivity.
Qed.

Lemma canvasConfig_pos aspect :
  (0 < fst (canvasConfig aspect))%Q /\ (0 < snd (canvasConfig aspect))%Q.
Proof.
  unfold canvasConfig, ASPECT_RATIO_CONFIG.
  repeat match goal with |- context [if ?b then _ else _] => destruct b end;
    simpl; split; reflexivity.
Qed.

Lemma fitAndCenterCanvas_scale_pos aspect vt viewWidth viewHeight :
  (0 < scale vt)%Q -> (0 <= viewWidth)%Q -> (0 <= viewHeight)%Q ->
  (0 < scale (fitAndCenterCanvas aspect vt viewWidth viewHeight))%Q.
Proof.
  intros Hs Hw Hh. unfold fitAndCenterCanvas.
  destruct (Qeq_bool viewWidth 0) eqn:Ew; [exact Hs|].
  destruct (Qeq_bool viewHeight 0) eqn:Eh; [exact Hs|]. simpl.
  pose proof (canvasConfig_pos aspect) as [Hpw Hph].
  destruct (canvasConfig aspect) as [pageWidth pageHeight]. simpl in *.
  apply Qeq_bool_neq in Ew. apply Qeq_bool_neq in Eh.
  assert (Hw' : (0 < viewWidth)%Q).
  { apply Qle_lteq in Hw as [H|H]; [exact H | now destruct Ew]. }
  assert (Hh' : (0 < viewHeight)%Q).
  { apply Qle_lteq in Hh as [H|H]; [exact H | now destruct Eh]. }
  apply Qmult_lt_0_compat; [|reflexivity].
  apply Q.min_glb_lt; apply Qlt_shift_div_l; try assumption; now rewrite Qmult_0_l.
Qed.

(** What the stale box does next: after the first vertex of the square panel
    has been moved to (-50, -50) with the stored origin left at (0, 0), a
    press on the panel at (10, 10) followed by a move that stays at (10, 10)
    shifts every vertex by (-50, -50). *)
Example stale_box_makes_drag_jump :
  let s := mkShape "p" 0 0 (Some 100%Q) (Some 100%Q)
             (panel [mkPoint (-50) (-50); mkPoint 100 0; mkPoint 100 100; mkPoint 0 100]) in
  let ed := handleShapeInteraction (mkVT 1 0 0) (editorWith tool_select) true false
              (mkPoint 10 10) (mkPoint 10 10) s I_shape in
  action ed = A_dragging "p" (mkPoint 60 60) /\
  snd (handleMouseMove [s] ed (mkPoint 10 10) (mkPoint 10 10))
  = [onShapesChange
       [mkShape "p" (-100) (-100) (Some 150%Q) (Some 150%Q)
          (panel [mkPoint (-100) (-100); mkPoint 50 (-50); mkPoint 50 50; mkPoint (-50) 50])]
       false].
Proof. vm_compute. split; reflexivity. Qed.

(** * Further properties *)

(** ** More on the history *)

(** X1. On the current page with the live list in step with the history, a
    redo undoes an undo and an undo undoes a redo, whenever the first of the
    two is enabled. *)
Theorem undo_redo_round_trip (cur : string) (p : Page) :
  p_id p = cur -> synced p ->
  (canUndo p = true -> redoPage cur (undoPage cur p) = p) /\
  (canRedo p = true -> undoPage cur (redoPage cur p) = p).
Proof.
  intros Hid Hs. pose proof (lookup_lt_Some _ _ _ Hs) as Hlt.
  split; intros Hc; unfold canUndo, canRedo in Hc; apply Nat.ltb_lt in Hc.
  - destruct (undoPage_step cur p Hid Hs) as (Hf & Hq & Hi).
    assert (Hidq : p_id (undoPage cur p) = cur) by (destruct Hf; congruence).
    destruct (redoPage_step cur _ Hidq Hq) as (Hf' & Hq' & Hi').
    apply same_frame_synced_eq; [eapply same_frame_trans; eauto | exact Hq' | exact Hs |].
    rewrite Hi', Hi. destruct Hf as (_ & -> & _). lia.
  - destruct (redoPage_step cur p Hid Hs) as (Hf & Hq & Hi).
    assert (Hidq : p_id (redoPage cur p) = cur) by (destruct Hf; congruence).
    destruct (undoPage_step cur _ Hidq Hq) as (Hf' & Hq' & Hi').
    apply same_frame_synced_eq; [eapply same_frame_trans; eauto | exact Hq' | exact Hs |].
    rewrite Hi', Hi. lia.
Qed.

Lemma undo_redo_round_trip_witness :
  let p := commit (fun _ _ => "") (fun s => s) "1" (initialPage "1") [sampleText "a"] in
  p_id p = "1" /\ synced p /\ canUndo p = true /\
  redoPage "1" (undoPage "1" p) = p.
Proof.
  intros p.
  assert (Hs : synced p) by reflexivity.
  split; [reflexivity|]. split; [exact Hs|]. split; [reflexivity|].
  exact (proj1 (undo_redo_round_trip "1" p eq_refl Hs) eq_refl).
Defined.

(** X2. The flags behind the undo and redo buttons, on the current page with
    its index inside the history: a commit enables undo and disables redo; an
    in-place update changes neither flag; an enabled undo enables redo and an
    enabled redo enables undo. *)
Theorem history_flags (existingPanels : string -> nat -> string) (trim : string -> string)
    (cur : string) (p : Page) (l : list CanvasShape) :
  p_id p = cur -> indexInHistory p ->
  (canUndo (commit existingPanels trim cur p l) = true /\
   canRedo (commit existingPanels trim cur p l) = false) /\
  (canUndo (updateInPlace existingPanels trim cur p l) = canUndo p /\
   canRedo (updateInPlace existingPanels trim cur p l) = canRedo p) /\
  (canUndo p = true -> canRedo (undoPage cur p) = true) /\
  (canRedo p = true -> canUndo (redoPage cur p) = true).
Proof.
  intros Hid Hin. unfold indexInHistory in Hin.
  destruct (commit_fields existingPanels trim cur p l Hid) as (_ & _ & Hh & Hi & _).
  destruct (update_fields existingPanels trim cur p l Hid Hin) as (_ & _ & Uh & Ui).
  unfold canUndo, canRedo. split; [|split; [|split]].
  - rewrite Hh, Hi, length_app, length_take. simpl. split.
    + apply Nat.ltb_lt. lia.
    + apply Nat.ltb_ge. lia.
  - rewrite Uh, Ui, length_insert. split; reflexivity.
  - intros Hc. apply Nat.ltb_lt in Hc. unfold undoPage. rewrite Hid, eqb_self. simpl.
    destruct (Nat.leb_spec (shapesHistoryIndex p) 0); [lia|]. simpl.
    apply Nat.ltb_lt. lia.
  - intros Hc. apply Nat.ltb_lt in Hc. unfold redoPage. rewrite Hid, eqb_self. simpl.
    destruct (Nat.leb_spec (length (shapesHistory p) - 1) (shapesHistoryIndex p)); [lia|].
    simpl. apply Nat.ltb_lt. lia.
Qed.

Lemma history_flags_witness :
  let ex := fun (_ : string) (_ : nat) => "" in
  let tr := fun s : string => s in
  let p := initialPage "1" in
  p_id p = "1" /\ indexInHistory p /\
  canUndo (commit ex tr "1" p [sampleText "a"]) = true /\
  canRedo (commit ex tr "1" p [sampleText "a"]) = false.
Proof.
  intros ex tr p.
  assert (Hin : indexInHistory p) by apply initialPage_index.
  split; [reflexivity|]. split; [exact Hin|].
  exact (proj1 (history_flags ex tr "1" p [sampleText "a"] eq_refl Hin)).
Defined.

Lemma shapesChangePage_synced existingPanels trim cur l r p :
  indexInHistory p -> synced p -> synced (shapesChangePage existingPanels trim cur l r p).
Proof.
  intros Hin Hs. unfold shapesChangePage, array_set, synced.
  destruct (negb (String.eqb (p_id p) cur)); [exact Hs|]. unfold indexInHistory in Hin.
  destruct r; simpl.
  - rewrite length_app. simpl. rewrite lookup_app_r by lia.
    replace (_ - _) with 0 by lia. reflexivity.
  - case_decide; [|lia]. now apply list_lookup_insert_eq.
Qed.

Lemma undoPage_synced cur p : synced p -> synced (undoPage cur p).
Proof.
  intros Hs. pose proof (lookup_lt_Some _ _ _ Hs) as Hlt. unfold undoPage.
  destruct (negb (String.eqb (p_id p) cur) || (shapesHistoryIndex p <=? 0)); [exact Hs|].
  unfold synced, snapshot_at. simpl.
  destruct (lookup_lt_is_Some_2 (shapesHistory p) (shapesHistoryIndex p - 1)) as [x Hx]; [lia|].
  now rewrite Hx.
Qed.

Lemma redoPage_synced cur p : synced p -> synced (redoPage cur p).
Proof.
  intros Hs. pose proof (lookup_lt_Some _ _ _ Hs) as Hlt. unfold redoPage.
  destruct (Nat.leb_spec (length (shapesHistory p) - 1) (shapesHistoryIndex p));
    destruct (negb (String.eqb (p_id p) cur)); simpl; try exact Hs.
  unfold synced, snapshot_at. simpl.
  destruct (lookup_lt_is_Some_2 (shapesHistory p) (shapesHistoryIndex p + 1)) as [x Hx]; [lia|].
  now rewrite Hx.
Qed.

(** X3. Whatever commits, in-place updates, undos and redos a new page goes
    through, in any order, its history index stays inside a non-empty history
    and its live shape list is the snapshot under the index. *)
Theorem page_history_invariant (existingPanels : string -> nat -> string)
    (trim : string -> string) (cur pid : string) (ops : list PageOp) :
  let p := foldl (runPageOp existingPanels trim cur) (initialPage pid) ops in
  p_id p = pid /\ indexInHistory p /\ synced p.
Proof.
  assert (H : forall p, indexInHistory p /\ synced p ->
              let q := foldl (runPageOp existingPanels trim cur) p ops in
              p_id q = p_id p /\ indexInHistory q /\ synced q).
  { induction ops as [|op ops IH]; intros p [Hin Hs]; simpl; [auto|].
    assert (Hstep : p_id (runPageOp existingPanels trim cur p op) = p_id p /\
                    indexInHistory (runPageOp existingPanels trim cur p op) /\
                    synced (runPageOp existingPanels trim cur p op)).
    { destruct op; simpl.
      - split; [|split; [now apply shapesChangePage_index | now apply shapesChangePage_synced]].
        unfold shapesChangePage. now destruct (negb (String.eqb (p_id p) cur)).
      - split; [|split; [now apply shapesChangePage_index | now apply shapesChangePage_synced]].
        unfold shapesChangePage. now destruct (negb (String.eqb (p_id p) cur)).
      - split; [|split; [now apply undoPage_index | now apply undoPage_synced]].
        unfold undoPage.
        now destruct (negb (String.eqb (p_id p) cur) || (shapesHistoryIndex p <=? 0)).
      - split; [|split; [now apply redoPage_index | now apply redoPage_synced]].
        unfold redoPage.
        now destruct (negb (String.eqb (p_id p) cur)
                      || (length (shapesHistory p) - 1 <=? shapesHistoryIndex p)). }
    destruct Hstep as (Hid & Hin' & Hs').
    destruct (IH _ (conj Hin' Hs')) as (I1 & I2 & I3).
    split; [congruence | auto]. }
  apply (H (initialPage pid)). split; [apply initialPage_index | reflexivity].
Qed.

(** X4. Deleting a character takes its images, and nothing else, out of the
    live list of a page, and leaves the history as it is: on the current page,
    when the live list was in step with the history and undo is enabled, an
    undo followed by a redo brings the deleted images back. *)
Theorem delete_character_keeps_history (cur idToDelete : string) (p : Page) :
  let q := deleteCharacterPage idToDelete p in
  (forall s, In s (shapes q) <-> In s (shapes p) /\ ~ isImageOf idToDelete s) /\
  shapesHistory q = shapesHistory p /\
  shapesHistoryIndex q = shapesHistoryIndex p /\
  (p_id p = cur -> synced p -> canUndo p = true ->
   shapes (redoPage cur (undoPage cur q)) = shapes p).
Proof.
  intros q. split; [|split; [reflexivity|split; [reflexivity|]]].
  - intros s. unfold q, deleteCharacterPage. simpl. rewrite List.filter_In.
    split; intros [Hin H]; (split; [exact Hin|]).
    + intros (href & pidx & pose & Hk). rewrite Hk in H.
      rewrite eqb_self in H. discriminate.
    + destruct (s_kind s) as [| | | |href cid pidx pose|] eqn:Hk; try reflexivity.
      apply negb_true_iff, String.eqb_neq. intros ->. apply H. now exists href, pidx, pose.
  - intros Hid Hs Hc. unfold canUndo in Hc. apply Nat.ltb_lt in Hc.
    pose proof (lookup_lt_Some _ _ _ Hs) as Hlt.
    unfold undoPage. simpl. rewrite Hid, eqb_self. simpl.
    destruct (Nat.leb_spec (shapesHistoryIndex p) 0); [lia|].
    unfold redoPage. simpl. rewrite eqb_self. simpl.
    destruct (Nat.leb_spec (length (shapesHistory p) - 1) (shapesHistoryIndex p - 1)); [lia|].
    simpl. unfold snapshot_at. replace (shapesHistoryIndex p - 1 + 1) with (shapesHistoryIndex p) by lia.
    unfold synced in Hs. now rewrite Hs.
Qed.

Lemma delete_character_keeps_history_witness :
  let ex := fun (_ : string) (_ : nat) => "" in
  let tr := fun s : string => s in
  let p := commit ex tr "1" (initialPage "1") [sampleText "t"; sampleImage "i"] in
  let q := deleteCharacterPage "hero" p in
  p_id p = "1" /\ synced p /\ canUndo p = true /\
  shapes q = [sampleText "t"] /\
  shapes (redoPage "1" (undoPage "1" q)) = [sampleText "t"; sampleImage "i"].
Proof.
  intros ex tr p q.
  assert (Hs : synced p) by reflexivity.
  destruct (delete_character_keeps_history "1" "hero" p) as (_ & _ & _ & H).
  split; [reflexivity|]. split; [exact Hs|]. split; [reflexivity|]. split; [reflexivity|].
  exact (H eq_refl Hs eq_refl).
Defined.

(** ** More on the view transform *)

(** X5. With a scale other than 0, going from the screen to the document
    and back gives the point one started from, and so does going from the
    document to the screen and back. *)
Theorem screen_document_round_trip (vt : ViewTransform) (pt : Point) :
  ~ (scale vt == 0)%Q ->
  Point_eq (documentToScreen vt (screenToDocument vt pt)) pt /\
  Point_eq (screenToDocument vt (documentToScreen vt pt)) pt.
Proof.
  intros Hs. unfold Point_eq, documentToScreen, screenToDocument. simpl.
  repeat split; field; exact Hs.
Qed.

Lemma screen_document_round_trip_witness :
  let vt := mkVT 2 30 40 in
  ~ (scale vt == 0)%Q /\
  Point_eq (documentToScreen vt (screenToDocument vt (mkPoint 130 240))) (mkPoint 130 240).
Proof.
  intros vt.
  assert (Hs : ~ (scale vt == 0)%Q) by discriminate.
  split; [exact Hs|]. exact (proj1 (screen_document_round_trip vt (mkPoint 130 240) Hs)).
Defined.

(** X6. The zoom buttons undo each other as long as no clamping comes in:
    when the scale and 1.25 times the scale both lie in [[0.1, 10]], zooming
    in and then out gives back the scale and the translation. *)
Theorem zoom_in_out_round_trip (vt : ViewTransform) (viewWidth viewHeight : Q) :
  (1 # 10 <= scale vt)%Q -> (scale vt * (125 # 100) <= 10)%Q ->
  let vt' := zoomOut (zoomIn vt viewWidth viewHeight) viewWidth viewHeight in
  (scale vt' == scale vt)%Q /\ (vt_x vt' == vt_x vt)%Q /\ (vt_y vt' == vt_y vt)%Q.
Proof.
  intros Hlo Hhi.
  assert (Hpos : (0 < scale vt)%Q) by (eapply Qlt_le_trans; [|exact Hlo]; reflexivity).
  assert (H1 : (clampScale (scale vt * (125 # 100)) == scale vt * (125 # 100))%Q).
  { apply clampScale_inside; [|exact Hhi].
    apply Qle_trans with (scale vt); [exact Hlo|]. lra. }
  assert (H2 : (clampScale (clampScale (scale vt * (125 # 100)) / (125 # 100)) == scale vt)%Q).
  { assert (E : (clampScale (scale vt * (125 # 100)) / (125 # 100) == scale vt)%Q).
    { rewrite H1. field. }
    rewrite <- E at 2. apply clampScale_inside; rewrite E; [exact Hlo|]. lra. }
  unfold zoomOut, zoomIn, zoom. cbn [scale vt_x vt_y].
  split; [exact H2|].
  assert (Hne : ~ (scale vt == 0)%Q).
  { intros E. rewrite E in Hpos. exact (Qlt_irrefl 0 Hpos). }
  split; rewrite H2, H1; field; repeat (try split); first [exact Hne | discriminate].
Qed.

Lemma zoom_in_out_round_trip_witness :
  let vt := mkVT 2 30 40 in
  let vt' := zoomOut (zoomIn vt 800 600) 800 600 in
  (1 # 10 <= scale vt)%Q /\ (scale vt * (125 # 100) <= 10)%Q /\
  (scale vt' == 2)%Q /\ (vt_x vt' == 30)%Q /\ (vt_y vt' == 40)%Q.
Proof.
  intros vt vt'.
  assert (H1 : (1 # 10 <= scale vt)%Q) by discriminate.
  assert (H2 : (scale vt * (125 # 100) <= 10)%Q) by discriminate.
  split; [exact H1|]. split; [exact H2|].
  exact (zoom_in_out_round_trip vt 800 600 H1 H2).
Defined.

(** X7. While panning, a move sets the translation recorded at the press
    plus the way the pointer has gone, keeps the scale, and keeps the gesture
    going: the point of the document that was under the pointer at the press is
    under the pointer still, wherever the SVG element lies on the screen. *)
Theorem panning_follows_pointer (shapes : list CanvasShape) (ed : Editor)
    (pos client startPos : Point) (startVT : ViewTransform) :
  action ed = A_panning startPos startVT -> ~ (scale startVT == 0)%Q ->
  exists ed' vt',
    handleMouseMove shapes ed pos client = (ed', [onViewTransformChange vt']) /\
    action ed' = A_panning startPos startVT /\
    scale vt' = scale startVT /\
    forall left top,
      Point_eq (screenToDocument vt' (mkPoint (px client - left) (py client - top)))
               (screenToDocument startVT (mkPoint (px startPos - left) (py startPos - top))).
Proof.
  intros Ha Hs. unfold handleMouseMove.
  replace (action (set_cursor ed _)) with (action ed) by reflexivity. rewrite Ha.
  eexists _, _. split; [reflexivity|]. split; [exact Ha|]. split; [reflexivity|].
  intros left top. unfold Point_eq, screenToDocument. simpl. split; field; exact Hs.
Qed.

Lemma panning_follows_pointer_witness :
  let ed := sampleEditor (A_panning (mkPoint 100 100) (mkVT 2 30 40)) in
  action ed = A_panning (mkPoint 100 100) (mkVT 2 30 40) /\
  ~ (scale (mkVT 2 30 40) == 0)%Q /\
  exists ed' vt',
    handleMouseMove [] ed (mkPoint 0 0) (mkPoint 160 90) = (ed', [onViewTransformChange vt']) /\
    scale vt' = 2%Q.
Proof.
  intros ed.
  assert (Hs : ~ (scale (mkVT 2 30 40) == 0)%Q) by discriminate.
  split; [reflexivity|]. split; [exact Hs|].
  destruct (panning_follows_pointer [] ed (mkPoint 0 0) (mkPoint 160 90)
              (mkPoint 100 100) (mkVT 2 30 40) eq_refl Hs)
    as (ed' & vt' & H1 & _ & H2 & _).
  exists ed', vt'. split; assumption.
Defined.

(** X8. Fit to screen, in a viewport of positive size: the scale is positive,
    the page takes at most nine tenths of the width and of the height of the
    viewport and exactly nine tenths of one of them, and it sits in the middle,
    with the same positive margin left and right, and the same above and
    below. In a viewport of width or height 0 nothing changes. *)
Theorem fit_and_center (aspect : string) (vt : ViewTransform) (viewWidth viewHeight : Q) :
  let vt' := fitAndCenterCanvas aspect vt viewWidth viewHeight in
  let pageWidth := fst (canvasConfig aspect) in
  let pageHeight := snd (canvasConfig aspect) in
  ((viewWidth == 0)%Q \/ (viewHeight == 0)%Q -> vt' = vt) /\
  ((0 < viewWidth)%Q -> (0 < viewHeight)%Q ->
   (0 < scale vt')%Q /\
   (pageWidth * scale vt' <= viewWidth * (9 # 10))%Q /\
   (pageHeight * scale vt' <= viewHeight * (9 # 10))%Q /\
   ((pageWidth * scale vt' == viewWidth * (9 # 10))%Q \/
    (pageHeight * scale vt' == viewHeight * (9 # 10))%Q) /\
   (0 < vt_x vt')%Q /\ (0 < vt_y vt')%Q /\
   (vt_x vt' + pageWidth * scale vt' + vt_x vt' == viewWidth)%Q /\
   (vt_y vt' + pageHeight * scale vt' + vt_y vt' == viewHeight)%Q).
Proof.
  intros vt' pageWidth pageHeight. split.
  - intros H. unfold vt', fitAndCenterCanvas.
    destruct H as [H|H]; apply Qeq_bool_iff in H; rewrite H; simpl;
      [reflexivity | now rewrite orb_true_r].
  - intros Hw Hh.
    pose proof (canvasConfig_pos aspect) as [Hpw Hph]. fold pageWidth pageHeight in Hpw, Hph.
    assert (Ew : Qeq_bool viewWidth 0 = false).
    { apply not_true_is_false. intros E. apply Qeq_bool_iff in E. rewrite E in Hw.
      exact (Qlt_irrefl 0 Hw). }
    assert (Eh : Qeq_bool viewHeight 0 = false).
    { apply not_true_is_false. intros E. apply Qeq_bool_iff in E. rewrite E in Hh.
      exact (Qlt_irrefl 0 Hh). }
    assert (Hvt : vt' = let s := (Qmin (viewWidth / pageWidth) (viewHeight / pageHeight)
                                  * (9 # 10))%Q in
                        mkVT s ((viewWidth - pageWidth * s) / 2)%Q
                             ((viewHeight - pageHeight * s) / 2)%Q).
    { unfold vt', fitAndCenterCanvas, pageWidth, pageHeight. rewrite Ew, Eh. simpl.
      now destruct (canvasConfig aspect). }
    rewrite Hvt. cbv zeta. cbn [scale vt_x vt_y].
    set (m := Qmin (viewWidth / pageWidth) (viewHeight / pageHeight)).
    assert (Hnw : ~ (pageWidth == 0)%Q).
    { intros E. rewrite E in Hpw. exact (Qlt_irrefl 0 Hpw). }
    assert (Hnh : ~ (pageHeight == 0)%Q).
    { intros E. rewrite E in Hph. exact (Qlt_irrefl 0 Hph). }
    assert (Hmw : (pageWidth * m <= viewWidth)%Q).
    { apply Qle_trans with (pageWidth * (viewWidth / pageWidth))%Q.
      - apply (proj2 (Qmult_le_l _ _ _ Hpw)), Q.le_min_l.
      - apply Qle_lteq. right. field. exact Hnw. }
    assert (Hmh : (pageHeight * m <= viewHeight)%Q).
    { apply Qle_trans with (pageHeight * (viewHeight / pageHeight))%Q.
      - apply (proj2 (Qmult_le_l _ _ _ Hph)), Q.le_min_r.
      - apply Qle_lteq. right. field. exact Hnh. }
    assert (Hm : (0 < m)%Q).
    { apply Q.min_glb_lt; apply Qlt_shift_div_l; try assumption; now rewrite Qmult_0_l. }
    assert (Hone : (pageWidth * m == viewWidth)%Q \/ (pageHeight * m == viewHeight)%Q).
    { destruct (Q.min_spec (viewWidth / pageWidth) (viewHeight / pageHeight)) as [[_ E]|[_ E]];
        fold m in E; rewrite E; [left | right]; field; assumption. }
    split; [apply Qmult_lt_0_compat; [exact Hm | reflexivity]|].
    split; [lra|]. split; [lra|].
    split; [destruct Hone as [E|E]; [left | right]; lra|].
    split; [apply Qlt_shift_div_l; [reflexivity | lra]|].
    split; [apply Qlt_shift_div_l; [reflexivity | lra]|].
    split; field.
Qed.

Lemma fit_and_center_witness :
  let vt' := fitAndCenterCanvas "A4" (mkVT 1 0 0) 1190 1000 in
  (0 < 1190)%Q /\ (0 < 1000)%Q /\ (0 < scale vt')%Q /\ (0 < vt_x vt')%Q.
Proof.
  intros vt'.
  assert (Hw : (0 < 1190)%Q) by reflexivity.
  assert (Hh : (0 < 1000)%Q) by reflexivity.
  destruct (fit_and_center "A4" (mkVT 1 0 0) 1190 1000) as [_ H].
  destruct (H Hw Hh) as (H1 & _ & _ & _ & H2 & _).
  split; [exact Hw|]. split; [exact Hh|]. split; [exact H1 | exact H2].
Defined.

(** X9. Whatever wheel turns, zoom clicks, fits (in viewports of non-negative
    size) and pans a view transform of positive scale goes through, its scale
    stays positive; right after a wheel turn or a zoom click it lies in
    [[0.1, 10]]. *)
Theorem view_scale_positive (vt : ViewTransform) (ops : list ViewOp) :
  (0 < scale vt)%Q -> List.Forall viewOpOk ops ->
  (0 < scale (foldl runViewOp vt ops))%Q /\
  (forall op, match op with VWheel _ _ _ _ _ | VZoom _ _ _ => True | _ => False end ->
     (1 # 10 <= scale (runViewOp (foldl runViewOp vt ops) op))%Q /\
     (scale (runViewOp (foldl runViewOp vt ops) op) <= 10)%Q).
Proof.
  intros Hs Hok. split.
  - revert vt Hs. induction Hok as [|op ops Hop _ IH]; intros vt Hs; simpl; [exact Hs|].
    apply IH. destruct op; cbn [runViewOp viewOpOk scale] in *.
    + apply handleWheel_scale_pos.
    + apply zoom_scale_pos.
    + destruct Hop. now apply fitAndCenterCanvas_scale_pos.
    + exact Hs.
  - intros [] H; try contradiction; simpl; apply clampScale_bounds.
Qed.

Lemma view_scale_positive_witness :
  let ops := [VFit "A4" 1190 1000; VWheel 0 0 200 100 (-1); VPan 10 (-5); VZoom 1190 1000 zoom_out] in
  (0 < scale (mkVT 1 0 0))%Q /\ List.Forall viewOpOk ops /\
  (0 < scale (foldl runViewOp (mkVT 1 0 0) ops))%Q.
Proof.
  intros ops.
  assert (Hs : (0 < scale (mkVT 1 0 0))%Q) by reflexivity.
  assert (Hok : List.Forall viewOpOk ops).
  { repeat constructor; discriminate. }
  split; [exact Hs|]. split; [exact Hok|].
  exact (proj1 (view_scale_positive (mkVT 1 0 0) ops Hs Hok)).
Defined.

(** ** More on the gestures *)

Lemma mapShape_keeps (sid : string) (f : CanvasShape -> CanvasShape) (l : list CanvasShape) :
  (forall s, s_id (f s) = s_id s /\ s_type (f s) = s_type s) ->
  map s_id (mapShape sid f l) = map s_id l /\ map s_type (mapShape sid f l) = map s_type l.
Proof.
  intros H. unfold mapShape. rewrite !map_map.
  split; apply map_ext; intros s; destruct (String.eqb (s_id s) sid); auto; apply H.
Qed.

Lemma dragShape_keeps pos off s :
  s_id (dragShape pos off s) = s_id s /\ s_type (dragShape pos off s) = s_type s.
Proof.
  unfold dragShape.
  destruct (s_kind s) eqn:Hk;
    repeat match goal with
           | |- context [match ?x with _ => _ end] => destruct x
           end;
    unfold s_type; simpl; rewrite ?Hk; auto.
Qed.

Lemma resizeShape_keeps handle original pos s :
  s_id (resizeShape handle original pos s) = s_id s /\
  s_type (resizeShape handle original pos s) = s_type s.
Proof.
  unfold resizeShape. simpl.
  destruct (s_kind s) eqn:Hk;
    repeat match goal with
           | |- context [match ?x with _ => _ end] => destruct x
           end;
    unfold s_type; simpl; rewrite ?Hk; auto.
Qed.

(** X10. A pointer move never adds, removes, reorders or retypes a shape:
    whatever the action, every list it hands to [onShapesChange] has the ids
    and the kinds of the current list, position by position, and is handed
    over as an in-place update. *)
Theorem moves_keep_shapes (shapes : list CanvasShape) (ed : Editor) (pos client : Point)
    (l : list CanvasShape) (r : bool) :
  In (onShapesChange l r) (snd (handleMouseMove shapes ed pos client)) ->
  r = false /\ map s_id l = map s_id shapes /\ map s_type l = map s_type shapes.
Proof.
  unfold handleMouseMove.
  replace (action (set_cursor ed _)) with (action ed) by reflexivity.
  assert (Hone : forall sid f,
            (forall s, s_id (f s) = s_id s /\ s_type (f s) = s_type s) ->
            In (onShapesChange l r) [onShapesChange (mapShape sid f shapes) false] ->
            r = false /\ map s_id l = map s_id shapes /\ map s_type l = map s_type shapes).
  { intros sid f Hf [H|[]]. injection H as <- <-. split; [reflexivity|].
    now apply mapShape_keeps. }
  destruct (action ed) as [|sh|sp svt|sid stroke|sid off|sid handle orig|sid|sid vi|sid hi];
    cbn [snd].
  - intros [].
  - destruct (is_type Tarrow sh); cbn [snd]; apply Hone; intros s.
    + unfold growArrow, s_type. destruct (s_kind s) eqn:Hk; simpl; rewrite ?Hk; auto.
    + unfold growCreated, s_type. destruct (s_kind s) eqn:Hk; simpl; rewrite ?Hk; auto.
  - intros [H|[]]. discriminate H.
  - apply Hone. intros s. unfold s_type. destruct (s_kind s) eqn:Hk; simpl; rewrite ?Hk; auto.
  - apply Hone. intros s. apply dragShape_keeps.
  - apply Hone. intros s. apply resizeShape_keeps.
  - apply Hone. intros s. unfold s_type. destruct (s_kind s) eqn:Hk; simpl; rewrite ?Hk; auto.
  - apply Hone. intros s. unfold s_type. destruct (s_kind s) eqn:Hk; simpl; rewrite ?Hk; auto.
  - apply Hone. intros s. unfold s_type. destruct (s_kind s) eqn:Hk; simpl; rewrite ?Hk; auto.
    destruct (hi =? 0)%nat; simpl; rewrite ?Hk; auto.
Qed.

Lemma moves_keep_shapes_witness :
  let s := sampleImage "i" in
  let ed := sampleEditor (A_dragging "i" (mkPoint 10 10)) in
  let l := mapShape "i" (dragShape (mkPoint 60 30) (mkPoint 10 10)) [sampleText "t"; s] in
  In (onShapesChange l false)
     (snd (handleMouseMove [sampleText "t"; s] ed (mkPoint 60 30) (mkPoint 0 0))) /\
  map s_id l = ["t"; "i"].
Proof.
  intros s ed l.
  assert (Hin : In (onShapesChange l false)
                   (snd (handleMouseMove [sampleText "t"; s] ed (mkPoint 60 30) (mkPoint 0 0))))
    by (now left).
  split; [exact Hin|].
  exact (proj1 (proj2 (moves_keep_shapes _ _ _ _ _ _ Hin))).
Defined.

Lemma Qmin_plus_abs (a b : Q) : (Qmin a b + Qabs (a - b) == Qmax a b)%Q.
Proof.
  destruct (Qlt_le_dec a b) as [H|H].
  - rewrite (Q.min_l a b) by now apply Qlt_le_weak.
    rewrite (Q.max_r a b) by now apply Qlt_le_weak.
    rewrite Qabs_neg by lra. ring.
  - rewrite (Q.min_r a b), (Q.max_l a b) by exact H.
    rewrite Qabs_pos by lra. ring.
Qed.

Lemma corners_tight (x y w h : Q) :
  (0 <= w)%Q -> (0 <= h)%Q ->
  tightBox (mkRect x y w h)
           [mkPoint x y; mkPoint (x + w) y; mkPoint (x + w) (y + h); mkPoint x (y + h)].
Proof.
  intros Hw Hh. unfold tightBox, isLeast, isGreatest. simpl.
  repeat split;
    try (intros u Hu; repeat destruct Hu as [<-|Hu]; try contradiction; lra).
  - exists x. split; [now left | reflexivity].
  - exists y. split; [now left | reflexivity].
  - exists (x + w)%Q. split; [right; now left | reflexivity].
  - exists (y + h)%Q. split; [right; right; now left | reflexivity].
Qed.

(** X11. A move while a panel or a bubble is being created gives the shape
    the box spanned by the point of the press and the pointer: its
    corner is the least, and corner plus size the greatest, of the two in each
    coordinate, so the size is never negative; a panel gets the four corners
    of that box as its vertices, and its stored box is their tight box. *)
Theorem creating_spans_press_and_pointer (shapes : list CanvasShape) (ed : Editor)
    (pos client : Point) (i : nat) (s start : CanvasShape) :
  shapes !! i = Some s -> action ed = A_creating start ->
  s_id s = s_id start -> is_type Tarrow start = false ->
  exists ed' newShapes s' w h,
    handleMouseMove shapes ed pos client = (ed', [onShapesChange newShapes false]) /\
    newShapes !! i = Some s' /\
    s_x s' = Qmin (px pos) (s_x start) /\ s_y s' = Qmin (py pos) (s_y start) /\
    s_width s' = Some w /\ s_height s' = Some h /\
    (0 <= w)%Q /\ (0 <= h)%Q /\
    (s_x s' + w == Qmax (px pos) (s_x start))%Q /\
    (s_y s' + h == Qmax (py pos) (s_y start))%Q /\
    (is_type Tpanel s = true ->
     exists pts, s_kind s' = panel pts /\ length pts = 4 /\
                 tightBox (mkRect (s_x s') (s_y s') w h) pts /\
                 pts = rectangle (s_x s') (s_y s') (s_x s' + w) (s_y s' + h)) /\
    (is_type Tpanel s = false -> s_kind s' = s_kind s) /\
    s_id s' = s_id s.
Proof.
  intros Hi Ha Hid Harrow. unfold handleMouseMove.
  replace (action (set_cursor ed _)) with (action ed) by reflexivity. rewrite Ha, Harrow.
  eexists _, _, (growCreated start pos s), (Qabs (px pos - s_x start)), (Qabs (py pos - s_y start)).
  split; [reflexivity|].
  split; [rewrite (mapShape_lookup _ _ _ _ _ Hi), Hid, eqb_self; reflexivity|].
  assert (Hf : s_x (growCreated start pos s) = Qmin (px pos) (s_x start) /\
               s_y (growCreated start pos s) = Qmin (py pos) (s_y start) /\
               s_width (growCreated start pos s) = Some (Qabs (px pos - s_x start)) /\
               s_height (growCreated start pos s) = Some (Qabs (py pos - s_y start))).
  { unfold growCreated. destruct (s_kind s); simpl; auto. }
  destruct Hf as (Hx & Hy & Hw & Hh). rewrite Hx, Hy.
  split; [reflexivity|]. split; [reflexivity|]. split; [exact Hw|]. split; [exact Hh|].
  split; [apply Qabs_nonneg|]. split; [apply Qabs_nonneg|].
  split; [apply Qmin_plus_abs|]. split; [apply Qmin_plus_abs|].
  split; [|split].
  - intros Hp. apply is_type_true in Hp. unfold s_type in Hp. unfold growCreated.
    destruct (s_kind s); try discriminate Hp.
    eexists. split; [reflexivity|]. split; [reflexivity|].
    split; [apply corners_tight; apply Qabs_nonneg | reflexivity].
  - intros Hp. unfold is_type, s_type in Hp. unfold growCreated.
    destruct (s_kind s) eqn:E; try discriminate Hp; simpl; now rewrite E.
  - unfold growCreated. destruct (s_kind s); reflexivity.
Qed.

Lemma creating_spans_press_and_pointer_witness :
  let start := mkShape "n" 50 50 (Some 0%Q) (Some 0%Q) (panel []) in
  let ed := sampleEditor (A_creating start) in
  [start] !! 0 = Some start /\ is_type Tarrow start = false /\
  exists ed' newShapes s' w h,
    handleMouseMove [start] ed (mkPoint 20 90) (mkPoint 0 0)
    = (ed', [onShapesChange newShapes false]) /\
    newShapes !! 0 = Some s' /\ s_width s' = Some w /\ s_height s' = Some h /\
    (0 <= w)%Q /\ (0 <= h)%Q /\
    s_kind s' = panel (rectangle (s_x s') (s_y s') (s_x s' + w) (s_y s' + h)).
Proof.
  intros start ed. split; [reflexivity|]. split; [reflexivity|].
  destruct (creating_spans_press_and_pointer [start] ed (mkPoint 20 90) (mkPoint 0 0) 0
              start start eq_refl eq_refl eq_refl eq_refl)
    as (ed' & ns & s' & w & h & H1 & H2 & _ & _ & H3 & H4 & H5 & H6 & _ & _ & H7 & _).
  destruct (H7 eq_refl) as (pts & H8 & _ & _ & H9).
  exists ed', ns, s', w, h. rewrite <- H9. auto 10.
Defined.

(** X12. A text, a bubble or an image pressed with the select tool and
    dragged follows the pointer without a jump: after a move its origin is
    the old origin plus the way the pointer has gone since the press, its
    size is unchanged, and the press has selected it. *)
Theorem drag_follows_pointer (vt : ViewTransform) (ed : Editor) (shapes : list CanvasShape)
    (i : nat) (s : CanvasShape) (pos0 client0 pos client : Point) :
  activeTool ed = tool_select -> shapes !! i = Some s ->
  s_type s = Ttext \/ s_type s = Tbubble \/ s_type s = Timage ->
  let ed1 := handleShapeInteraction vt ed true false pos0 client0 s I_shape in
  selectedShapeId ed1 = Some (s_id s) /\
  exists ed' newShapes s',
    handleMouseMove shapes ed1 pos client = (ed', [onShapesChange newShapes false]) /\
    newShapes !! i = Some s' /\
    (s_x s' == s_x s + (px pos - px pos0))%Q /\
    (s_y s' == s_y s + (py pos - py pos0))%Q /\
    s_width s' = s_width s /\ s_height s' = s_height s.
Proof.
  intros Htool Hi Ht ed1.
  assert (Hed : ed1 = set_action (set_selected ed (Some (s_id s)))
                        (A_dragging (s_id s)
                           (mkPoint (px pos0 - s_x s)%Q (py pos0 - s_y s)%Q))).
  { unfold ed1, handleShapeInteraction. rewrite Htool. simpl.
    unfold getShapeBBox, s_type in *.
    destruct (s_kind s); destruct Ht as [Ht|[Ht|Ht]]; try discriminate Ht; reflexivity. }
  rewrite Hed. split; [reflexivity|].
  unfold handleMouseMove. cbn [action set_cursor set_action].
  eexists _, _, (dragShape pos (mkPoint (px pos0 - s_x s)%Q (py pos0 - s_y s)%Q) s).
  split; [reflexivity|].
  split; [rewrite (mapShape_lookup _ _ _ _ _ Hi), eqb_self; reflexivity|].
  unfold dragShape, s_type in *.
  destruct (s_kind s) as [|? ?|? ? [t|]|? ? ?|? ? ? [[? ? ?|?|?]|]|? ? ? ?];
    destruct Ht as [Ht|[Ht|Ht]]; try discriminate Ht; simpl;
    (split; [ring|]); (split; [ring|]); split; reflexivity.
Qed.

Lemma drag_follows_pointer_witness :
  let s := sampleBubble "b" 120 80 in
  let ed := editorWith tool_select in
  let ed1 := handleShapeInteraction (mkVT 1 0 0) ed true false (mkPoint 50 60) (mkPoint 50 60)
                                    s I_shape in
  activeTool ed = tool_select /\ [s] !! 0 = Some s /\
  (s_type s = Ttext \/ s_type s = Tbubble \/ s_type s = Timage) /\
  selectedShapeId ed1 = Some "b".
Proof.
  intros s ed ed1.
  assert (Ht : s_type s = Ttext \/ s_type s = Tbubble \/ s_type s = Timage)
    by (right; left; reflexivity).
  split; [reflexivity|]. split; [reflexivity|]. split; [exact Ht|].
  exact (proj1 (drag_follows_pointer (mkVT 1 0 0) ed [s] 0 s (mkPoint 50 60) (mkPoint 50 60)
                  (mkPoint 70 65) (mkPoint 70 65) eq_refl eq_refl Ht)).
Defined.

Lemma resizeBox_fields (handle : string) (original : CanvasShape) (pos : Point) :
  let b := resizeBox handle original pos in
  let right := (s_x original + or0 (s_width original))%Q in
  let bottom := (s_y original + or0 (s_height original))%Q in
  r_x b = (if includes "left" handle then right - Qmax 20 (right - px pos)
           else s_x original)%Q /\
  r_y b = (if includes "top" handle then bottom - Qmax 20 (bottom - py pos)
           else s_y original)%Q /\
  r_width b = (if includes "left" handle then Qmax 20 (right - px pos)
               else if includes "right" handle then Qmax 20 (px pos - s_x original)
                    else or0 (s_width original)) /\
  r_height b = (if includes "top" handle then Qmax 20 (bottom - py pos)
                else if includes "bottom" handle then Qmax 20 (py pos - s_y original)
                     else or0 (s_height original)).
Proof.
  unfold resizeBox.
  destruct (includes "left" handle), (includes "top" handle),
           (includes "right" handle), (includes "bottom" handle); simpl; auto.
Qed.

(** X13. A resize move keeps the corner opposite to the handle where the
    recorded shape has it: with a handle on the left the right edge stays,
    otherwise the left edge stays, and likewise for top and bottom. As long as
    the pointer leaves at least 20 units to that corner, the edge that is
    dragged is at the pointer. *)
Theorem resize_keeps_opposite_corner (handle : string) (original : CanvasShape)
    (pos : Point) (s : CanvasShape) :
  let s' := resizeShape handle original pos s in
  let right := (s_x original + or0 (s_width original))%Q in
  let bottom := (s_y original + or0 (s_height original))%Q in
  (if includes "left" handle
   then (s_x s' + or0 (s_width s') == right)%Q /\
        ((20 <= right - px pos)%Q -> (s_x s' == px pos)%Q)
   else s_x s' = s_x original /\
        (includes "right" handle = true -> (20 <= px pos - s_x original)%Q ->
         (s_x s' + or0 (s_width s') == px pos)%Q)) /\
  (if includes "top" handle
   then (s_y s' + or0 (s_height s') == bottom)%Q /\
        ((20 <= bottom - py pos)%Q -> (s_y s' == py pos)%Q)
   else s_y s' = s_y original /\
        (includes "bottom" handle = true -> (20 <= py pos - s_y original)%Q ->
         (s_y s' + or0 (s_height s') == py pos)%Q)).
Proof.
  intros s' right bottom.
  destruct (resizeShape_box handle original pos s) as (_ & Hx & Hy & Hw & Hh).
  fold s' in Hx, Hy, Hw, Hh. rewrite Hx, Hy, Hw, Hh.
  destruct (resizeBox_fields handle original pos) as (-> & -> & -> & ->).
  cbn [or0 default from_option]. unfold id. fold right bottom. split.
  - destruct (includes "left" handle).
    + split; [ring|]. intros H. rewrite (Q.max_r _ _ H). ring.
    + split; [reflexivity|]. intros -> H. rewrite (Q.max_r _ _ H). ring.
  - destruct (includes "top" handle).
    + split; [ring|]. intros H. rewrite (Q.max_r _ _ H). ring.
    + split; [reflexivity|]. intros -> H. rewrite (Q.max_r _ _ H). ring.
Qed.

Lemma resize_keeps_opposite_corner_witness :
  let s := sampleBubble "b" 120 80 in
  let s' := resizeShape "top-left" s (mkPoint 60 50) s in
  (s_x s' + or0 (s_width s') == 160)%Q /\ (s_x s' == 60)%Q.
Proof.
  intros s s'.
  destruct (resize_keeps_opposite_corner "top-left" s (mkPoint 60 50) s) as [[H1 H2] _].
  split; [exact H1|]. apply H2. discriminate.
Defined.

Lemma mapShape_fresh (sid : string) (f : CanvasShape -> CanvasShape) (l : list CanvasShape) :
  (forall s, In s l -> s_id s <> sid) -> mapShape sid f l = l.
Proof.
  intros H. unfold mapShape. rewrite <- (map_id l) at 2. apply map_ext_in.
  intros s Hs. apply H, String.eqb_neq in Hs. now rewrite Hs.
Qed.

Lemma find_app_fresh {A : Type} (f : A -> bool) (l l' : list A) :
  (forall a, In a l -> f a = false) -> List.find f (l ++ l') = List.find f l'.
Proof.
  induction l as [|a l IH]; intros H; [reflexivity|].
  simpl. rewrite (H a (or_introl eq_refl)). apply IH. intros b Hb. apply H. now right.
Qed.

Lemma stroke_moves (existingPanels : string -> nat -> string) (trim : string -> string)
    (cur now : string) (p0 : Point) (color : string) (width : Q)
    (before : list CanvasShape) (moves : list (Point * Point)) :
  (forall s, In s before -> s_id s <> now) ->
  forall (p : Page) (ed : Editor) (stroke : list Point),
    p_id p = cur ->
    shapes p = before ++ [strokeShape now p0 stroke color width] ->
    action ed = A_drawing now stroke ->
    let st := foldl (step existingPanels trim cur) (p, ed) (moveEvents moves) in
    p_id (fst st) = cur /\
    shapes (fst st) = before ++ [strokeShape now p0 (stroke ++ map fst moves) color width] /\
    action (snd st) = A_drawing now (stroke ++ map fst moves) /\
    shapesHistoryIndex (fst st) = shapesHistoryIndex p.
Proof.
  intros Hfresh. induction moves as [|[pos client] moves IH]; intros p ed stroke Hid Hsh Ha.
  - simpl. rewrite app_nil_r. auto.
  - cbn [moveEvents map foldl fst snd].
    assert (Hstep : step existingPanels trim cur (p, ed) (MouseMove pos client)
                    = (shapesChangePage existingPanels trim cur
                         (before ++ [strokeShape now p0 (stroke ++ [pos]) color width]) false p,
                       set_action (set_cursor ed (if isDrawOrArrow (activeTool ed)
                                                  then Some pos else None))
                                  (A_drawing now (stroke ++ [pos])))).
    { unfold step, handleMouseMove.
      replace (action (set_cursor ed _)) with (action ed) by reflexivity. rewrite Ha.
      cbn [foldl applyCall]. f_equal. f_equal. rewrite Hsh.
      unfold mapShape. rewrite map_app. fold (mapShape now
        (fun s => match s_kind s with
                  | drawing strokes c w =>
                      with_kind s (drawing (setLastStroke strokes (stroke ++ [pos])) c w)
                  | _ => s
                  end) before).
      rewrite (mapShape_fresh _ _ _ Hfresh). simpl. now rewrite eqb_self. }
    rewrite Hstep.
    set (q := shapesChangePage existingPanels trim cur
                (before ++ [strokeShape now p0 (stroke ++ [pos]) color width]) false p).
    assert (Hq : p_id q = cur /\ shapesHistoryIndex q = shapesHistoryIndex p /\
                 shapes q = before ++ [strokeShape now p0 (stroke ++ [pos]) color width]).
    { unfold q, shapesChangePage. rewrite Hid, eqb_self. simpl. auto. }
    destruct Hq as (Hq1 & Hq2 & Hq3).
    destruct (IH q (set_action (set_cursor ed (if isDrawOrArrow (activeTool ed)
                                               then Some pos else None))
                               (A_drawing now (stroke ++ [pos])))
                (stroke ++ [pos]) Hq1 Hq3 eq_refl) as (I1 & I2 & I3 & I4).
    fold (moveEvents moves). rewrite <- !app_assoc in I2, I3. simpl in I2, I3.
    split; [exact I1|]. split; [exact I2|]. split; [exact I3 | congruence].
Qed.

(** X14. Freehand drawing, through the handlers and the page: a press with the
    draw tool at [p0], under an id that no shape has yet, followed by any
    moves, leaves the shapes of before followed by one drawing whose only
    stroke is [p0] and then the positions of the moves in order; the history
    index has not moved, and the release commits that very list. *)
Theorem freehand_stroke (existingPanels : string -> nat -> string) (trim : string -> string)
    (cur now : string) (p : Page) (ed : Editor) (p0 c0 : Point)
    (moves : list (Point * Point)) :
  p_id p = cur -> activeTool ed = tool_draw ->
  (forall s, In s (shapes p) -> s_id s <> now) ->
  let st := foldl (step existingPanels trim cur) (p, ed)
                  (MouseDown true false false p0 c0 now :: moveEvents moves) in
  let drawn := shapes p ++ [strokeShape now p0 (p0 :: map fst moves)
                                        (brushColor ed) (brushSize ed)] in
  shapes (fst st) = drawn /\
  shapesHistoryIndex (fst st) = shapesHistoryIndex p /\
  snd (handleMouseUp (shapes (fst st)) (snd st)) = [onShapesChange drawn true].
Proof.
  intros Hid Htool Hfresh st drawn.
  set (q := shapesChangePage existingPanels trim cur
              (shapes p ++ [strokeShape now p0 [p0] (brushColor ed) (brushSize ed)]) false p).
  assert (Hdown : step existingPanels trim cur (p, ed) (MouseDown true false false p0 c0 now)
                  = (q, set_action (set_selected ed None) (A_drawing now [p0]))).
  { unfold step, handleMouseDown. simpl. rewrite Htool. reflexivity. }
  assert (Hq : p_id q = cur /\ shapesHistoryIndex q = shapesHistoryIndex p /\
               shapes q = shapes p ++ [strokeShape now p0 [p0] (brushColor ed) (brushSize ed)]).
  { unfold q, shapesChangePage. rewrite Hid, eqb_self. simpl. auto. }
  destruct Hq as (Hq1 & Hq2 & Hq3).
  destruct (stroke_moves existingPanels trim cur now p0 (brushColor ed) (brushSize ed)
              (shapes p) moves Hfresh q
              (set_action (set_selected ed None) (A_drawing now [p0])) [p0] Hq1 Hq3 eq_refl)
    as (_ & S2 & S3 & S4).
  assert (Hst : st = foldl (step existingPanels trim cur)
                       (q, set_action (set_selected ed None) (A_drawing now [p0]))
                       (moveEvents moves)).
  { unfold st. cbn [foldl]. now rewrite Hdown. }
  rewrite Hst. simpl app in S2, S3.
  split; [exact S2|]. split; [congruence|].
  destruct (handleMouseUp_commit (shapes (fst (foldl (step existingPanels trim cur)
              (q, set_action (set_selected ed None) (A_drawing now [p0])) (moveEvents moves))))
              (snd (foldl (step existingPanels trim cur)
              (q, set_action (set_selected ed None) (A_drawing now [p0])) (moveEvents moves)))
              now) as [Hup _].
  { now rewrite S3. }
  rewrite Hup. cbn [snd]. rewrite S2. f_equal. f_equal.
  unfold committedShapes, drawn. rewrite find_app_fresh.
  - simpl. rewrite eqb_self. reflexivity.
  - intros s Hs. now apply String.eqb_neq, Hfresh.
Qed.

Lemma freehand_stroke_witness :
  let p := initialPage "1" in
  let ed := editorWith tool_draw in
  let st := foldl (step (fun _ _ => "") (fun s => s) "1") (p, ed)
                  (MouseDown true false false (mkPoint 1 1) (mkPoint 1 1) "d"
                   :: moveEvents [(mkPoint 2 3, mkPoint 2 3); (mkPoint 4 4, mkPoint 4 4)]) in
  p_id p = "1" /\ activeTool ed = tool_draw /\
  (forall s, In s (shapes p) -> s_id s <> "d") /\
  shapes (fst st) = [strokeShape "d" (mkPoint 1 1) [mkPoint 1 1; mkPoint 2 3; mkPoint 4 4]
                                 "#000000" 5].
Proof.
  intros p ed st.
  assert (Hf : forall s, In s (shapes p) -> s_id s <> "d") by (intros s []).
  split; [reflexivity|]. split; [reflexivity|]. split; [exact Hf|].
  exact (proj1 (freehand_stroke (fun _ _ => "") (fun s => s) "1" "d" p ed
                  (mkPoint 1 1) (mkPoint 1 1)
                  [(mkPoint 2 3, mkPoint 2 3); (mkPoint 4 4, mkPoint 4 4)]
                  eq_refl eq_refl Hf)).
Defined.

Lemma insertMidpoint_shape (pts : list Point) (edgeIndex : nat) :
  edgeIndex < length pts ->
  let pts' := insertMidpoint pts edgeIndex in
  length pts' = S (length pts) /\
  take (edgeIndex + 1) pts' = take (edgeIndex + 1) pts /\
  drop (edgeIndex + 2) pts' = drop (edgeIndex + 1) pts /\
  pts' !! (edgeIndex + 1) =
    Some (mkPoint ((px (pointAt pts edgeIndex)
                    + px (pointAt pts ((edgeIndex + 1) mod length pts))) / 2)%Q
                  ((py (pointAt pts edgeIndex)
                    + py (pointAt pts ((edgeIndex + 1) mod length pts))) / 2)%Q).
Proof.
  intros Hlt pts'. unfold pts', insertMidpoint.
  assert (Hlen : length (take (edgeIndex + 1) pts) = edgeIndex + 1)
    by (rewrite length_take; lia).
  split; [|split; [|split]].
  - rewrite length_app. simpl. rewrite Hlen, length_drop. lia.
  - rewrite take_app_le by lia. rewrite take_take. f_equal. lia.
  - rewrite drop_app_ge by lia. rewrite Hlen.
    replace (edgeIndex + 2 - (edgeIndex + 1)) with 1 by lia. reflexivity.
  - rewrite lookup_app_r by lia. rewrite Hlen.
    replace (edgeIndex + 1 - (edgeIndex + 1)) with 0 by lia. reflexivity.
Qed.

(** X15. Adding a vertex on edge [edgeIndex] of a panel, with the select tool:
    one committed list of the same length, in which the panel has one vertex
    more, the middle of the two ends of the edge, placed right after the
    first end with the other vertices in their order; the stored box is the
    one of before, and it is still tight when it was; the new vertex is the
    one being dragged from then on. *)
Theorem add_panel_vertex (shapes : list CanvasShape) (ed : Editor) (i : nat)
    (s : CanvasShape) (pts : list Point) (edgeIndex : nat) (a b : Point) :
  activeTool ed = tool_select ->
  shapes !! i = Some s -> s_kind s = panel pts ->
  pts !! edgeIndex = Some a -> pts !! ((edgeIndex + 1) mod length pts) = Some b ->
  exists newShapes pts',
    handleAddPanelVertex shapes ed s edgeIndex
      = (set_action ed (A_editingPanelVertex (s_id s) (edgeIndex + 1)),
         [onShapesChange newShapes true]) /\
    length newShapes = length shapes /\
    newShapes !! i = Some (with_kind s (panel pts')) /\
    length pts' = S (length pts) /\
    take (edgeIndex + 1) pts' = take (edgeIndex + 1) pts /\
    pts' !! (edgeIndex + 1) = Some (mkPoint ((px a + px b) / 2)%Q ((py a + py b) / 2)%Q) /\
    drop (edgeIndex + 2) pts' = drop (edgeIndex + 1) pts /\
    storedBox (with_kind s (panel pts')) = storedBox s /\
    forall box, tightBox box pts -> tightBox box pts'.
Proof.
  intros Htool Hi Hk Ha Hb.
  assert (Hlt : edgeIndex < length pts) by (eapply lookup_lt_Some; exact Ha).
  destruct (insertMidpoint_shape pts edgeIndex Hlt) as (L1 & L2 & L3 & L4).
  unfold pointAt in L4. rewrite Ha, Hb in L4. simpl in L4.
  eexists _, (insertMidpoint pts edgeIndex).
  split; [unfold handleAddPanelVertex; rewrite Htool, Hk; reflexivity|].
  split; [apply mapShape_length|].
  split; [rewrite (mapShape_lookup _ _ _ _ _ Hi), eqb_self, Hk; reflexivity|].
  split; [exact L1|]. split; [exact L2|]. split; [exact L4|]. split; [exact L3|].
  split; [reflexivity|].
  intros box. now apply midpoint_insert_keeps_box.
Qed.

Lemma add_panel_vertex_witness :
  exists newShapes,
    handleAddPanelVertex [samplePanel "p"] (sampleEditor A_none) (samplePanel "p") 1
      = (set_action (sampleEditor A_none) (A_editingPanelVertex "p" 2),
         [onShapesChange newShapes true]).
Proof.
  destruct (add_panel_vertex [samplePanel "p"] (sampleEditor A_none) 0
              (samplePanel "p") _ 1 (mkPoint 100 0) (mkPoint 100 100)
              eq_refl eq_refl eq_refl eq_refl eq_refl) as (ns & pts' & H & _).
  exists ns. exact H.
Defined.

(** With any other tool the click on an edge does nothing. *)
Lemma add_panel_vertex_other_tool (shapes : list CanvasShape) (ed : Editor)
    (s : CanvasShape) (edgeIndex : nat) :
  activeTool ed <> tool_select -> handleAddPanelVertex shapes ed s edgeIndex = (ed, []).
Proof.
  intros H. unfold handleAddPanelVertex. destruct (activeTool ed); congruence.
Qed.

Lemma panel_drag_box_tight_witness :
  exists pts' b,
    s_kind (dragShape (mkPoint 30 40) (mkPoint 0 0) (samplePanel "p")) = panel pts' /\
    length pts' = 4 /\
    storedBox (dragShape (mkPoint 30 40) (mkPoint 0 0) (samplePanel "p")) = Some b /\
    tightBox b pts'.
Proof.
  apply (panel_drag_box_tight (samplePanel "p") _ (mkPoint 30 40) (mkPoint 0 0) eq_refl).
  discriminate.
Defined.

Lemma gesture_history_witness :
  let p := commit (fun _ _ => "") (fun s => s) "1" (initialPage "1") [sampleText "a"] in
  let ed := sampleEditor (A_dragging "a" (mkPoint 1 1)) in
  let st := foldl (step (fun _ _ => "") (fun s => s) "1") (p, ed)
                  (map (fun m => MouseMove (fst m) (snd m))
                       [(mkPoint 5 5, mkPoint 5 5); (mkPoint 9 9, mkPoint 9 9)]) in
  let st' := step (fun _ _ => "") (fun s => s) "1" st MouseUp in
  indexInHistory p /\
  shapesHistoryIndex (fst st) = 1 /\ length (shapesHistory (fst st)) = 2 /\
  shapesHistoryIndex (fst st') = 2 /\ length (shapesHistory (fst st')) = 3.
Proof.
  intros p ed st st'.
  assert (Hin : indexInHistory p) by (unfold indexInHistory; simpl; lia).
  split; [exact Hin|].
  destruct (gesture_history (fun _ _ => "") (fun s => s) "1"
              [(mkPoint 5 5, mkPoint 5 5); (mkPoint 9 9, mkPoint 9 9)] p ed
              eq_refl Hin eq_refl) as (H1 & H2 & H3 & H4 & _).
  repeat split; assumption.
Defined.

(** ** Boxes, polygons and drops *)

(** X18. The bounding box of a shape that carries points, a panel, an arrow
    or a drawing whose first stroke is not empty, is the tight box of all
    its points: its sides are not negative and every point is inside. *)
Theorem shape_box_tight (s : CanvasShape) (pts : list Point) :
  flatPoints s = Some pts -> pts <> [] ->
  (forall strokes c w, s_kind s = drawing strokes c w -> head strokes <> Some []) ->
  tightBox (getShapeBBox s) pts /\
  (0 <= r_width (getShapeBBox s))%Q /\ (0 <= r_height (getShapeBBox s))%Q /\
  forall p, In p pts -> insideBox (getShapeBBox s) p.
Proof.
  intros Hf Hne Hd.
  assert (Hbox : getShapeBBox s = boxOfPoints pts).
  { unfold flatPoints in Hf. unfold getShapeBBox.
    destruct (s_kind s) as [q| | |strokes c w| |a b c w] eqn:Hk; try discriminate.
    - injection Hf as ->. destruct pts; [congruence | reflexivity].
    - injection Hf as <-. specialize (Hd strokes c w eq_refl).
      destruct strokes as [|[|q st] rest]; simpl in *; congruence.
    - now injection Hf as <-. }
  rewrite Hbox. pose proof (boxOfPoints_tight pts Hne) as Ht.
  split; [exact Ht|].
  destruct Ht as ((_ & Lx) & (_ & Ly) & (_ & Gx) & (_ & Gy)).
  assert (Hin : forall p, In p pts -> insideBox (boxOfPoints pts) p).
  { intros p Hp. unfold insideBox.
    pose proof (in_map px _ _ Hp). pose proof (in_map py _ _ Hp). auto. }
  destruct pts as [|p0 pts]; [congruence|].
  destruct (Hin p0 (or_introl eq_refl)) as (A & B & C & D).
  split; [lra|]. split; [lra | exact Hin].
Qed.

Lemma shape_box_tight_witness :
  tightBox (getShapeBBox (sampleArrow "a")) [mkPoint 5 5; mkPoint 50 60].
Proof.
  apply (shape_box_tight (sampleArrow "a") _ eq_refl).
  - discriminate.
  - intros strokes c w H. discriminate H.
Defined.

(** A drawing whose first stroke is empty has the empty box at its anchor,
    whatever its other strokes hold. *)
Lemma drawing_first_stroke_empty (s : CanvasShape) (rest : list (list Point)) (c : string) (w : Q) :
  s_kind s = drawing ([] :: rest) c w -> getShapeBBox s = mkRect (s_x s) (s_y s) 0 0.
Proof. intros H. unfold getShapeBBox. now rewrite H. Qed.

Lemma crosses_vertical (p : Point) (x ya yb : Q) :
  crosses p (mkPoint x ya) (mkPoint x yb)
  = negb (Bool.eqb (Qlt_bool (py p) ya) (Qlt_bool (py p) yb)) && Qlt_bool (px p) x.
Proof.
  unfold crosses, Qlt_bool. cbn [px py]. f_equal.
  assert (E : ((x - x) * (py p - ya) / (yb - ya) + x == x)%Q) by (unfold Qdiv; ring).
  destruct (Qlt_le_dec (px p) _) as [H|H], (Qlt_le_dec (px p) x) as [H'|H'];
    try reflexivity; rewrite E in H; lra.
Qed.

Lemma crosses_horizontal (p : Point) (xa xb y : Q) :
  crosses p (mkPoint xa y) (mkPoint xb y) = false.
Proof.
  unfold crosses. cbn [px py]. now destruct (Qlt_le_dec (py p) y).
Qed.

(** X19. The even-odd test on an upright rectangle: a point is inside when it
    is within the sides, the left and the top side included, the right and
    the bottom side left out. *)
Theorem point_in_rectangle (x0 y0 x1 y1 : Q) (p : Point) :
  (x0 < x1)%Q -> (y0 < y1)%Q ->
  (isPointInPolygon p (rectangle x0 y0 x1 y1) = true
   <-> (x0 <= px p)%Q /\ (px p < x1)%Q /\ (y0 <= py p)%Q /\ (py p < y1)%Q).
Proof.
  intros Hx Hy.
  assert (E : isPointInPolygon p (rectangle x0 y0 x1 y1)
              = xorb (crosses p (mkPoint x1 y1) (mkPoint x1 y0))
                     (crosses p (mkPoint x0 y0) (mkPoint x0 y1))).
  { unfold isPointInPolygon, rectangle.
    cbn [length seq foldl fst Nat.sub].
    change (pointAt [mkPoint x0 y0; mkPoint x1 y0; mkPoint x1 y1; mkPoint x0 y1] 0)
      with (mkPoint x0 y0).
    change (pointAt [mkPoint x0 y0; mkPoint x1 y0; mkPoint x1 y1; mkPoint x0 y1] 1)
      with (mkPoint x1 y0).
    change (pointAt [mkPoint x0 y0; mkPoint x1 y0; mkPoint x1 y1; mkPoint x0 y1] 2)
      with (mkPoint x1 y1).
    change (pointAt [mkPoint x0 y0; mkPoint x1 y0; mkPoint x1 y1; mkPoint x0 y1] 3)
      with (mkPoint x0 y1).
    rewrite !crosses_horizontal.
    destruct (crosses p (mkPoint x0 y0) (mkPoint x0 y1)),
             (crosses p (mkPoint x1 y1) (mkPoint x1 y0)); reflexivity. }
  rewrite E, !crosses_vertical. unfold Qlt_bool.
  destruct (Qlt_le_dec (py p) y0), (Qlt_le_dec (py p) y1),
           (Qlt_le_dec (px p) x0), (Qlt_le_dec (px p) x1); simpl;
    split; intros H; try discriminate; try reflexivity; try lra.
Qed.

Lemma point_in_rectangle_witness :
  isPointInPolygon (mkPoint 0 5) (rectangle 0 0 10 10) = true /\
  ~ isPointInPolygon (mkPoint 10 5) (rectangle 0 0 10 10) = true.
Proof.
  split.
  - apply (point_in_rectangle 0 0 10 10 (mkPoint 0 5)); simpl; lra.
  - intros H. apply (point_in_rectangle 0 0 10 10 (mkPoint 10 5)) in H; simpl in H; lra.
Defined.

(** The test is false on the polygon without vertices. *)
Lemma point_in_empty_polygon (p : Point) : isPointInPolygon p [] = false.
Proof. reflexivity. Qed.

Lemma find_from_last (f : nat -> bool) (n : nat) :
  match List.find f (rev (seq 0 n)) with
  | Some i => i < n /\ f i = true /\ forall j, i < j -> j < n -> f j = false
  | None => forall j, j < n -> f j = false
  end.
Proof.
  induction n as [|n IH].
  - simpl. intros j Hj. lia.
  - rewrite seq_S, rev_app_distr. cbn [rev app List.find Nat.add].
    destruct (f n) eqn:Hn.
    + split; [lia|]. split; [exact Hn|]. intros j H1 H2. lia.
    + destruct (List.find f (rev (seq 0 n))) as [i|].
      * destruct IH as (I1 & I2 & I3). split; [lia|]. split; [exact I2|].
        intros j H1 H2. destruct (Nat.eq_dec j n) as [->|Hne]; [exact Hn|].
        apply I3; lia.
      * intros j Hj. destruct (Nat.eq_dec j n) as [->|Hne]; [exact Hn|].
        apply IH. lia.
Qed.

Lemma droppedOnPanelIndex_topmost (pt : Point) (panels : list CanvasShape)
    (i : nat) (p : CanvasShape) (pts : list Point) :
  panels !! i = Some p -> s_kind p = panel pts -> isPointInPolygon pt pts = true ->
  (forall j q ptsq, i < j -> panels !! j = Some q -> s_kind q = panel ptsq ->
                    isPointInPolygon pt ptsq = false) ->
  droppedOnPanelIndex pt panels = Some i.
Proof.
  intros Hi Hk Hin Habove. unfold droppedOnPanelIndex.
  set (f := fun i0 : nat => match panels !! i0 with
                            | Some p0 => match s_kind p0 with
                                         | panel pts0 => isPointInPolygon pt pts0
                                         | _ => false
                                         end
                            | None => false
                            end).
  assert (Hfi : f i = true) by (unfold f; now rewrite Hi, Hk).
  assert (Hlt : i < length panels) by (eapply lookup_lt_Some; exact Hi).
  assert (Hfj : forall j, i < j -> f j = false).
  { intros j Hj. unfold f. destruct (panels !! j) as [q|] eqn:Hq; [|reflexivity].
    destruct (s_kind q) eqn:Hkq; try reflexivity. eapply Habove; eauto. }
  pose proof (find_from_last f (length panels)) as H.
  destruct (List.find f (rev (seq 0 (length panels)))) as [k|].
  - destruct H as (K1 & K2 & K3). f_equal.
    destruct (Nat.lt_trichotomy k i) as [Hc|[Hc|Hc]]; [|exact Hc|].
    + rewrite (K3 i Hc Hlt) in Hfi. discriminate.
    + rewrite (Hfj k Hc) in K2. discriminate.
  - rewrite (H i Hlt) in Hfi. discriminate.
Qed.

(** X20. A character dropped on the canvas lands in the topmost panel under
    the drop point, the last of the panels that contain it: one committed
    list with a new image at the end, of 150 by 250 and centred on the drop
    point, that carries the character, the index of that panel among the
    panels, and the default skeleton of its own box. *)
Theorem drop_on_topmost_panel (shapes : list CanvasShape) (characters : list Character)
    (sheetImage : Character -> string) (characterId : string) (pt : Point) (now : string)
    (c : Character) (i : nat) (p : CanvasShape) (pts : list Point) :
  List.find (fun c => String.eqb (c_id c) characterId) characters = Some c ->
  List.filter (is_type Tpanel) shapes !! i = Some p ->
  s_kind p = panel pts -> isPointInPolygon pt pts = true ->
  (forall j q ptsq, i < j -> List.filter (is_type Tpanel) shapes !! j = Some q ->
                    s_kind q = panel ptsq -> isPointInPolygon pt ptsq = false) ->
  exists img,
    handleDrop shapes characters sheetImage characterId pt now
      = [onShapesChange (shapes ++ [img]) true] /\
    s_id img = now /\ c_id c = characterId /\
    s_width img = Some 150%Q /\ s_height img = Some 250%Q /\
    Point_eq (mkPoint (s_x img + 150 / 2) (s_y img + 250 / 2)) pt /\
    s_kind img = image (sheetImage c) characterId (Z.of_nat i)
                       (Some (SkeletonPose full
                                (createInitialSkeleton (s_x img) (s_y img) 150 250) "")).
Proof.
  intros Hc Hi Hk Hin Habove.
  assert (Hid : c_id c = characterId).
  { apply List.find_some in Hc as [_ Hc]. now apply String.eqb_eq in Hc. }
  unfold handleDrop. rewrite Hc.
  rewrite (droppedOnPanelIndex_topmost pt _ i p pts Hi Hk Hin Habove).
  eexists. split; [reflexivity|]. cbn [s_id s_width s_height s_x s_y s_kind].
  split; [reflexivity|]. split; [exact Hid|]. split; [reflexivity|].
  split; [reflexivity|]. split.
  - unfold Point_eq. cbn [px py]. split; field.
  - now rewrite Hid.
Qed.

Lemma drop_on_topmost_panel_witness :
  exists img,
    handleDrop [samplePanel "p"; sampleText "t"; samplePanel "q"]
               [mkCharacter "hero" "Hero"] (fun _ => "sheet") "hero" (mkPoint 50 50) "n"
      = [onShapesChange ([samplePanel "p"; sampleText "t"; samplePanel "q"] ++ [img]) true] /\
    s_kind img = image "sheet" "hero" 1
                       (Some (SkeletonPose full
                                (createInitialSkeleton (s_x img) (s_y img) 150 250) "")).
Proof.
  destruct (drop_on_topmost_panel [samplePanel "p"; sampleText "t"; samplePanel "q"]
              [mkCharacter "hero" "Hero"] (fun _ => "sheet") "hero" (mkPoint 50 50) "n"
              (mkCharacter "hero" "Hero") 1 (samplePanel "q") _
              eq_refl eq_refl eq_refl eq_refl) as (img & H1 & _ & _ & _ & _ & _ & H2).
  - intros [|[|[|j]]] q ptsq Hj Hq; try lia; discriminate Hq.
  - exists img. split; [exact H1 | exact H2].
Defined.

(** X21. A drop of an unknown character, or at a point that no panel
    contains, calls nothing: the shapes stay as they are. *)
Theorem drop_elsewhere_is_ignored (shapes : list CanvasShape) (characters : list Character)
    (sheetImage : Character -> string) (characterId : string) (pt : Point) (now : string) :
  (forall c, In c characters -> c_id c <> characterId) \/
  (forall q ptsq, In q shapes -> s_kind q = panel ptsq -> isPointInPolygon pt ptsq = false) ->
  handleDrop shapes characters sheetImage characterId pt now = [].
Proof.
  intros [Hc|Hp]; unfold handleDrop.
  - rewrite <- (app_nil_r characters), find_app_fresh; [reflexivity|].
    intros c Hin. apply String.eqb_neq. now apply Hc.
  - destruct (List.find _ characters); [|reflexivity].
    unfold droppedOnPanelIndex.
    match goal with |- context [List.find ?f (rev (seq 0 ?n))] =>
      pose proof (find_from_last f n) as H; destruct (List.find f (rev (seq 0 n))) as [k|]
    end; [|reflexivity].
    destruct H as (K1 & K2 & _). cbv beta in K2.
    destruct (List.filter (is_type Tpanel) shapes !! k) as [q|] eqn:Hq; [|discriminate].
    destruct (s_kind q) as [ptsq| | | | |] eqn:Hk; try discriminate.
    apply list_elem_of_lookup_2, list_elem_of_In, List.filter_In in Hq as [Hq _].
    rewrite (Hp q ptsq Hq Hk) in K2. discriminate.
Qed.

Lemma drop_elsewhere_is_ignored_witness :
  handleDrop [samplePanel "p"] [mkCharacter "hero" "Hero"] (fun _ => "sheet") "villain"
             (mkPoint 50 50) "n" = [].
Proof.
  apply drop_elsewhere_is_ignored. left.
  intros c [<-|[]]. simpl. discriminate.
Defined.

(** ** Toolbar edits *)

Lemma with_kind_same (s : CanvasShape) (k : ShapeKind) : s_kind s = k -> with_kind s k = s.
Proof. intros <-. now destruct s. Qed.

(** X22. The tail of a bubble: adding one puts it 30 under the middle of the
    bottom side of the stored box; removing after adding is removing, and
    gives the shapes back when the bubbles of that id had no tail; adding
    twice is adding once. *)
Theorem bubble_tail_round_trip (shapes : list CanvasShape) (shapeId : string) :
  let added := calledShapes (addBubbleTail shapes shapeId) in
  (forall i s bt txt tl,
      shapes !! i = Some s -> s_id s = shapeId -> s_kind s = bubble bt txt tl ->
      added !! i = Some (with_kind s (bubble bt txt
                           (Some (mkPoint (s_x s + or0 (s_width s) / 2)%Q
                                          (s_y s + or0 (s_height s) + 30)%Q))))) /\
  calledShapes (removeBubbleTail added shapeId)
    = calledShapes (removeBubbleTail shapes shapeId) /\
  calledShapes (addBubbleTail added shapeId) = added /\
  ((forall s bt txt tl, In s shapes -> s_id s = shapeId ->
                        s_kind s = bubble bt txt tl -> tl = None) ->
   calledShapes (removeBubbleTail added shapeId) = shapes).
Proof.
  intros added.
  assert (Hrem : calledShapes (removeBubbleTail added shapeId)
                 = calledShapes (removeBubbleTail shapes shapeId)).
  { unfold added, addBubbleTail, removeBubbleTail, calledShapes. rewrite map_map.
    apply map_ext. intros s.
    destruct (s_kind s) eqn:Hk; rewrite ?Hk; try reflexivity.
    destruct (String.eqb (s_id s) shapeId) eqn:He; simpl; rewrite ?He, ?Hk; reflexivity. }
  split; [|split; [exact Hrem|split]].
  - intros i s bt txt tl Hi Hid Hk. unfold added, addBubbleTail, calledShapes.
    rewrite lookup_List_map, Hi. simpl. rewrite Hk, Hid, eqb_self.
    unfold getShapeBBox. rewrite Hk. reflexivity.
  - unfold added, addBubbleTail, calledShapes. rewrite map_map.
    apply map_ext. intros s.
    destruct (s_kind s) eqn:Hk; rewrite ?Hk; try reflexivity.
    destruct (String.eqb (s_id s) shapeId) eqn:He; simpl; rewrite ?He, ?Hk; try reflexivity.
    unfold getShapeBBox. simpl. rewrite Hk. reflexivity.
  - intros Hnone. rewrite Hrem. unfold removeBubbleTail, calledShapes.
    rewrite <- (map_id shapes) at 2. apply map_ext_in. intros s Hs.
    destruct (s_kind s) as [| |bt txt tl| | |] eqn:Hk; try reflexivity.
    destruct (String.eqb (s_id s) shapeId) eqn:He; [|reflexivity].
    apply String.eqb_eq in He. rewrite (Hnone s bt txt tl Hs He Hk) in Hk.
    now apply with_kind_same.
Qed.

Lemma changeFontSize_lookup (shapes : list CanvasShape) (shapeId : string) (amount : Q)
    (i : nat) (s : CanvasShape) :
  shapes !! i = Some s ->
  calledShapes (changeFontSize shapes shapeId amount) !! i
  = Some (match s_kind s with
          | text txt fontSize =>
              if String.eqb (s_id s) shapeId
              then with_kind s (text txt (Qmax 8 (fontSize + amount)))
              else s
          | _ => s
          end).
Proof.
  intros H. unfold changeFontSize, calledShapes. now rewrite lookup_List_map, H.
Qed.

Lemma changeFontSizes_text (shapeId : string) (amounts : list Q) :
  forall (shapes : list CanvasShape) (i : nat) (s : CanvasShape) (txt : string) (fs : Q),
    shapes !! i = Some s -> s_id s = shapeId -> s_kind s = text txt fs -> (8 <= fs)%Q ->
    exists fs', changeFontSizes shapes shapeId amounts !! i
                = Some (with_kind s (text txt fs')) /\ (8 <= fs')%Q.
Proof.
  induction amounts as [|a amounts IH]; intros shapes i s txt fs Hi Hid Hk Hfs.
  - exists fs. split; [|exact Hfs]. simpl. rewrite Hi. f_equal. symmetry.
    now apply with_kind_same.
  - unfold changeFontSizes. cbn [foldl]. fold (changeFontSizes
      (calledShapes (changeFontSize shapes shapeId a)) shapeId amounts).
    pose proof (changeFontSize_lookup shapes shapeId a i s Hi) as H1.
    rewrite Hk, Hid, eqb_self in H1.
    destruct (IH _ i _ txt (Qmax 8 (fs + a)) H1 Hid eq_refl (Q.le_max_l _ _))
      as (fs' & H2 & H3).
    exists fs'. split; [exact H2 | exact H3].
Qed.

Lemma changeFontSizes_others (shapeId : string) (amounts : list Q) :
  forall (shapes : list CanvasShape) (i : nat) (s : CanvasShape),
    shapes !! i = Some s -> s_id s <> shapeId \/ s_type s <> Ttext ->
    changeFontSizes shapes shapeId amounts !! i = Some s.
Proof.
  induction amounts as [|a amounts IH]; intros shapes i s Hi Hs; [exact Hi|].
  unfold changeFontSizes. cbn [foldl]. fold (changeFontSizes
    (calledShapes (changeFontSize shapes shapeId a)) shapeId amounts).
  apply IH; [|exact Hs].
  rewrite (changeFontSize_lookup shapes shapeId a i s Hi).
  destruct Hs as [Hs|Hs].
  - apply String.eqb_neq in Hs. rewrite Hs. now destruct (s_kind s).
  - unfold s_type in Hs. destruct (s_kind s); congruence.
Qed.

(** X23. The font size buttons, pressed any number of times and at least
    once, with any amounts: the text of that id keeps its place, its content
    and its box and has a font size of 8 or more; the shapes of another id,
    and those that are not texts, are left as they were. *)
Theorem font_size_floor (shapes : list CanvasShape) (shapeId : string) (amounts : list Q)
    (i : nat) (s : CanvasShape) :
  amounts <> [] -> shapes !! i = Some s ->
  (forall txt fs, s_id s = shapeId -> s_kind s = text txt fs ->
     exists fs', changeFontSizes shapes shapeId amounts !! i
                 = Some (with_kind s (text txt fs')) /\ (8 <= fs')%Q) /\
  (s_id s <> shapeId \/ s_type s <> Ttext ->
     changeFontSizes shapes shapeId amounts !! i = Some s).
Proof.
  intros Hne Hi. split; [|now apply changeFontSizes_others].
  intros txt fs Hid Hk. destruct amounts as [|a amounts]; [congruence|].
  unfold changeFontSizes. cbn [foldl]. fold (changeFontSizes
    (calledShapes (changeFontSize shapes shapeId a)) shapeId amounts).
  pose proof (changeFontSize_lookup shapes shapeId a i s Hi) as H1.
  rewrite Hk, Hid, eqb_self in H1.
  destruct (changeFontSizes_text shapeId amounts _ i _ txt (Qmax 8 (fs + a)) H1 Hid eq_refl
              (Q.le_max_l _ _)) as (fs' & H2 & H3).
  exists fs'. split; [exact H2 | exact H3].
Qed.

Lemma font_size_floor_witness :
  exists fs', changeFontSizes [sampleText "t"] "t" [(-100)%Q; 2%Q] !! 0
              = Some (with_kind (sampleText "t") (text "Enter Text" fs')) /\ (8 <= fs')%Q.
Proof.
  assert (Hne : [(-100)%Q; 2%Q] <> []) by discriminate.
  exact (proj1 (font_size_floor [sampleText "t"] "t" [(-100)%Q; 2%Q] 0 (sampleText "t")
                  Hne eq_refl) "Enter Text" 30%Q eq_refl eq_refl).
Defined.

(** X24. An uploaded picture is added at the end of the shapes, 200 wide,
    with the proportions of the file, and its middle shows at the middle of
    the viewport; it belongs to no panel and has no pose. *)
Theorem uploaded_image_centred (shapes : list CanvasShape) (vt : ViewTransform)
    (viewWidth viewHeight imgWidth imgHeight : Q) (base64 now : string) :
  ~ (scale vt == 0)%Q -> ~ (imgWidth == 0)%Q ->
  exists img w h,
    handleImageFileSelect shapes vt viewWidth viewHeight imgWidth imgHeight base64 now
      = onShapesChange (shapes ++ [img]) true /\
    s_id img = now /\
    s_kind img = image base64 "user-upload" (-1) None /\
    s_width img = Some w /\ s_height img = Some h /\
    (w == 200)%Q /\ (h * imgWidth == imgHeight * w)%Q /\
    Point_eq (documentToScreen vt (mkPoint (s_x img + w / 2) (s_y img + h / 2)))
             (mkPoint (viewWidth / 2) (viewHeight / 2)).
Proof.
  intros Hs Hw. unfold handleImageFileSelect.
  eexists _, _, _. split; [reflexivity|]. cbn [s_id s_kind s_width s_height s_x s_y].
  repeat (split; [reflexivity|]). split; [|split].
  - field. exact Hw.
  - unfold documentToScreen. cbn [px py]. field. exact Hs.
  - unfold documentToScreen. cbn [px py]. field. split; assumption.
Qed.

Lemma uploaded_image_centred_witness :
  exists img w h,
    handleImageFileSelect [] (mkVT 2 10 20) 800 600 400 300 "data:" "n"
      = onShapesChange ([] ++ [img]) true /\
    s_width img = Some w /\ s_height img = Some h /\ (h * 400 == 300 * w)%Q.
Proof.
  destruct (uploaded_image_centred [] (mkVT 2 10 20) 800 600 400 300 "data:" "n")
    as (img & w & h & H1 & _ & _ & H2 & H3 & _ & H4 & _).
  - simpl. intros H. discriminate H.
  - intros H. discriminate H.
  - exists img, w, h. auto.
Defined.

(** ** Skeletons and the pose editor *)

Lemma joint_In (d : SkeletonData) (key : string) (p : Point) :
  joint d key = Some p -> In (key, p) d.
Proof.
  induction d as [|[k q] d IH]; simpl; [discriminate|].
  destruct (String.eqb k key) eqn:E.
  - apply String.eqb_eq in E. intros [= ->]. left. now rewrite E.
  - intros H. right. now apply IH.
Qed.

(** X25. The default skeleton of a box with sides that are not negative: the
    nineteen joints of the pose editor, each under its own name and each
    inside the box, the left and the right one of a pair at the same height
    and at the same distance from the vertical middle line. *)
Theorem default_skeleton_inside_box (x y width height : Q) :
  (0 <= width)%Q -> (0 <= height)%Q ->
  let sk := createInitialSkeleton x y width height in
  map fst sk = PoseEditorModal.allJointKeys /\ NoDup (map fst sk) /\
  (forall key p, joint sk key = Some p -> insideBox (mkRect x y width height) p) /\
  forall part l r,
    In part ["Shoulder"; "Elbow"; "Hand"; "Hip"; "Knee"; "Foot"; "Eye"] ->
    joint sk ("left" +:+ part) = Some l -> joint sk ("right" +:+ part) = Some r ->
    (py l == py r)%Q /\ (px l + px r == 2 * (x + width / 2))%Q.
Proof.
  intros Hw Hh sk. split; [reflexivity|]. split.
  { change (map fst sk) with PoseEditorModal.allJointKeys.
    apply (bool_decide_unpack (NoDup PoseEditorModal.allJointKeys)). vm_compute. exact I. }
  split.
  - intros key p Hj. apply joint_In in Hj.
    assert (Hall : List.Forall (fun kv => insideBox (mkRect x y width height) (snd kv)) sk).
    { unfold sk, createInitialSkeleton, insideBox.
      change (width / 2)%Q with (width * (1 # 2))%Q.
      repeat (apply List.Forall_cons;
              [cbn [snd px py r_x r_y r_width r_height]; repeat split; lra|]).
      apply List.Forall_nil. }
    rewrite List.Forall_forall in Hall. exact (Hall _ Hj).
  - intros part l r Hpart Hl Hr.
    repeat (destruct Hpart as [<-|Hpart];
            [cbv [sk createInitialSkeleton joint String.eqb Ascii.eqb Bool.eqb
                  String.append] in Hl, Hr;
             injection Hl as <-; injection Hr as <-;
             cbn [px py]; split; [reflexivity | field]|]).
    destruct Hpart.
Qed.

Lemma default_skeleton_inside_box_witness :
  insideBox (mkRect 0 0 150 250) (mkPoint (0 + 150 / 2) (0 + 250 * (15 # 100))).
Proof.
  assert (H1 : (0 <= 150)%Q) by discriminate.
  assert (H2 : (0 <= 250)%Q) by discriminate.
  exact (proj1 (proj2 (proj2 (default_skeleton_inside_box 0 0 150 250 H1 H2)))
           "head" _ eq_refl).
Defined.

Lemma joint_loadSkeletonData (character : CanvasShape) (d : SkeletonData)
    (keys : list string) (key : string) :
  joint (omap (fun k => match joint d k with
                        | Some charPoint => Some (k, PoseEditorModal.toModal character charPoint)
                        | None => None
                        end) keys) key
  = if existsb (String.eqb key) keys
    then PoseEditorModal.toModal character <$> joint d key
    else None.
Proof.
  induction keys as [|a ks IH]; [reflexivity|].
  cbn [omap list_omap existsb]. rewrite (String.eqb_sym key a).
  destruct (joint d a) as [q|] eqn:Hq.
  - cbn [joint]. destruct (String.eqb a key) eqn:E.
    + apply String.eqb_eq in E. subst a. now rewrite Hq.
    + exact IH.
  - destruct (String.eqb a key) eqn:E.
    + apply String.eqb_eq in E. subst a. rewrite IH, Hq. simpl.
      now destruct (existsb _ ks).
    + exact IH.
Qed.

Lemma existsb_eqb_In (key : string) (keys : list string) :
  existsb (String.eqb key) keys = true <-> In key keys.
Proof.
  rewrite List.existsb_exists. split.
  - intros (k & Hk & E). apply String.eqb_eq in E. now subst.
  - intros H. exists key. split; [exact H | apply String.eqb_refl].
Qed.

(** X26. Opening the pose editor on an image with a skeleton and saving at
    once, for an image whose width and height are not 0: the image keeps its
    place in the list, its preset and its comment; each joint under one of
    the nineteen names of the editor comes back where it was; a joint under
    any other name is gone. *)
Theorem pose_editor_round_trip (shapes : list CanvasShape) (characterId : string) (i : nat)
    (s : CanvasShape) (href cid : string) (pidx : Z) (pr : Preset) (d : SkeletonData)
    (cm : string) :
  shapes !! i = Some s -> s_id s = characterId ->
  s_kind s = image href cid pidx (Some (SkeletonPose pr d cm)) ->
  ~ (or0 (s_width s) == 0)%Q -> ~ (or0 (s_height s) == 0)%Q ->
  exists saved,
    calledShapes (savePose shapes characterId
                    (SkeletonPose pr (PoseEditorModal.loadSkeletonData s d) cm)) !! i
      = Some (with_kind s (image href cid pidx (Some (SkeletonPose pr saved cm)))) /\
    (forall key p, In key PoseEditorModal.allJointKeys -> joint d key = Some p ->
                   exists p', joint saved key = Some p' /\ Point_eq p' p) /\
    (forall key, ~ In key PoseEditorModal.allJointKeys -> joint saved key = None).
Proof.
  intros Hi Hid Hk Hw Hh.
  exists (mapJoints (fromModal s) (PoseEditorModal.loadSkeletonData s d)).
  split; [|split].
  - unfold savePose, calledShapes. rewrite lookup_List_map, Hi. simpl.
    now rewrite Hk, Hid, eqb_self.
  - intros key p Hin Hj. rewrite mapJoints_joint.
    unfold PoseEditorModal.loadSkeletonData. rewrite joint_loadSkeletonData.
    rewrite (proj2 (existsb_eqb_In key _) Hin), Hj. simpl.
    eexists. split; [reflexivity|].
    unfold Point_eq, fromModal, PoseEditorModal.toModal,
      PoseEditorModal.MODAL_WIDTH, PoseEditorModal.MODAL_HEIGHT. cbn [px py].
    split; field; assumption.
  - intros key Hin. rewrite mapJoints_joint.
    unfold PoseEditorModal.loadSkeletonData. rewrite joint_loadSkeletonData.
    destruct (existsb (String.eqb key) PoseEditorModal.allJointKeys) eqn:E; [|reflexivity].
    apply existsb_eqb_In in E. contradiction.
Qed.

Lemma pose_editor_round_trip_witness :
  exists saved p',
    calledShapes (savePose [sampleImage "i"] "i"
                    (SkeletonPose full
                       (PoseEditorModal.loadSkeletonData (sampleImage "i")
                          [("head", mkPoint 150 75); ("neck", mkPoint 150 150)]) ""))
      !! 0
      = Some (with_kind (sampleImage "i")
                (image "data:" "hero" 0 (Some (SkeletonPose full saved "")))) /\
    joint saved "neck" = Some p' /\ Point_eq p' (mkPoint 150 150).
Proof.
  destruct (pose_editor_round_trip [sampleImage "i"] "i" 0 (sampleImage "i")
              "data:" "hero" 0 full [("head", mkPoint 150 75); ("neck", mkPoint 150 150)]
              "" eq_refl eq_refl eq_refl) as (saved & H1 & H2 & _).
  - intros H. discriminate H.
  - intros H. discriminate H.
  - assert (Hin : In "neck" PoseEditorModal.allJointKeys) by (right; left; reflexivity).
    destruct (H2 "neck" (mkPoint 150 150) Hin eq_refl) as (p' & H3 & H4).
    exists saved, p'. auto.
Defined.

Lemma setJoint_same (d : SkeletonData) (key : string) (p : Point) :
  joint (PoseEditorModal.setJoint d key p) key = Some p.
Proof.
  induction d as [|[k q] d IH]; simpl; [now rewrite eqb_self|].
  destruct (String.eqb k key) eqn:E; simpl; rewrite E; [reflexivity | exact IH].
Qed.

Lemma setJoint_other (d : SkeletonData) (key k' : string) (p : Point) :
  k' <> key -> joint (PoseEditorModal.setJoint d key p) k' = joint d k'.
Proof.
  intros Hne. induction d as [|[k q] d IH]; simpl.
  - apply not_eq_sym, String.eqb_neq in Hne. now rewrite Hne.
  - destruct (String.eqb k key) eqn:E; simpl.
    + apply String.eqb_eq in E. subst k.
      apply not_eq_sym, String.eqb_neq in Hne. now rewrite Hne.
    + now rewrite IH.
Qed.

Lemma scaled_inside (a m span w : Q) :
  (0 < span)%Q -> (0 <= m)%Q -> (m <= span)%Q -> (0 <= w)%Q ->
  (a <= a + (m - 0) / span * w)%Q /\ (a + (m - 0) / span * w <= a + w)%Q.
Proof.
  intros Hs H0 H1 Hw.
  assert (Hq0 : (0 <= (m - 0) / span)%Q).
  { apply Qle_shift_div_l; [exact Hs | lra]. }
  assert (Hq1 : ((m - 0) / span <= 1)%Q).
  { apply Qle_shift_div_r; [exact Hs | lra]. }
  pose proof (Qmult_le_0_compat _ _ Hq0 Hw) as A.
  pose proof (Qmult_le_compat_r _ _ w Hq1 Hw) as B.
  split; lra.
Qed.

(** X27. A joint dragged in the pose editor goes to the pointer, taken from
    the corner of the SVG element and clamped to the frame of 200 by 400: in
    each coordinate it is at the pointer while the pointer is in the frame,
    on the near side of the frame when the pointer is before it and on the
    far side when the pointer is past it. It is the only joint that moves;
    saved on an image with sides that are not negative, it lies inside the
    box of the image. *)
Theorem dragged_joint_stays_in_image (s : CanvasShape) (key : string)
    (clientX clientY rectLeft rectTop : Q) (data : SkeletonData) :
  key <> EmptyString -> (0 <= or0 (s_width s))%Q -> (0 <= or0 (s_height s))%Q ->
  let data' := PoseEditorModal.handleSkeletonMouseMove (Some key) clientX clientY
                 rectLeft rectTop data in
  exists m,
    joint data' key = Some m /\
    (0 <= px m)%Q /\ (px m <= 200)%Q /\ (0 <= py m)%Q /\ (py m <= 400)%Q /\
    insideBox (mkRect (s_x s) (s_y s) (or0 (s_width s)) (or0 (s_height s))) (fromModal s m) /\
    (forall k, k <> key -> joint data' k = joint data k) /\
    m = mkPoint (Qmax 0 (Qmin (clientX - rectLeft) 200))
                (Qmax 0 (Qmin (clientY - rectTop) 400)) /\
    ((0 <= clientX - rectLeft)%Q -> (clientX - rectLeft <= 200)%Q ->
     (px m == clientX - rectLeft)%Q) /\
    ((clientX - rectLeft <= 0)%Q -> (px m == 0)%Q) /\
    ((200 <= clientX - rectLeft)%Q -> (px m == 200)%Q) /\
    ((0 <= clientY - rectTop)%Q -> (clientY - rectTop <= 400)%Q ->
     (py m == clientY - rectTop)%Q) /\
    ((clientY - rectTop <= 0)%Q -> (py m == 0)%Q) /\
    ((400 <= clientY - rectTop)%Q -> (py m == 400)%Q).
Proof.
  intros Hkey Hw Hh data'. unfold data', PoseEditorModal.handleSkeletonMouseMove.
  apply String.eqb_neq in Hkey. rewrite Hkey.
  eexists. split; [apply setJoint_same|]. cbn [px py].
  unfold PoseEditorModal.MODAL_WIDTH, PoseEditorModal.MODAL_HEIGHT.
  assert (X0 : (0 <= Qmax 0 (Qmin (clientX - rectLeft) 200))%Q) by apply Q.le_max_l.
  assert (X1 : (Qmax 0 (Qmin (clientX - rectLeft) 200) <= 200)%Q).
  { apply Q.max_lub; [discriminate | apply Q.le_min_r]. }
  assert (Y0 : (0 <= Qmax 0 (Qmin (clientY - rectTop) 400))%Q) by apply Q.le_max_l.
  assert (Y1 : (Qmax 0 (Qmin (clientY - rectTop) 400) <= 400)%Q).
  { apply Q.max_lub; [discriminate | apply Q.le_min_r]. }
  repeat (split; [assumption|]). split.
  - unfold insideBox, fromModal. cbn [px py r_x r_y r_width r_height].
    destruct (scaled_inside (s_x s) _ 200 _ eq_refl X0 X1 Hw) as [A B].
    destruct (scaled_inside (s_y s) _ 400 _ eq_refl Y0 Y1 Hh) as [C D].
    auto.
  - split; [intros k Hk; now apply setJoint_other|].
    split; [reflexivity|].
    assert (Hclamp : forall v hi : Q, (0 <= hi)%Q ->
              ((0 <= v)%Q -> (v <= hi)%Q -> (Qmax 0 (Qmin v hi) == v)%Q) /\
              ((v <= 0)%Q -> (Qmax 0 (Qmin v hi) == 0)%Q) /\
              ((hi <= v)%Q -> (Qmax 0 (Qmin v hi) == hi)%Q)).
    { intros v hi Hhi. repeat split; intros.
      - rewrite (Q.min_l v hi) by assumption. now apply Q.max_r.
      - apply Q.max_l. apply Qle_trans with v; [apply Q.le_min_l | assumption].
      - rewrite (Q.min_r v hi) by assumption. now apply Q.max_r. }
    assert (H200 : (0 <= 200)%Q) by discriminate.
    assert (H400 : (0 <= 400)%Q) by discriminate.
    destruct (Hclamp (clientX - rectLeft)%Q 200%Q H200) as (A1 & A2 & A3).
    destruct (Hclamp (clientY - rectTop)%Q 400%Q H400) as (B1 & B2 & B3).
    auto 10.
Qed.

Lemma dragged_joint_stays_in_image_witness :
  exists m,
    joint (PoseEditorModal.handleSkeletonMouseMove (Some "head") 900 (-50) 100 100
             PoseEditorModal.resetSkeleton) "head" = Some m /\
    (px m == 200)%Q /\ (py m == 0)%Q.
Proof.
  assert (Hk : "head" <> EmptyString) by discriminate.
  assert (Hw : (0 <= or0 (s_width (sampleImage "i")))%Q) by discriminate.
  assert (Hh : (0 <= or0 (s_height (sampleImage "i")))%Q) by discriminate.
  destruct (dragged_joint_stays_in_image (sampleImage "i") "head" 900 (-50) 100 100
              PoseEditorModal.resetSkeleton Hk Hw Hh)
    as (m & H1 & _ & _ & _ & _ & _ & _ & _ & _ & _ & H2 & _ & H3 & _).
  exists m. split; [exact H1|]. split; [apply H2 | apply H3]; discriminate.
Defined.

(** X28. The two generators of the default skeleton, the one of the canvas
    editor and the one of the pose editor, give the same joints but for the
    right knee: the pose editor puts it 0.2 under the hips whatever the
    height, the canvas editor a fifth of the height under them. *)
Theorem skeleton_generators_differ_at_right_knee (x y width height : Q) :
  let canvas := createInitialSkeleton x y width height in
  let modal := PoseEditorModal.createInitialSkeleton x y width height in
  map fst modal = map fst canvas /\
  (forall key, key <> "rightKnee" -> joint modal key = joint canvas key) /\
  exists hips kc km,
    joint canvas "hips" = Some hips /\
    joint canvas "rightKnee" = Some kc /\ joint modal "rightKnee" = Some km /\
    px km = px kc /\
    (py kc - py hips == height * (2 # 10))%Q /\ (py km - py hips == 2 # 10)%Q.
Proof.
  intros canvas modal. split; [reflexivity|]. split.
  - intros key Hkey. apply String.eqb_neq in Hkey. rewrite String.eqb_sym in Hkey.
    unfold modal, canvas, PoseEditorModal.createInitialSkeleton, createInitialSkeleton.
    cbn [joint]. rewrite Hkey.
    repeat match goal with
           | |- context [String.eqb ?a key] => destruct (String.eqb a key); [reflexivity|]
           end.
    reflexivity.
  - eexists _, _, _. split; [reflexivity|]. split; [reflexivity|]. split; [reflexivity|].
    cbn [px py]. split; [reflexivity|]. split; ring.
Qed.

(** ** The list of pages *)

Lemma NoDup_map_filter {A B : Type} (f : A -> B) (g : A -> bool) (l : list A) :
  NoDup (map f l) -> NoDup (map f (List.filter g l)).
Proof.
  induction l as [|a l IH]; simpl; [auto|].
  intros H. apply NoDup_cons in H as [Ha Hl].
  destruct (g a); [|now apply IH]. simpl. apply NoDup_cons. split; [|now apply IH].
  intros Hin. apply Ha. apply list_elem_of_In in Hin. apply list_elem_of_In.
  apply in_map_iff in Hin as (b & Hb & Hin). apply List.filter_In in Hin as [Hin _].
  apply in_map_iff. now exists b.
Qed.

Lemma find_named (pages : list Page) (cur : string) :
  (exists p, In p pages /\ p_id p = cur) ->
  exists p, List.find (fun p => String.eqb (p_id p) cur) pages = Some p /\
            In p pages /\ p_id p = cur.
Proof.
  intros (q & Hq & Hid).
  destruct (List.find (fun p => String.eqb (p_id p) cur) pages) as [p|] eqn:Hf.
  - exists p. apply List.find_some in Hf as [H1 H2]. apply String.eqb_eq in H2. auto.
  - pose proof (List.find_none _ _ Hf q Hq) as H. cbv beta in H.
    rewrite Hid, eqb_self in H. discriminate.
Qed.

(** X29. Adding and deleting pages, from a list in which the pages have ids
    of their own and the current id names a page: both leave such a list. A
    page added under a fresh id comes last, empty, with the aspect ratio of
    the current page. A deletion always goes through: it leaves the only
    page alone, and otherwise takes out the page of that id and no other,
    moving the current id only when it was the deleted one. *)
Theorem page_list_invariant (pages : list Page) (currentPageId : string) :
  pagesOk pages currentPageId ->
  (forall switchToNewPage newPageId,
      (forall p, In p pages -> p_id p <> newPageId) ->
      exists cur' p,
        In p pages /\ p_id p = currentPageId /\
        handleAddPage pages currentPageId switchToNewPage newPageId
          = (pages ++ [mkPage newPageId [] [[]] 0 EmptyString (aspectRatio p) (mkVT 1 0 0)],
             cur') /\
        cur' = (if switchToNewPage then newPageId else currentPageId) /\
        pagesOk (pages ++ [mkPage newPageId [] [[]] 0 EmptyString (aspectRatio p)
                                  (mkVT 1 0 0)]) cur') /\
  (forall idToDelete,
      exists pages' cur',
        handleDeletePage pages currentPageId idToDelete = Some (pages', cur') /\
        pagesOk pages' cur' /\
        (length pages <= 1 -> pages' = pages /\ cur' = currentPageId) /\
        (1 < length pages ->
           forall p, In p pages' <-> In p pages /\ p_id p <> idToDelete) /\
        (currentPageId <> idToDelete -> cur' = currentPageId)).
Proof.
  intros [Hnd Hcur]. split.
  - intros sw newId Hfresh.
    destruct (find_named pages currentPageId Hcur) as (p & Hf & Hp & Hid).
    eexists _, p. split; [exact Hp|]. split; [exact Hid|].
    split; [unfold handleAddPage, currentPage; rewrite Hf; reflexivity|].
    split; [reflexivity|]. split.
    + rewrite map_app. simpl. apply NoDup_app. split; [exact Hnd|]. split.
      * intros i Hi Hn. apply list_elem_of_In in Hi.
        apply list_elem_of_In in Hn. destruct Hn as [<-|[]].
        apply in_map_iff in Hi as (q & Hq & Hin). exact (Hfresh q Hin Hq).
      * apply NoDup_singleton.
    + destruct sw.
      * eexists. split; [apply in_or_app; right; left; reflexivity | reflexivity].
      * exists p. split; [apply in_or_app; now left | exact Hid].
  - intros idToDelete. unfold handleDeletePage.
    destruct (length pages <=? 1) eqn:Hlen.
    + apply Nat.leb_le in Hlen. eexists _, _. split; [reflexivity|].
      split; [split; assumption|]. split; [auto|]. split; [lia | auto].
    + apply Nat.leb_gt in Hlen.
      assert (Hkept : forall p, In p (List.filter (fun p => negb (String.eqb (p_id p) idToDelete))
                                         pages) <-> In p pages /\ p_id p <> idToDelete).
      { intros p. rewrite List.filter_In, negb_true_iff, String.eqb_neq. reflexivity. }
      assert (Hnd' : NoDup (map p_id (List.filter
                       (fun p => negb (String.eqb (p_id p) idToDelete)) pages)))
        by now apply NoDup_map_filter.
      destruct (String.eqb currentPageId idToDelete) eqn:E.
      * apply String.eqb_eq in E.
        destruct (List.find (fun p => negb (String.eqb (p_id p) idToDelete)) pages)
          as [q|] eqn:Hq.
        -- apply List.find_some in Hq as [Hq1 Hq2].
           apply negb_true_iff, String.eqb_neq in Hq2.
           eexists _, _. split; [reflexivity|]. split.
           { split; [exact Hnd'|]. exists q. split; [now apply Hkept | reflexivity]. }
           split; [lia|]. split; [intros _; exact Hkept | congruence].
        -- exfalso. destruct pages as [|a [|b r]]; simpl in Hlen; try lia.
           pose proof (List.find_none _ _ Hq a (or_introl eq_refl)) as Ha.
           pose proof (List.find_none _ _ Hq b (or_intror (or_introl eq_refl))) as Hb.
           cbv beta in Ha, Hb. apply negb_false_iff, String.eqb_eq in Ha, Hb.
           simpl in Hnd. apply NoDup_cons in Hnd as [Hnd _].
           apply Hnd. rewrite Ha, <- Hb. left.
      * apply String.eqb_neq in E. destruct Hcur as (q & Hq1 & Hq2).
        eexists _, _. split; [reflexivity|]. split.
        { split; [exact Hnd'|]. exists q. split; [apply Hkept; split; congruence | exact Hq2]. }
        split; [lia|]. split; [intros _; exact Hkept | reflexivity].
Qed.

Lemma page_list_invariant_witness :
  exists pages' cur',
    handleDeletePage [initialPage "1"; initialPage "2"] "1" "1" = Some (pages', cur') /\
    pagesOk pages' cur'.
Proof.
  assert (Hok : pagesOk [initialPage "1"; initialPage "2"] "1").
  { split.
    - simpl. apply NoDup_cons. split; [|apply NoDup_singleton].
      intros H. apply list_elem_of_In in H. destruct H as [H|[]]. discriminate H.
    - exists (initialPage "1"). split; [now left | reflexivity]. }
  destruct (proj2 (page_list_invariant _ _ Hok) "1") as (pages' & cur' & H1 & H2 & _).
  exists pages', cur'. auto.
Defined.

(** ** The drawing order, once more *)

Lemma sortInsert_Permutation {A : Type} (cmp : A -> A -> Z) (a : A) (l : list A) :
  sortInsert cmp a l ≡ₚ a :: l.
Proof.
  induction l as [|b l IH]; simpl; [reflexivity|].
  destruct (cmp a b <=? 0)%Z; [reflexivity|].
  rewrite IH. apply Permutation_swap.
Qed.

Lemma stableSort_of_sorted {A : Type} (key : A -> Z) (l : list A) :
  StronglySorted (fun x y => (key x <= key y)%Z) l ->
  stableSort (fun x y => (key x - key y)%Z) l = l.
Proof.
  induction 1 as [|a l Hs IH Ha]; [reflexivity|].
  unfold stableSort in *. cbn [foldr]. rewrite IH.
  destruct l as [|b r]; [reflexivity|]. simpl.
  apply List.Forall_inv in Ha.
  destruct (Z.leb_spec (key a - key b) 0); [reflexivity | lia].
Qed.

(** X30. The order on screen holds the shapes of the page, each as often as
    the page has it, with the kinds in rising order of their rank; sorting a
    list that is already in that order changes nothing, so sorting twice is
    sorting once. *)
Theorem sorted_shapes_permutation (shapes : list CanvasShape) :
  sortedShapes shapes ≡ₚ shapes /\
  length (sortedShapes shapes) = length shapes /\
  StronglySorted (fun a b => (shapeOrder (s_type a) <= shapeOrder (s_type b))%Z)
                 (sortedShapes shapes) /\
  sortedShapes (sortedShapes shapes) = sortedShapes shapes.
Proof.
  assert (Hp : sortedShapes shapes ≡ₚ shapes).
  { unfold sortedShapes, stableSort. induction shapes as [|a l IH]; [reflexivity|].
    cbn [foldr]. rewrite sortInsert_Permutation. now rewrite IH. }
  assert (Hs : StronglySorted
                 (fun a b => (shapeOrder (s_type a) <= shapeOrder (s_type b))%Z)
                 (sortedShapes shapes)).
  { exact (stableSort_sorted (fun s => shapeOrder (s_type s)) shapes). }
  split; [exact Hp|]. split; [now rewrite Hp|]. split; [exact Hs|].
  unfold sortedShapes at 1.
  exact (stableSort_of_sorted (fun s => shapeOrder (s_type s)) _ Hs).
Qed.
